(** * Blog authoring widget: draft auto-save and form/post lifecycle

    A shallow embedding of [BlogManager] (src/XinEn/blogvideophoto/blog.js,
    the jQuery variant, and its fetch-based twin src/unnamed/part_000) and
    the properties of its edit session, draft store and post store.

    Conventions of the embedding.
    - A JavaScript string is the list of its UTF-16 code units.
    - A JavaScript number that the code only uses as an integer (indices,
      view counts, byte sizes, time values in milliseconds) is a [Z]; the
      model is exact below 2^53.
    - An ISO-8601 date string produced by [toISOString] is represented by the
      time value it denotes ([new Date(iso)] gives that value back).
    - [null], [undefined] and an absent DOM element are [None].
    - Every [new Date()] that the code reads is an explicit argument. *)

From Stdlib Require Import ZArith NArith String Ascii List Bool Lia.
From Stdlib Require Import Sorting.Permutation Sorting.Sorted DecimalN.
From stdpp Require Import base decidable option list numbers gmap.

Local Open Scope Z_scope.

(** ** JavaScript strings *)

Module JS.

Definition jsstring : Type := list N.

(** A literal of the source, given by its ASCII spelling. *)
Definition str (s : string) : jsstring :=
  List.map N_of_ascii (list_ascii_of_string s).

(** ToBoolean on a string: only the empty string is falsy. *)
Definition truthy (s : jsstring) : bool :=
  match s with
  | [] => false
  | _ :: _ => true
  end.

(** [a || b] on strings. *)
Definition or_else (a b : jsstring) : jsstring :=
  if truthy a then a else b.

(** The code units removed by [String.prototype.trim]: WhiteSpace and
    LineTerminator of ECMA-262. *)
Definition isWhiteSpace (c : N) : bool :=
  (((9 <=? c) && (c <=? 13)) || (c =? 32) || (c =? 160) || (c =? 5760)
   || ((8192 <=? c) && (c <=? 8202)) || (c =? 8232) || (c =? 8233)
   || (c =? 8239) || (c =? 8287) || (c =? 12288) || (c =? 65279))%N.

Fixpoint trimStart (s : jsstring) : jsstring :=
  match s with
  | [] => []
  | c :: s' => if isWhiteSpace c then trimStart s' else s
  end.

Definition trimEnd (s : jsstring) : jsstring := rev (trimStart (rev s)).

Definition trim (s : jsstring) : jsstring := trimEnd (trimStart s).

Definition eqb (a b : jsstring) : bool := bool_decide (a = b).

Fixpoint startsWith (p s : jsstring) : bool :=
  match p, s with
  | [], _ => true
  | _ :: _, [] => false
  | a :: p', b :: s' => (a =? b)%N && startsWith p' s'
  end.

(** [s.includes(p)] *)
Fixpoint includes (s p : jsstring) : bool :=
  startsWith p s ||
  match s with
  | [] => false
  | _ :: s' => includes s' p
  end.

(** [s.split(sep)] for a separator of one code unit. *)
Fixpoint split_from (sep : N) (cur s : jsstring) : list jsstring :=
  match s with
  | [] => [rev cur]
  | c :: s' =>
      if (c =? sep)%N then rev cur :: split_from sep [] s'
      else split_from sep (c :: cur) s'
  end.

Definition split (sep : N) (s : jsstring) : list jsstring :=
  split_from sep [] s.

(** [parts.join(sep)] *)
Fixpoint join (sep : jsstring) (parts : list jsstring) : jsstring :=
  match parts with
  | [] => []
  | [p] => p
  | p :: rest => p ++ sep ++ join sep rest
  end.

(** [s.replace(c, '')] with a one-unit string pattern: the first
    occurrence only. *)
Fixpoint removeFirst (c : N) (s : jsstring) : jsstring :=
  match s with
  | [] => []
  | x :: s' => if (x =? c)%N then s' else x :: removeFirst c s'
  end.

(** [s.padStart(n, fill)] with a one-unit filler. *)
Definition padStart (n : nat) (fill : N) (s : jsstring) : jsstring :=
  replicate (n - length s)%nat fill ++ s.

Definition comma : N := 44.
Definition space : N := 32.

End JS.

Import JS.

(** ** Data model *)

(** The image attribution object kept in [selectedImageAttribution]; the
    fields are those read by [generateAttribution]. *)
Record Attribution : Type := {
  photographer : jsstring;
  photographerUrl : jsstring;
  unsplashUrl : jsstring
}.

(** A post object as [createPostData] builds it; [dateEdited] and
    [imageAttribution] are own properties only when [Some]. *)
Module Post.
Record t : Type := {
  author : jsstring;
  category : jsstring;
  title : jsstring;
  image : option jsstring;
  excerpt : jsstring;
  content : jsstring;
  tags : list jsstring;
  date : Z;
  views : Z;
  dateEdited : option Z;
  imageAttribution : option Attribution
}.
End Post.

(** The draft object written by [saveFormDraft]. *)
Module Draft.
Record t : Type := {
  authorName : jsstring;
  postCategory : jsstring;
  postTitle : jsstring;
  postExcerpt : jsstring;
  postTags : jsstring;
  savedAt : Z;
  selectedImageAttribution : option Attribution;
  previewImageSrc : option jsstring
}.
End Draft.

(** A [File] of the image input. *)
Record File : Type := {
  type : jsstring;
  size : Z
}.

(** A text control of the form. [label] is [labels?.[0]?.textContent]. *)
Record Input : Type := {
  value : jsstring;
  defaultValue : jsstring;
  label : option jsstring
}.

(** The [postImage] file control: [files[0]] and the [required] flag. *)
Record FileInput : Type := {
  files : option File;
  required : bool
}.

(** The ids of the text controls the code looks up. *)
Inductive FieldId : Type :=
| authorName
| postCategory
| postTitle
| postExcerpt
| postTags.

Definition fieldIdName (f : FieldId) : jsstring :=
  match f with
  | authorName => str "authorName"
  | postCategory => str "postCategory"
  | postTitle => str "postTitle"
  | postExcerpt => str "postExcerpt"
  | postTags => str "postTags"
  end.

(** The part of the document the manager reads and writes. Each element is
    optional, as every lookup in the source is guarded. *)
Module Dom.
Record t : Type := {
  authorName : option Input;
  postCategory : option Input;
  postTitle : option Input;
  postExcerpt : option Input;
  postTags : option Input;
  postContent : option Input;
  postImage : option FileInput;
  formError : option jsstring;      (* textContent of #formError *)
  previewImg : option jsstring;     (* src of #previewImg *)
  imagePreview : option bool        (* #imagePreview shown (display block) *)
}.
End Dom.

(** [sessionStorage], when the page has one: the item under the key
    blogFormDraft (the JSON text of a draft, identified with the draft it
    encodes) and whether [setItem] currently throws (quota). *)
Record Storage : Type := {
  blogFormDraft : option Draft.t;
  quotaExceeded : bool
}.

(** The manager's own fields together with its environment. *)
Record State : Type := {
  posts : list Post.t;
  formDraft : option Draft.t;
  currentEditIndex : option Z;
  selectedImageAttribution : option Attribution;
  dom : Dom.t;
  sessionStorage : option Storage
}.

#[global] Instance Attribution_eq_dec : EqDecision Attribution.
Proof. solve_decision. Defined.
#[global] Instance Post_eq_dec : EqDecision Post.t.
Proof. solve_decision. Defined.
#[global] Instance Draft_eq_dec : EqDecision Draft.t.
Proof. solve_decision. Defined.
#[global] Instance FieldId_eq_dec : EqDecision FieldId.
Proof. solve_decision. Defined.

(** ** Record updates *)

Definition set_posts (v : list Post.t) (s : State) : State :=
  {| posts := v; formDraft := formDraft s;
     currentEditIndex := currentEditIndex s;
     selectedImageAttribution := selectedImageAttribution s;
     dom := dom s; sessionStorage := sessionStorage s |}.

Definition set_formDraft (v : option Draft.t) (s : State) : State :=
  {| posts := posts s; formDraft := v;
     currentEditIndex := currentEditIndex s;
     selectedImageAttribution := selectedImageAttribution s;
     dom := dom s; sessionStorage := sessionStorage s |}.

Definition set_currentEditIndex (v : option Z) (s : State) : State :=
  {| posts := posts s; formDraft := formDraft s;
     currentEditIndex := v;
     selectedImageAttribution := selectedImageAttribution s;
     dom := dom s; sessionStorage := sessionStorage s |}.

Definition set_selectedImageAttribution (v : option Attribution) (s : State)
  : State :=
  {| posts := posts s; formDraft := formDraft s;
     currentEditIndex := currentEditIndex s;
     selectedImageAttribution := v;
     dom := dom s; sessionStorage := sessionStorage s |}.

Definition set_dom (v : Dom.t) (s : State) : State :=
  {| posts := posts s; formDraft := formDraft s;
     currentEditIndex := currentEditIndex s;
     selectedImageAttribution := selectedImageAttribution s;
     dom := v; sessionStorage := sessionStorage s |}.

Definition set_sessionStorage (v : option Storage) (s : State) : State :=
  {| posts := posts s; formDraft := formDraft s;
     currentEditIndex := currentEditIndex s;
     selectedImageAttribution := selectedImageAttribution s;
     dom := dom s; sessionStorage := v |}.

Definition with_dom (f : Dom.t -> Dom.t) (s : State) : State :=
  set_dom (f (dom s)) s.

(** [document.getElementById(fieldId)] for a text control. *)
Definition getField (d : Dom.t) (f : FieldId) : option Input :=
  match f with
  | authorName => Dom.authorName d
  | postCategory => Dom.postCategory d
  | postTitle => Dom.postTitle d
  | postExcerpt => Dom.postExcerpt d
  | postTags => Dom.postTags d
  end.

Definition setField (f : FieldId) (v : option Input) (d : Dom.t) : Dom.t :=
  {| Dom.authorName := match f with authorName => v | _ => Dom.authorName d end;
     Dom.postCategory :=
       match f with postCategory => v | _ => Dom.postCategory d end;
     Dom.postTitle := match f with postTitle => v | _ => Dom.postTitle d end;
     Dom.postExcerpt :=
       match f with postExcerpt => v | _ => Dom.postExcerpt d end;
     Dom.postTags := match f with postTags => v | _ => Dom.postTags d end;
     Dom.postContent := Dom.postContent d;
     Dom.postImage := Dom.postImage d;
     Dom.formError := Dom.formError d;
     Dom.previewImg := Dom.previewImg d;
     Dom.imagePreview := Dom.imagePreview d |}.

Definition set_postImage (v : option FileInput) (d : Dom.t) : Dom.t :=
  {| Dom.authorName := Dom.authorName d; Dom.postCategory := Dom.postCategory d;
     Dom.postTitle := Dom.postTitle d; Dom.postExcerpt := Dom.postExcerpt d;
     Dom.postTags := Dom.postTags d; Dom.postContent := Dom.postContent d;
     Dom.postImage := v;
     Dom.formError := Dom.formError d;
     Dom.previewImg := Dom.previewImg d;
     Dom.imagePreview := Dom.imagePreview d |}.

Definition set_formError (v : option jsstring) (d : Dom.t) : Dom.t :=
  {| Dom.authorName := Dom.authorName d; Dom.postCategory := Dom.postCategory d;
     Dom.postTitle := Dom.postTitle d; Dom.postExcerpt := Dom.postExcerpt d;
     Dom.postTags := Dom.postTags d; Dom.postContent := Dom.postContent d;
     Dom.postImage := Dom.postImage d;
     Dom.formError := v;
     Dom.previewImg := Dom.previewImg d;
     Dom.imagePreview := Dom.imagePreview d |}.

Definition set_preview (img : option jsstring) (shown : option bool)
    (d : Dom.t) : Dom.t :=
  {| Dom.authorName := Dom.authorName d; Dom.postCategory := Dom.postCategory d;
     Dom.postTitle := Dom.postTitle d; Dom.postExcerpt := Dom.postExcerpt d;
     Dom.postTags := Dom.postTags d; Dom.postContent := Dom.postContent d;
     Dom.postImage := Dom.postImage d;
     Dom.formError := Dom.formError d;
     Dom.previewImg := img;
     Dom.imagePreview := shown |}.

(** [el.value = v] on an element that exists; no effect on a missing one
    (the source guards each such write with [if (el)]). *)
Definition setValue (v : jsstring) (i : Input) : Input :=
  {| value := v; defaultValue := defaultValue i; label := label i |}.

Definition writeField (f : FieldId) (v : jsstring) (d : Dom.t) : Dom.t :=
  match getField d f with
  | Some i => setField f (Some (setValue v i)) d
  | None => d
  end.

(** [document.getElementById(id)?.value || ''] *)
Definition fieldValue (d : Dom.t) (f : FieldId) : jsstring :=
  match getField d f with
  | Some i => or_else (value i) []
  | None => []
  end.

(** [this.posts[index]]: defined exactly on the positions of the array. *)
Definition postAt (ps : list Post.t) (index : Z) : option Post.t :=
  if 0 <=? index then ps !! Z.to_nat index else None.

(** ** Draft store *)

(** [JSON.stringify] of a draft, as the sequence of members it prints, in
    insertion order. Two drafts print the same text exactly when these
    sequences are equal. A member whose value is [undefined] is not
    printed. [JIso t] is the string that [toISOString] gives for [t]. *)
Inductive JValue : Type :=
| JNull
| JString (s : jsstring)
| JIso (t : Z)
| JObject (members : list (jsstring * jsstring)).

#[global] Instance JValue_eq_dec : EqDecision JValue.
Proof. solve_decision. Defined.

Definition JSON_attribution (a : option Attribution) : JValue :=
  match a with
  | None => JNull
  | Some a =>
      JObject [ (str "photographer", photographer a);
                (str "photographerUrl", photographerUrl a);
                (str "unsplashUrl", unsplashUrl a) ]
  end.

Definition JSON_stringify (d : Draft.t) : list (jsstring * JValue) :=
  [ (str "authorName", JString (Draft.authorName d));
    (str "postCategory", JString (Draft.postCategory d));
    (str "postTitle", JString (Draft.postTitle d));
    (str "postExcerpt", JString (Draft.postExcerpt d));
    (str "postTags", JString (Draft.postTags d));
    (str "savedAt", JIso (Draft.savedAt d));
    (str "selectedImageAttribution",
      JSON_attribution (Draft.selectedImageAttribution d)) ]
  ++ match Draft.previewImageSrc d with
     | Some src => [ (str "previewImageSrc", JString src) ]
     | None => []
     end.

(** [{...d, savedAt: t}] *)
Definition spread_savedAt (d : Draft.t) (t : Z) : Draft.t :=
  {| Draft.authorName := Draft.authorName d;
     Draft.postCategory := Draft.postCategory d;
     Draft.postTitle := Draft.postTitle d;
     Draft.postExcerpt := Draft.postExcerpt d;
     Draft.postTags := Draft.postTags d;
     Draft.savedAt := t;
     Draft.selectedImageAttribution := Draft.selectedImageAttribution d;
     Draft.previewImageSrc := Draft.previewImageSrc d |}.

(** [formData.previewImageSrc = src] *)
Definition set_previewImageSrc (src : jsstring) (d : Draft.t) : Draft.t :=
  {| Draft.authorName := Draft.authorName d;
     Draft.postCategory := Draft.postCategory d;
     Draft.postTitle := Draft.postTitle d;
     Draft.postExcerpt := Draft.postExcerpt d;
     Draft.postTags := Draft.postTags d;
     Draft.savedAt := Draft.savedAt d;
     Draft.selectedImageAttribution := Draft.selectedImageAttribution d;
     Draft.previewImageSrc := Some src |}.

Definition hasUnsavedChanges (d : Dom.t) : jsstring :=
  let authorName := fieldValue d authorName in
  let postCategory := fieldValue d postCategory in
  let postTitle := fieldValue d postTitle in
  let postExcerpt := fieldValue d postExcerpt in
  let postTags := fieldValue d postTags in
  or_else (or_else (or_else (or_else (trim authorName) postCategory)
                            (trim postTitle))
                   (trim postExcerpt))
          (trim postTags).

(** The object literal built by [saveFormDraft], before the preview image
    is attached. *)
Definition draftOfForm (now : Z) (s : State) : Draft.t :=
  {| Draft.authorName := fieldValue (dom s) authorName;
     Draft.postCategory := fieldValue (dom s) postCategory;
     Draft.postTitle := fieldValue (dom s) postTitle;
     Draft.postExcerpt := fieldValue (dom s) postExcerpt;
     Draft.postTags := fieldValue (dom s) postTags;
     Draft.savedAt := now;
     Draft.selectedImageAttribution := selectedImageAttribution s;
     Draft.previewImageSrc := None |}.

(** The preview image is saved with the draft when [#previewImg] has a
    source that is not a data URL. *)
Definition attachPreview (d : Dom.t) (formData : Draft.t) : Draft.t :=
  match Dom.previewImg d with
  | Some src =>
      if truthy src && negb (includes src (str "data:"))
      then set_previewImageSrc src formData
      else formData
  | None => formData
  end.

(** [sessionStorage.setItem('blogFormDraft', ...)] inside its [try]. *)
Definition setItem (formData : Draft.t) (st : Storage) : Storage :=
  if quotaExceeded st then st
  else {| blogFormDraft := Some formData; quotaExceeded := quotaExceeded st |}.

Definition removeItem (st : Storage) : Storage :=
  {| blogFormDraft := None; quotaExceeded := quotaExceeded st |}.

(** The tail of [saveFormDraft]: memory first, then the session copy. *)
Definition storeDraft (formData : Draft.t) (s : State) : State :=
  set_sessionStorage (setItem formData <$> sessionStorage s)
    (set_formDraft (Some formData) s).

(** The comparison that guards the write in blog.js:
    [this.formDraft && JSON.stringify(formData) ===
       JSON.stringify({...this.formDraft, savedAt: this.formDraft.savedAt})] *)
Definition sameAsLastSave (formData : Draft.t) (last : option Draft.t) : bool :=
  match last with
  | Some d =>
      bool_decide (JSON_stringify formData
                   = JSON_stringify (spread_savedAt d (Draft.savedAt d)))
  | None => false
  end.

(** [saveFormDraft] of blog.js (the jQuery variant). *)
Definition saveFormDraft (now : Z) (s : State) : State :=
  match currentEditIndex s with
  | Some _ => s
  | None =>
      if negb (truthy (hasUnsavedChanges (dom s))) then s
      else
        let formData := draftOfForm now s in
        if sameAsLastSave formData (formDraft s) then s
        else storeDraft (attachPreview (dom s) formData) s
  end.

(** [saveFormDraft] of part_000 (the fetch variant): no check for content
    and no comparison with the last save. *)
Definition saveFormDraft_fetch (now : Z) (s : State) : State :=
  match currentEditIndex s with
  | Some _ => s
  | None =>
      let formData := draftOfForm now s in
      storeDraft (attachPreview (dom s) formData) s
  end.

Definition clearFormDraft (s : State) : State :=
  set_sessionStorage (removeItem <$> sessionStorage s)
    (set_selectedImageAttribution None (set_formDraft None s)).

(** [showImagePreview(src)] and [hideImagePreview()]. *)
Definition showImagePreview (src : jsstring) (d : Dom.t) : Dom.t :=
  match Dom.previewImg d, Dom.imagePreview d with
  | Some _, Some _ => set_preview (Some src) (Some true) d
  | _, _ => d
  end.

Definition clearFiles (i : FileInput) : FileInput :=
  {| files := None; required := required i |}.

Definition hideImagePreview (d : Dom.t) : Dom.t :=
  set_postImage (clearFiles <$> Dom.postImage d)
    (set_preview (Dom.previewImg d)
       ((fun _ => false) <$> Dom.imagePreview d) d).

Definition draftValue (formData : Draft.t) (f : FieldId) : jsstring :=
  match f with
  | authorName => Draft.authorName formData
  | postCategory => Draft.postCategory formData
  | postTitle => Draft.postTitle formData
  | postExcerpt => Draft.postExcerpt formData
  | postTags => Draft.postTags formData
  end.

(** The keys of a draft that name form controls, in the order
    [Object.keys] lists them. *)
Definition draftFieldKeys : list FieldId :=
  [authorName; postCategory; postTitle; postExcerpt; postTags].

(** One turn of the loop that loads saved values:
    [if (field && formData[key]) field.value = formData[key]] *)
Definition restoreField (formData : Draft.t) (d : Dom.t) (key : FieldId)
  : Dom.t :=
  if truthy (draftValue formData key)
  then writeField key (draftValue formData key) d
  else d.

Definition msPerDay : Z := 1000 * 60 * 60 * 24.

(** [daysDiff > 7] where [daysDiff = (now - savedDate) / msPerDay]: the
    quotient exceeds 7 exactly when the difference exceeds 7 days of
    milliseconds. *)
Definition expired (now savedDate : Z) : bool :=
  7 * msPerDay <? now - savedDate.

(** [loadFormDraft]: the state after the call and the value returned. The
    [catch] branches are left out: with a stored item that is the text of a
    draft, nothing in the [try] blocks throws. *)
Definition loadFormDraft (now : Z) (s : State) : State * bool :=
  let s1 :=
    match sessionStorage s with
    | Some st =>
        match blogFormDraft st with
        | Some formData => set_formDraft (Some formData) s
        | None => s
        end
    | None => s
    end in
  match formDraft s1 with
  | Some formData =>
      if expired now (Draft.savedAt formData)
      then (clearFormDraft s1, false)
      else
        let d1 := foldl (restoreField formData) (dom s1) draftFieldKeys in
        let s2 :=
          match Draft.selectedImageAttribution formData with
          | Some a => set_selectedImageAttribution (Some a) s1
          | None => s1
          end in
        let d2 :=
          match Draft.previewImageSrc formData with
          | Some src => if truthy src then showImagePreview src d1 else d1
          | None => d1
          end in
        (set_dom d2 s2, true)
  | None => (s1, false)
  end.

(** ** Edit session *)

(** [blogForm.reset()]: every control goes back to its default value and
    the file selection is dropped. *)
Definition resetInput (i : Input) : Input := setValue (defaultValue i) i.

Definition formReset (d : Dom.t) : Dom.t :=
  {| Dom.authorName := resetInput <$> Dom.authorName d;
     Dom.postCategory := resetInput <$> Dom.postCategory d;
     Dom.postTitle := resetInput <$> Dom.postTitle d;
     Dom.postExcerpt := resetInput <$> Dom.postExcerpt d;
     Dom.postTags := resetInput <$> Dom.postTags d;
     Dom.postContent := resetInput <$> Dom.postContent d;
     Dom.postImage := clearFiles <$> Dom.postImage d;
     Dom.formError := Dom.formError d;
     Dom.previewImg := Dom.previewImg d;
     Dom.imagePreview := Dom.imagePreview d |}.

Definition openCreateModal (now : Z) (s : State) : State :=
  let s1 := set_currentEditIndex None s in
  let s2 := with_dom (fun d => hideImagePreview (formReset d)) s1 in
  fst (loadFormDraft now s2).

Definition setRequired (b : bool) (i : FileInput) : FileInput :=
  {| files := files i; required := b |}.

(** [post.image] is truthy. *)
Definition hasImage (p : Post.t) : option jsstring :=
  match Post.image p with
  | Some src => if truthy src then Some src else None
  | None => None
  end.

(** The form is filled from the post; [(post.tags || []).join(', ')]. *)
Definition fillFormFromPost (post : Post.t) (d : Dom.t) : Dom.t :=
  let d1 := writeField authorName (or_else (Post.author post) []) d in
  let d2 := writeField postCategory (or_else (Post.category post) []) d1 in
  let d3 := writeField postTitle (or_else (Post.title post) []) d2 in
  let d4 := writeField postExcerpt (or_else (Post.excerpt post) []) d3 in
  let d5 := writeField postTags (join (str ", ") (Post.tags post)) d4 in
  match hasImage post with
  | Some src =>
      let d6 := showImagePreview src d5 in
      set_postImage (setRequired false <$> Dom.postImage d6) d6
  | None =>
      let d6 := hideImagePreview d5 in
      set_postImage (setRequired true <$> Dom.postImage d6) d6
  end.

(** [openEditModal(index)]: the index is stored before the post is looked
    up. *)
Definition openEditModal (index : Z) (s : State) : State :=
  let s1 := set_currentEditIndex (Some index) s in
  match postAt (posts s1) index with
  | None => s1
  | Some post => with_dom (fillFormFromPost post) (clearFormDraft s1)
  end.

Definition closeModals (s : State) : State :=
  set_currentEditIndex None
    (with_dom (fun d => set_postImage (setRequired true <$> Dom.postImage d) d)
       s).

(** ** Validation *)

Definition requiredFields : list FieldId :=
  [authorName; postCategory; postTitle; postExcerpt].

(** [input.labels?.[0]?.textContent || fieldId] *)
Definition labelOf (fieldId : FieldId) (input : Input) : jsstring :=
  match label input with
  | Some l => or_else l (fieldIdName fieldId)
  | None => fieldIdName fieldId
  end.

(** [if (errorDiv) errorDiv.textContent = msg] *)
Definition showError (msg : jsstring) (d : Dom.t) : Dom.t :=
  match Dom.formError d with
  | Some _ => set_formError (Some msg) d
  | None => d
  end.

(** The loop over the required fields: the message of the first field that
    is missing or blank, if there is one. *)
Fixpoint checkRequired (d : Dom.t) (fields : list FieldId) : option jsstring :=
  match fields with
  | [] => None
  | fieldId :: rest =>
      match getField d fieldId with
      | None => Some (str "Field " ++ fieldIdName fieldId ++ str " not found.")
      | Some input =>
          if negb (truthy (trim (value input)))
          then Some (labelOf fieldId input ++ str " is required.")
          else checkRequired d rest
      end
  end.

Definition allowedTypes : list jsstring :=
  [str "image/png"; str "image/jpeg"; str "image/jpg"].

Definition maxImageSize : Z := 5 * 1024 * 1024.

(** [validateImageFile(file)]: the message it shows when it rejects. *)
Definition validateImageFile (file : File) : option jsstring :=
  if negb (existsb (eqb (type file)) allowedTypes)
  then Some (str "Please upload PNG or JPG only.")
  else if maxImageSize <? size file
  then Some (str "Image must be less than 5MB.")
  else None.

(** [document.getElementById('postImage')?.files[0]] *)
Definition selectedFile (d : Dom.t) : option File :=
  Dom.postImage d ≫= files.

(** The image rules of [validateForm], which depend on the mode. *)
Definition checkImage (editing : bool) (d : Dom.t) : option jsstring :=
  match selectedFile d with
  | None => if editing then None else Some (str "Featured image is required.")
  | Some imageFile => validateImageFile imageFile
  end.

(** [validateForm]: the error text is cleared, then the first rule that
    fails writes its message and the function returns [false]. *)
Definition validateForm (s : State) : State * bool :=
  let d0 := showError [] (dom s) in
  match checkRequired d0 requiredFields with
  | Some msg => (set_dom (showError msg d0) s, false)
  | None =>
      match checkImage (bool_decide (currentEditIndex s ≠ None)) d0 with
      | Some msg => (set_dom (showError msg d0) s, false)
      | None => (set_dom d0 s, true)
      end
  end.

(** [validateForm] of part_000: the same, with one more check of the
    excerpt between the loop and the image rules. *)
Definition checkExcerpt (d : Dom.t) : option jsstring :=
  match Dom.postExcerpt d with
  | Some excerptField =>
      if negb (truthy (trim (value excerptField)))
      then Some (str "Post excerpt is required.")
      else None
  | None => None
  end.

Definition validateForm_fetch (s : State) : State * bool :=
  let d0 := showError [] (dom s) in
  match checkRequired d0 requiredFields with
  | Some msg => (set_dom (showError msg d0) s, false)
  | None =>
      match checkExcerpt d0 with
      | Some msg => (set_dom (showError msg d0) s, false)
      | None =>
          match checkImage (bool_decide (currentEditIndex s ≠ None)) d0 with
          | Some msg => (set_dom (showError msg d0) s, false)
          | None => (set_dom d0 s, true)
          end
      end
  end.

(** ** Post store *)

(** [new FormData(form)]: what [get] returns for each name the code asks
    for ([None] for a control that is not in the form). The controls are
    named as their ids. *)
Module FormData.
Record t : Type := {
  authorName : option jsstring;
  postCategory : option jsstring;
  postTitle : option jsstring;
  postExcerpt : option jsstring;
  postContent : option jsstring;
  postTags : option jsstring;
  postImage : option File
}.
End FormData.

(** The entry of a file control without a selection. *)
Definition emptyFile : File :=
  {| type := str "application/octet-stream"; size := 0 |}.

Definition formDataOf (d : Dom.t) : FormData.t :=
  {| FormData.authorName := value <$> Dom.authorName d;
     FormData.postCategory := value <$> Dom.postCategory d;
     FormData.postTitle := value <$> Dom.postTitle d;
     FormData.postExcerpt := value <$> Dom.postExcerpt d;
     FormData.postContent := value <$> Dom.postContent d;
     FormData.postTags := value <$> Dom.postTags d;
     FormData.postImage :=
       (fun i => default emptyFile (files i)) <$> Dom.postImage d |}.

(** [v?.trim() || ''] *)
Definition trimmedOrEmpty (v : option jsstring) : jsstring :=
  match v with
  | Some x => or_else (trim x) []
  | None => []
  end.

(** [v || ''] *)
Definition valueOrEmpty (v : option jsstring) : jsstring :=
  match v with
  | Some x => or_else x []
  | None => []
  end.

Definition createPostData (formData : FormData.t) (image : option jsstring)
    (now : Z) : Post.t :=
  {| Post.author := trimmedOrEmpty (FormData.authorName formData);
     Post.category := valueOrEmpty (FormData.postCategory formData);
     Post.title := trimmedOrEmpty (FormData.postTitle formData);
     Post.image := image;
     Post.excerpt := trimmedOrEmpty (FormData.postExcerpt formData);
     Post.content :=
       or_else (trimmedOrEmpty (FormData.postContent formData))
               (trimmedOrEmpty (FormData.postExcerpt formData));
     Post.tags :=
       List.filter truthy
         (List.map trim
            (split comma (valueOrEmpty (FormData.postTags formData))));
     Post.date := now;
     Post.views := 0;
     Post.dateEdited := None;
     Post.imageAttribution := None |}.

(** [postData.imageAttribution = a] and [postData.image = src] *)
Definition set_imageAttribution (a : Attribution) (p : Post.t) : Post.t :=
  {| Post.author := Post.author p; Post.category := Post.category p;
     Post.title := Post.title p; Post.image := Post.image p;
     Post.excerpt := Post.excerpt p; Post.content := Post.content p;
     Post.tags := Post.tags p; Post.date := Post.date p;
     Post.views := Post.views p; Post.dateEdited := Post.dateEdited p;
     Post.imageAttribution := Some a |}.

Definition set_image (src : jsstring) (p : Post.t) : Post.t :=
  {| Post.author := Post.author p; Post.category := Post.category p;
     Post.title := Post.title p; Post.image := Some src;
     Post.excerpt := Post.excerpt p; Post.content := Post.content p;
     Post.tags := Post.tags p; Post.date := Post.date p;
     Post.views := Post.views p; Post.dateEdited := Post.dateEdited p;
     Post.imageAttribution := Post.imageAttribution p |}.

Definition set_views (v : Z) (p : Post.t) : Post.t :=
  {| Post.author := Post.author p; Post.category := Post.category p;
     Post.title := Post.title p; Post.image := Post.image p;
     Post.excerpt := Post.excerpt p; Post.content := Post.content p;
     Post.tags := Post.tags p; Post.date := Post.date p;
     Post.views := v; Post.dateEdited := Post.dateEdited p;
     Post.imageAttribution := Post.imageAttribution p |}.

(** [createPost(postData)]: the attribution is consumed, the post goes to
    the front, the draft is cleared. The call to the REST collaborator has no
    effect on the manager. *)
Definition createPost (postData : Post.t) (s : State) : State :=
  let '(postData1, s1) :=
    match selectedImageAttribution s with
    | Some a =>
        (set_imageAttribution a postData, set_selectedImageAttribution None s)
    | None => (postData, s)
    end in
  clearFormDraft (set_posts (postData1 :: posts s1) s1).

(** [n || 0] on a number. *)
Definition orZero (n : Z) : Z := if n =? 0 then 0 else n.

(** [{...existingPost, ...postData, views: existingPost.views || 0,
      dateEdited: now}]: every own property of [postData] wins; the
    properties [postData] does not own are kept from [existingPost]. *)
Definition mergePost (existingPost postData : Post.t) (now : Z) : Post.t :=
  {| Post.author := Post.author postData;
     Post.category := Post.category postData;
     Post.title := Post.title postData;
     Post.image := Post.image postData;
     Post.excerpt := Post.excerpt postData;
     Post.content := Post.content postData;
     Post.tags := Post.tags postData;
     Post.date := Post.date postData;
     Post.views := orZero (Post.views existingPost);
     Post.dateEdited := Some now;
     Post.imageAttribution :=
       match Post.imageAttribution postData with
       | Some a => Some a
       | None => Post.imageAttribution existingPost
       end |}.

Definition updatePost (index : Z) (postData : Post.t) (now : Z) (s : State)
  : State :=
  match postAt (posts s) index with
  | None => s
  | Some existingPost =>
      set_posts (<[Z.to_nat index := mergePost existingPost postData now]>
                   (posts s)) s
  end.

(** [deletePost(index)]; [confirmed] is the answer given to [confirm]. *)
Definition deletePost (index : Z) (confirmed : bool) (s : State) : State :=
  match postAt (posts s) index with
  | None => s
  | Some _ =>
      if confirmed then set_posts (delete (Z.to_nat index) (posts s)) s
      else s
  end.

(** [openPostDetail(element, 'user')] for an article whose [data-id] is
    [postId]. The method returns nothing ([undefined]): what it leaves is the
    state and the text of the article's [.view-count] element, which it
    writes under [if (viewCountElement)]. The second component is that
    effect, from the number the element shows before the call to the number
    it shows after; [None] stands for an article without the element. *)
Definition openPostDetail (postId : Z) (s : State)
  : State * (option Z -> option Z) :=
  match postAt (posts s) postId with
  | None => (s, fun viewCountElement => viewCountElement)
  | Some post =>
      let newViews := orZero (Post.views post) + 1 in
      (set_posts (<[Z.to_nat postId := set_views newViews post]> (posts s)) s,
       fun viewCountElement => (fun _ => newViews) <$> viewCountElement)
  end.

(** ** Submit *)

(** A read started by [reader.readAsDataURL(imageFile)]; its [onload]
    handler closes over the form data. *)
Record PendingRead : Type := {
  readFormData : FormData.t;
  readFile : File
}.

(** [imageFile && imageFile.size > 0] *)
Definition nonEmptyImage (formData : FormData.t) : option File :=
  match FormData.postImage formData with
  | Some imageFile => if 0 <? size imageFile then Some imageFile else None
  | None => None
  end.

(** [handleSubmit(e)]; [tData] is the clock read by [createPostData] and
    [tEdit] the one read by [updatePost]. The second component is the read
    that was started, if one was. *)
Definition handleSubmit (tData tEdit : Z) (s : State)
  : State * option PendingRead :=
  let '(s1, valid) := validateForm s in
  if negb valid then (s1, None)
  else
    let formData := formDataOf (dom s1) in
    match nonEmptyImage formData with
    | Some imageFile =>
        (s1, Some {| readFormData := formData; readFile := imageFile |})
    | None =>
        match currentEditIndex s1 with
        | Some index =>
            let postData := createPostData formData None tData in
            let postData1 :=
              match postAt (posts s1) index ≫= hasImage with
              | Some src => set_image src postData
              | None => postData
              end in
            (closeModals (updatePost index postData1 tEdit s1), None)
        | None =>
            (with_dom (showError (str "Please select an image file.")) s1,
             None)
        end
    end.

(** [reader.onload]: [result] is the data URL that was read. The mode is
    looked up when the handler runs. *)
Definition reader_onload (formData : FormData.t) (result : jsstring)
    (tData tEdit : Z) (s : State) : State :=
  let postData := createPostData formData (Some result) tData in
  closeModals
    match currentEditIndex s with
    | Some index => updatePost index postData tEdit s
    | None => createPost postData s
    end.

Definition reader_onerror (s : State) : State :=
  with_dom (showError (str "Error reading image file.")) s.

(** The manager as its constructor leaves it, in a given document and
    session storage. *)
Definition initial (d : Dom.t) (st : option Storage) : State :=
  {| posts := []; formDraft := None; currentEditIndex := None;
     selectedImageAttribution := None; dom := d; sessionStorage := st |}.

(** ** Events *)

(** The two files differ, for the session logic, in [saveFormDraft] and in
    [validateForm] only; the two [validateForm] agree on every input (see
    [validateForm_fetch_eq]), so one [handleSubmit] stands for both. *)
Inductive Variant : Type :=
| JQuery   (* blog.js *)
| Fetch.   (* part_000 *)

Definition saveFormDraftOf (v : Variant) : Z -> State -> State :=
  match v with
  | JQuery => saveFormDraft
  | Fetch => saveFormDraft_fetch
  end.

(** What can happen to the manager: a user action or a callback. A read
    completes some time after the submit that started it, so its handlers
    are events of their own, free to occur at any time and with any form
    data: the runs of the model include those of the code. *)
Inductive Event : Type :=
| EvOpenCreateModal (now : Z)
| EvOpenEditModal (index : Z)
| EvCloseModals
| EvInput (f : FieldId) (v : jsstring)
| EvChooseFile (file : File)
| EvPreviewLoaded (result : jsstring)
| EvRemoveImage
| EvAutosave (now : Z)
| EvSubmit (tData tEdit : Z)
| EvReaderLoad (formData : FormData.t) (result : jsstring) (tData tEdit : Z)
| EvReaderError
| EvDeletePost (index : Z) (confirmed : bool)
| EvOpenPostDetail (postId : Z)
| EvClearFormAndDraft (confirmed : bool).

(** The timer and blur callbacks of [setupFormAutoSave]:
    [if (this.currentEditIndex === null) this.saveFormDraft()] *)
Definition autosaveFire (v : Variant) (now : Z) (s : State) : State :=
  match currentEditIndex s with
  | None => saveFormDraftOf v now s
  | Some _ => s
  end.

(** [handleImageUpload]: a rejected file is dropped from the control. *)
Definition handleImageUpload (file : File) (s : State) : State :=
  let d := set_postImage
             ((fun i => {| files := Some file; required := required i |})
                <$> Dom.postImage (dom s)) (dom s) in
  match validateImageFile file with
  | Some msg =>
      set_dom (set_postImage (clearFiles <$> Dom.postImage d) (showError msg d))
        s
  | None => set_dom d s
  end.

Definition removeImage (s : State) : State :=
  set_selectedImageAttribution None (with_dom hideImagePreview s).

Definition clearFormAndDraft (confirmed : bool) (s : State) : State :=
  if confirmed
  then set_selectedImageAttribution None
         (clearFormDraft
            (with_dom (fun d => hideImagePreview (formReset d)) s))
  else s.

Definition step (v : Variant) (e : Event) (s : State) : State :=
  match e with
  | EvOpenCreateModal now => openCreateModal now s
  | EvOpenEditModal index => openEditModal index s
  | EvCloseModals => closeModals s
  | EvInput f x => with_dom (writeField f x) s
  | EvChooseFile file => handleImageUpload file s
  | EvPreviewLoaded result => with_dom (showImagePreview result) s
  | EvRemoveImage => removeImage s
  | EvAutosave now => autosaveFire v now s
  | EvSubmit tData tEdit => fst (handleSubmit tData tEdit s)
  | EvReaderLoad formData result tData tEdit =>
      reader_onload formData result tData tEdit s
  | EvReaderError => reader_onerror s
  | EvDeletePost index confirmed => deletePost index confirmed s
  | EvOpenPostDetail postId => fst (openPostDetail postId s)
  | EvClearFormAndDraft confirmed => clearFormAndDraft confirmed s
  end.

Definition run (v : Variant) (events : list Event) (s : State) : State :=
  foldl (fun st e => step v e st) s events.

(** The draft store holds a draft: in memory or in the session copy. *)
Definition holdsDraft (s : State) : Prop :=
  formDraft s ≠ None ∨ (sessionStorage s ≫= blogFormDraft) ≠ None.

(** A draft exists only in create mode. *)
Definition draftOnlyInCreate (s : State) : Prop :=
  holdsDraft s → currentEditIndex s = None.

(** The condition under which an event keeps the draft out of edit mode:
    an edit is opened on a position that holds a post. *)
Definition editsLivePost (e : Event) (s : State) : Prop :=
  match e with
  | EvOpenEditModal index => postAt (posts s) index ≠ None
  | _ => True
  end.

(** ** Operations of the post store *)

(** The four ways the manager changes [posts]: a publish
    ([createPost(createPostData(...))]), an update through the form
    ([updatePost(index, createPostData(...))], the old image kept when no new
    one is given), a delete and a view. *)
Inductive Op : Type :=
| OpCreate (formData : FormData.t) (image : jsstring) (now : Z)
| OpUpdate (index : Z) (formData : FormData.t) (image : option jsstring)
    (tData tEdit : Z)
| OpDelete (index : Z) (confirmed : bool)
| OpView (postId : Z).

(** The post data of an update, as the two branches of [handleSubmit]
    build it. *)
Definition updateData (index : Z) (formData : FormData.t)
    (image : option jsstring) (tData : Z) (s : State) : Post.t :=
  match image with
  | Some result => createPostData formData (Some result) tData
  | None =>
      let postData := createPostData formData None tData in
      match postAt (posts s) index ≫= hasImage with
      | Some src => set_image src postData
      | None => postData
      end
  end.

Definition applyOp (op : Op) (s : State) : State :=
  match op with
  | OpCreate formData image now =>
      createPost (createPostData formData (Some image) now) s
  | OpUpdate index formData image tData tEdit =>
      updatePost index (updateData index formData image tData s) tEdit s
  | OpDelete index confirmed => deletePost index confirmed s
  | OpView postId => fst (openPostDetail postId s)
  end.

Definition runOps (ops : list Op) (s : State) : State :=
  foldl (fun st op => applyOp op st) s ops.

(** Where the post at position [i] is after an operation ([None] when it
    was deleted). *)
Definition trackOp (op : Op) (s : State) (i : Z) : option Z :=
  match op with
  | OpCreate _ _ _ => Some (i + 1)
  | OpDelete index true =>
      match postAt (posts s) index with
      | Some _ =>
          if i <? index then Some i
          else if i =? index then None
          else Some (i - 1)
      | None => Some i
      end
  | _ => Some i
  end.

Fixpoint track (ops : list Op) (s : State) (i : Z) : option Z :=
  match ops with
  | [] => Some i
  | op :: rest =>
      match trackOp op s i with
      | Some j => track rest (applyOp op s) j
      | None => None
      end
  end.

(** ** Sorting the rendered posts *)

(** What [handleSort] takes from the host: the collation order of
    [String.prototype.localeCompare], the time value of [new Date(text)]
    ([None] for an invalid date, whose time value is NaN) and
    [Date.prototype.toISOString]. *)
Class Host : Type := {
  localeCompare : jsstring -> jsstring -> Z;
  Date_parse : jsstring -> option Z;
  toISOString : Z -> jsstring
}.

(** An [article] of one of the two containers: its [data-date], the text of
    its [h3] and the text of its [.post-date]. *)
Record PostElem : Type := {
  dataset_date : option jsstring;
  h3 : option jsstring;
  post_date : option jsstring
}.

Record Containers : Type := {
  userPostsContainer : option (list PostElem);
  defaultPostsContainer : option (list PostElem)
}.

Definition months : list (jsstring * jsstring) :=
  [ (str "Jan", str "01"); (str "Feb", str "02"); (str "Mar", str "03");
    (str "Apr", str "04"); (str "May", str "05"); (str "Jun", str "06");
    (str "Jul", str "07"); (str "Aug", str "08"); (str "Sep", str "09");
    (str "Oct", str "10"); (str "Nov", str "11"); (str "Dec", str "12") ].

(** [months[name]], on the table's own keys. *)
Fixpoint monthNumber (table : list (jsstring * jsstring)) (name : jsstring)
  : option jsstring :=
  match table with
  | [] => None
  | (k, v) :: rest => if eqb k name then Some v else monthNumber rest name
  end.

Definition convertDateTextToISO `{Host} (now : Z) (dateText : jsstring)
  : jsstring :=
  match split space (removeFirst comma dateText) with
  | [m; d; year] =>
      match monthNumber months m with
      | Some month =>
          year ++ str "-" ++ month ++ str "-" ++ padStart 2 48 d
               ++ str "T00:00:00.000Z"
      | None => toISOString now
      end
  | _ => toISOString now
  end.

(** [v] is truthy, for an attribute or a text that may be missing. *)
Definition present (v : option jsstring) : option jsstring :=
  match v with
  | Some x => if truthy x then Some x else None
  | None => None
  end.

(** A default post without a [data-date] gets one from its date text. *)
Definition fillDate `{Host} (now : Z) (post : PostElem) : PostElem :=
  match present (dataset_date post), present (post_date post) with
  | None, Some dateText =>
      {| dataset_date := Some (convertDateTextToISO now dateText);
         h3 := h3 post; post_date := post_date post |}
  | _, _ => post
  end.

(** The time value of [new Date(a.dataset.date || 0)]. *)
Definition timeOf `{Host} (a : PostElem) : option Z :=
  match present (dataset_date a) with
  | Some text => Date_parse text
  | None => Some 0
  end.

(** Subtraction of two dates; NaN when either is invalid. *)
Definition dateMinus (a b : option Z) : option Z :=
  match a, b with
  | Some x, Some y => Some (x - y)
  | _, _ => None
  end.

(** [a.querySelector('h3')?.textContent || ''] *)
Definition titleOf (a : PostElem) : jsstring :=
  match h3 a with
  | Some x => or_else x []
  | None => []
  end.

(** The comparison function given to [sort], by the [switch] on the sort
    value. *)
Definition compareFn `{Host} (sortValue : jsstring) (a b : PostElem)
  : option Z :=
  if eqb sortValue (str "newest") then dateMinus (timeOf b) (timeOf a)
  else if eqb sortValue (str "oldest") then dateMinus (timeOf a) (timeOf b)
  else if eqb sortValue (str "title")
       then Some (localeCompare (titleOf a) (titleOf b))
  else Some 0.

(** [Array.prototype.sort] reads a NaN from the comparison as [+0]. *)
Definition sortCompare `{Host} (sortValue : jsstring) (a b : PostElem) : Z :=
  default 0 (compareFn sortValue a b).

(** [Array.prototype.sort]. ECMA-262 requires the sort to be stable and,
    for a consistent comparison function, fixes the result: the elements in
    ascending order, equal ones in their original order. That result is
    computed here by insertion from the right. *)
Fixpoint insertSorted {A : Type} (cmp : A -> A -> Z) (x : A) (l : list A)
  : list A :=
  match l with
  | [] => [x]
  | y :: l' => if cmp x y <=? 0 then x :: l else y :: insertSorted cmp x l'
  end.

Definition Array_sort {A : Type} (cmp : A -> A -> Z) (l : list A) : list A :=
  foldr (insertSorted cmp) [] l.

(** [handleSort]: [clock k] is the clock as the [k]-th default post reads
    it. *)
Definition handleSort `{Host} (clock : nat -> Z) (sortValue : jsstring)
    (c : Containers) : Containers :=
  match userPostsContainer c, defaultPostsContainer c with
  | Some userPosts, Some defaultPosts =>
      let allPosts :=
        userPosts ++ imap (fun k => fillDate (clock k)) defaultPosts in
      if bool_decide (length allPosts = 0%nat) then c
      else
        {| userPostsContainer := Some [];
           defaultPostsContainer :=
             Some (Array_sort (sortCompare sortValue) allPosts) |}
  | _, _ => c
  end.

(** A comparison function that is consistent on the elements satisfying
    [P]: the order it induces is total and transitive there. *)
Record ConsistentOn {A : Type} (P : A -> Prop) (cmp : A -> A -> Z) : Prop := {
  cmp_flip : ∀ a b, P a → P b → (0 < cmp a b ↔ cmp b a < 0);
  cmp_trans : ∀ a b c, P a → P b → P c →
    cmp a b <= 0 → cmp b c <= 0 → cmp a c <= 0
}.

(** A collation order as ECMA-402 describes it. *)
Definition Collation (cmp : jsstring -> jsstring -> Z) : Prop :=
  ConsistentOn (fun _ => True) cmp.

(** Comparison by code units, an instance of a collation order. *)
Fixpoint compareCodeUnits (a b : jsstring) : Z :=
  match a, b with
  | [], [] => 0
  | [], _ :: _ => -1
  | _ :: _, [] => 1
  | x :: a', y :: b' =>
      match (x ?= y)%N with
      | Lt => -1
      | Gt => 1
      | Eq => compareCodeUnits a' b'
      end
  end.

(** Date strings that are decimal millisecond counts. *)
Fixpoint parseDigits (acc : Z) (s : jsstring) : option Z :=
  match s with
  | [] => Some acc
  | c :: s' =>
      if ((48 <=? c) && (c <=? 57))%N
      then parseDigits (10 * acc + (Z.of_N c - 48)) s'
      else None
  end.

Definition simpleHost : Host :=
  {| localeCompare := compareCodeUnits;
     Date_parse := fun s => if truthy s then parseDigits 0 s else None;
     toISOString := fun _ => str "0" |}.

(** The draft that [loadFormDraft] will look at: the session copy when there
    is one, the copy in memory otherwise. *)
Definition pendingDraft (s : State) : option Draft.t :=
  match sessionStorage s ≫= blogFormDraft with
  | Some formData => Some formData
  | None => formDraft s
  end.

(** Every edit that a sequence of events opens is opened on a live post. *)
Fixpoint editsLivePosts (v : Variant) (events : list Event) (s : State)
  : Prop :=
  match events with
  | [] => True
  | e :: rest => editsLivePost e s ∧ editsLivePosts v rest (step v e s)
  end.

(** A required field passes its check: the control exists and its value is
    not blank. *)
Definition fieldOk (d : Dom.t) (f : FieldId) : Prop :=
  ∃ input, getField d f = Some input ∧ trim (value input) ≠ [].

(** The message that the check of a required field writes when it fails. *)
Definition requiredMessage (d : Dom.t) (f : FieldId) : jsstring :=
  match getField d f with
  | Some input => labelOf f input ++ str " is required."
  | None => str "Field " ++ fieldIdName f ++ str " not found."
  end.

(** The fields that [setupFormAutoSave] tracks. *)
Definition trackedFields : list FieldId :=
  [authorName; postCategory; postTitle; postExcerpt; postTags].

(** In the words of the specification: at least one tracked field is
    non-empty after trimming whitespace. *)
Definition someFieldNonBlank (d : Dom.t) : Prop :=
  ∃ f, f ∈ trackedFields ∧ trim (fieldValue d f) ≠ [].

(** The reading of an update under which, of the previous post, only the
    views and the image reach the stored post: two stores that agree on them
    at the updated position get the same post from the same update. *)
Definition updateKeepsOnlyViewsAndImage : Prop :=
  ∀ (s1 s2 : State) (index : Z) (p1 p2 : Post.t) formData image tData tEdit,
    postAt (posts s1) index = Some p1 →
    postAt (posts s2) index = Some p2 →
    Post.views p1 = Post.views p2 →
    Post.image p1 = Post.image p2 →
    postAt (posts (applyOp (OpUpdate index formData image tData tEdit) s1))
      index
    = postAt (posts (applyOp (OpUpdate index formData image tData tEdit) s2))
        index.

(** The date of an article is valid. *)
Definition validDate `{Host} (a : PostElem) : Prop := is_Some (timeOf a).

(** Ascending by timestamp, and ascending by title in the collation
    order. *)
Definition olderOrSame `{Host} (a b : PostElem) : Prop :=
  ∃ ta tb, timeOf a = Some ta ∧ timeOf b = Some tb ∧ ta <= tb.

Definition titleBeforeOrSame `{Host} (a b : PostElem) : Prop :=
  localeCompare (titleOf a) (titleOf b) <= 0.

(** The articles that [handleSort] sorts: those of the user container, then
    those of the default container with their dates filled in. *)
Definition allPostsOf `{Host} (clock : nat -> Z)
    (userPosts defaultPosts : list PostElem) : list PostElem :=
  userPosts ++ imap (fun k => fillDate (clock k)) defaultPosts.

(** An article as [renderPosts] writes it for a post. *)
Definition article (date title : jsstring) : PostElem :=
  {| dataset_date := Some date; h3 := Some title; post_date := None |}.

(** ** Other helpers of the manager *)

(** What the remaining functions take from the host: the case mappings of
    [String.prototype.toLowerCase] and [toUpperCase]. *)
Class TextHost : Type := {
  toLowerCase : jsstring -> jsstring;
  toUpperCase : jsstring -> jsstring
}.

(** [calculateReadTime(content)]:
    [Math.max(1, Math.ceil(content.split(' ').length / 200))], and 1 for an
    empty content. For a count [n] of parts the ceiling of [n / 200] is
    [(n + 199) / 200] in integers. *)
Definition calculateReadTime (content : jsstring) : Z :=
  if negb (truthy content) then 1
  else Z.max 1 ((Z.of_nat (length (split space content)) + 199) / 200).

(** [text.split(/\s+/)]: the text is cut at every maximal run of white
    space; [\s] matches the code units that [trim] removes. [afterSeparator]
    tells that the unit before was white space. *)
Fixpoint splitWhiteSpace (afterSeparator : bool) (cur s : jsstring)
  : list jsstring :=
  match s with
  | [] => [rev cur]
  | c :: s' =>
      if isWhiteSpace c
      then (if afterSeparator then splitWhiteSpace true [] s'
            else rev cur :: splitWhiteSpace true [] s')
      else splitWhiteSpace false (c :: cur) s'
  end.

(** [updateWordCount(e)]: the number shown in the counter for the value of
    the excerpt. *)
Definition wordCount (value : jsstring) : nat :=
  let text := trim value in
  let words :=
    if bool_decide (0 < length text)%nat
    then List.filter (fun word => bool_decide (0 < length word)%nat)
           (splitWhiteSpace false [] text)
    else [] in
  length words.

(** The words of a text, read from left to right: the maximal runs of
    units that are not white space. *)
Fixpoint wordsFrom (cur s : jsstring) : list jsstring :=
  match s with
  | [] => match cur with [] => [] | _ :: _ => [rev cur] end
  | c :: s' =>
      if isWhiteSpace c
      then match cur with
           | [] => wordsFrom [] s'
           | _ :: _ => rev cur :: wordsFrom [] s'
           end
      else wordsFrom (c :: cur) s'
  end.

Definition wordsOf (s : jsstring) : list jsstring := wordsFrom [] s.

(** ** Search and filter over the rendered posts *)

(** An [article.blog-post] as [handleSearch] and [handleFilter] see it: the
    texts of its [h3], of its [.post-excerpt] and of the first [span] of its
    [.post-meta], its [data-category] and its [style.display]. *)
Record BlogPost : Type := {
  bp_title : option jsstring;
  bp_excerpt : option jsstring;
  bp_meta : option jsstring;
  bp_category : option jsstring;
  bp_display : jsstring
}.

Definition setDisplay (shown : bool) (post : BlogPost) : BlogPost :=
  {| bp_title := bp_title post; bp_excerpt := bp_excerpt post;
     bp_meta := bp_meta post; bp_category := bp_category post;
     bp_display := if shown then str "block" else str "none" |}.

(** [el?.textContent.toLowerCase() || ''] *)
Definition lowerText `{TextHost} (text : option jsstring) : jsstring :=
  match text with
  | Some x => or_else (toLowerCase x) []
  | None => []
  end.

Definition matchesSearch `{TextHost} (searchTerm : jsstring) (post : BlogPost)
  : bool :=
  includes (lowerText (bp_title post)) searchTerm
  || includes (lowerText (bp_excerpt post)) searchTerm
  || includes (lowerText (bp_meta post)) searchTerm.

(** [handleSearch(e)] on the value of the search box. *)
Definition handleSearch `{TextHost} (value : jsstring) (blogPosts : list BlogPost)
  : list BlogPost :=
  let searchTerm := toLowerCase value in
  List.map (fun post => setDisplay (matchesSearch searchTerm post) post)
    blogPosts.

(** [handleFilter(e)] on the [data-filter] of the button ([None] when the
    button has none; a post without a category then matches it, both being
    [undefined]). *)
Definition matchesFilter (filterValue : option jsstring) (post : BlogPost)
  : bool :=
  bool_decide (filterValue = Some (str "all"))
  || bool_decide (bp_category post = filterValue).

Definition handleFilter (filterValue : option jsstring)
    (blogPosts : list BlogPost) : list BlogPost :=
  List.map (fun post => setDisplay (matchesFilter filterValue post) post)
    blogPosts.

(** ** View counters of the default posts *)

(** [`${type}_${postId}_views`] *)
Definition viewKey (type postId : jsstring) : jsstring :=
  type ++ str "_" ++ postId ++ str "_views".

(** [openPostDetail(element, type)] for a type other than ['user']:
    [this.viewCounts], an object used as a map from keys to numbers, after
    the call, and the number written into the view counter.
    [parseInt(this.viewCounts[viewKey] || '0')] is the number stored, 0 when
    there is none. *)
Definition openDefaultPostDetail (type postId : jsstring)
    (viewCounts : gmap jsstring Z) : gmap jsstring Z * Z :=
  let viewKey := viewKey type postId in
  let currentViews := orZero (default 0 (viewCounts !! viewKey)) in
  let newViews := currentViews + 1 in
  (<[viewKey := newViews]> viewCounts, newViews).

(** [loadStoredData()]: the number shown for the default post [postId]. *)
Definition storedViews (postId : jsstring) (viewCounts : gmap jsstring Z) : Z :=
  orZero (default 0 (viewCounts !! viewKey (str "default") postId)).

(** ** Image search *)

(** The stop words and the query built from a title by
    [optimizeSearchQuery]. *)
Definition stopWords : list jsstring :=
  List.map str
    ["the"; "a"; "an"; "and"; "or"; "but"; "in"; "on"; "at"; "to"; "for";
     "of"; "with"; "by"; "my"; "your"]%string.

Definition isStopWord (word : jsstring) : bool := existsb (eqb word) stopWords.

Definition optimizeSearchQuery `{TextHost} (title : jsstring) : jsstring :=
  let words := split space (toLowerCase title) in
  let filteredWords := List.filter (fun word => negb (isStopWord word)) words in
  let filteredWords1 :=
    if negb (includes (toLowerCase title) (str "malaysia"))
       && negb (includes (toLowerCase title) (str "malaysian"))
    then filteredWords ++ [str "malaysia"]
    else filteredWords in
  join (str " ") (filteredWords1 ++ [str "travel"]).

(** A photo of the API's answer and the image object built from it. *)
Module Photo.
Record t : Type := {
  id : jsstring;
  urls_regular : jsstring;
  urls_thumb : jsstring;
  alt_description : option jsstring;
  user_name : jsstring;
  user_links_html : jsstring;
  links_download_location : jsstring;
  links_html : jsstring
}.
End Photo.

Module Image.
Record t : Type := {
  id : jsstring;
  url : jsstring;
  thumb : jsstring;
  alt : jsstring;
  photographer : jsstring;
  photographerUrl : jsstring;
  downloadUrl : jsstring;
  unsplashUrl : jsstring
}.
End Image.

Definition imageOfPhoto (query : jsstring) (photo : Photo.t) : Image.t :=
  {| Image.id := Photo.id photo;
     Image.url := Photo.urls_regular photo;
     Image.thumb := Photo.urls_thumb photo;
     Image.alt :=
       match Photo.alt_description photo with
       | Some text => or_else text query
       | None => query
       end;
     Image.photographer := Photo.user_name photo;
     Image.photographerUrl := Photo.user_links_html photo;
     Image.downloadUrl := Photo.links_download_location photo;
     Image.unsplashUrl := Photo.links_html photo |}.

(** What the request comes back with: an error of the transport, an answer
    that does not have the expected shape (reading it throws), or the list
    of photos. *)
Inductive Response : Type :=
| RequestFailed
| Malformed
| Results (photos : list Photo.t).

(** The decimal digits of a count, as the template literal prints it. *)
Fixpoint digitCodes (d : Decimal.uint) : jsstring :=
  match d with
  | Decimal.Nil => []
  | Decimal.D0 d' => 48%N :: digitCodes d'
  | Decimal.D1 d' => 49%N :: digitCodes d'
  | Decimal.D2 d' => 50%N :: digitCodes d'
  | Decimal.D3 d' => 51%N :: digitCodes d'
  | Decimal.D4 d' => 52%N :: digitCodes d'
  | Decimal.D5 d' => 53%N :: digitCodes d'
  | Decimal.D6 d' => 54%N :: digitCodes d'
  | Decimal.D7 d' => 55%N :: digitCodes d'
  | Decimal.D8 d' => 56%N :: digitCodes d'
  | Decimal.D9 d' => 57%N :: digitCodes d'
  end.

Definition numberToString (n : N) : jsstring := digitCodes (N.to_uint n).

(** [`${query}_${count}`] *)
Definition cacheKey (query : jsstring) (count : N) : jsstring :=
  query ++ str "_" ++ numberToString count.

(** [searchImages(query, count)]: the images the promise resolves with, the
    cache afterwards and whether a request was sent. [response] is what the
    request comes back with, if one is sent. *)
Definition searchImages (query : jsstring) (count : N) (response : Response)
    (cache : gmap jsstring (list Image.t))
  : list Image.t * gmap jsstring (list Image.t) * bool :=
  let cacheKey := cacheKey query count in
  match cache !! cacheKey with
  | Some images => (images, cache, false)
  | None =>
      match response with
      | Results photos =>
          let images := List.map (imageOfPhoto query) photos in
          (images, <[cacheKey := images]> cache, true)
      | Malformed => ([], cache, true)
      | RequestFailed => ([], cache, true)
      end
  end.

(** ** Predicates used by the properties *)

(** The copy of the draft in the session is the one in memory, whenever
    there is one in memory and the storage takes writes. *)
Definition memoryMirrorsSession (s : State) : Prop :=
  ∀ st, sessionStorage s = Some st → quotaExceeded st = false →
        formDraft s ≠ None → blogFormDraft st = formDraft s.

(** The events whose handlers write to [this.posts]. *)
Definition touchesPosts (e : Event) : bool :=
  match e with
  | EvSubmit _ _ | EvReaderLoad _ _ _ _ | EvDeletePost _ _
  | EvOpenPostDetail _ => true
  | _ => false
  end.

(** The number of publishes in a sequence of operations, and the number of
    deletes that take a post out: those confirmed on a position that holds a
    post when they run. *)
Definition publishes (ops : list Op) : nat :=
  length (List.filter (fun op => match op with OpCreate _ _ _ => true
                                           | _ => false end) ops).

Fixpoint removals (ops : list Op) (s : State) : nat :=
  match ops with
  | [] => 0%nat
  | op :: rest =>
      (match op with
       | OpDelete index true =>
           match postAt (posts s) index with
           | Some _ => 1%nat
           | None => 0%nat
           end
       | _ => 0%nat
       end + removals rest (applyOp op s))%nat
  end.

(** A tag as [createPostData] stores it. *)
Definition cleanTag (tag : jsstring) : Prop :=
  tag ≠ [] ∧ trim tag = tag ∧ comma ∉ tag.

(** A post whose text went through [createPostData] and [validateForm]: the
    author, the title and the excerpt are trimmed and not empty, the category
    is not blank, the tags are clean and the image is not the empty
    string. *)
Record editable (p : Post.t) : Prop := {
  editable_author : trim (Post.author p) = Post.author p ∧ Post.author p ≠ [];
  editable_category : trim (Post.category p) ≠ [];
  editable_title : trim (Post.title p) = Post.title p ∧ Post.title p ≠ [];
  editable_excerpt :
    trim (Post.excerpt p) = Post.excerpt p ∧ Post.excerpt p ≠ [];
  editable_tags : Forall cleanTag (Post.tags p);
  editable_image : Post.image p ≠ Some []
}.

(** The value that [openEditModal] writes into a control. *)
Definition postValue (p : Post.t) (f : FieldId) : jsstring :=
  match f with
  | authorName => Post.author p
  | postCategory => Post.category p
  | postTitle => Post.title p
  | postExcerpt => Post.excerpt p
  | postTags => join (str ", ") (Post.tags p)
  end.

(** A sequence of autosave fires, at the given times. *)
Definition autosaves (times : list Z) : list Event :=
  List.map EvAutosave times.

(** The text of a date as the page shows it: the month's abbreviation, the
    day, a comma and the year. *)
Definition dateText (month day year : jsstring) : jsstring :=
  month ++ str " " ++ day ++ str ", " ++ year.

(** The view counters after the default posts with the given ids were
    opened one after the other, all with the same type. *)
Definition openDefaultPosts (type : jsstring) (postIds : list jsstring)
    (viewCounts : gmap jsstring Z) : gmap jsstring Z :=
  foldl (fun counts postId => fst (openDefaultPostDetail type postId counts))
    viewCounts postIds.

(** The cache after a sequence of searches, each with the answer that its
    request would get. *)
Definition searchAll (searches : list (jsstring * N * Response))
    (cache : gmap jsstring (list Image.t)) : gmap jsstring (list Image.t) :=
  foldl (fun cache '(query, count, response) =>
           snd (fst (searchImages query count response cache)))
    cache searches.

(** Descending by timestamp. *)
Definition newerOrSame `{Host} (a b : PostElem) : Prop := olderOrSame b a.

(** The sort values that [handleSort] knows. *)
Definition sortValues : list jsstring :=
  [str "newest"; str "oldest"; str "title"].

(** What happens while the editor is open on a post: values are typed and
    autosave timers fire. *)
Definition whileEditing (e : Event) : bool :=
  match e with
  | EvInput _ _ | EvAutosave _ => true
  | _ => false
  end.

(** Every control of the form is in the page and has an empty default
    value. *)
Definition emptyDefaults (d : Dom.t) : Prop :=
  ∀ f, ∃ input, getField d f = Some input ∧ defaultValue input = [].

(** The editor is open on [index], with no draft anywhere. *)
Definition editorOpen (index : Z) (s : State) : Prop :=
  currentEditIndex s = Some index ∧ pendingDraft s = None ∧
  emptyDefaults (dom s).


(** What [loadFormDraft] leaves in the controls when it restores a draft:
    a control of the page whose saved value is not empty holds that value;
    a control whose saved value is empty, and what stands for a control
    missing from the page, is as before. *)
Definition restoredFields (formData : Draft.t) (d d' : Dom.t) : Prop :=
  ∀ f,
    (draftValue formData f ≠ [] → getField d f ≠ None →
     fieldValue d' f = draftValue formData f) ∧
    (draftValue formData f = [] ∨ getField d f = None →
     fieldValue d' f = fieldValue d f).

(** The restore half of the claim as it is written: a draft loaded 6 days
    after it was saved is reported as restored and every control holds the
    value saved for it, whatever the form held. *)
Definition restoresAllFields : Prop :=
  ∀ (s : State) (formData : Draft.t),
    pendingDraft s = Some formData →
    let now := Draft.savedAt formData + 6 * msPerDay in
    snd (loadFormDraft now s) = true ∧
    ∀ f, fieldValue (dom (fst (loadFormDraft now s))) f
         = draftValue formData f.

(** A form without content, as [hasUnsavedChanges] reads it: the author,
    the title, the excerpt and the tags are blank and the category is
    empty. *)
Definition withoutContent (d : Dom.t) : Prop :=
  trim (fieldValue d authorName) = [] ∧
  fieldValue d postCategory = [] ∧
  trim (fieldValue d postTitle) = [] ∧
  trim (fieldValue d postExcerpt) = [] ∧
  trim (fieldValue d postTags) = [].

(** ** Example data *)

Definition textInput (v : jsstring) : Input :=
  {| value := v; defaultValue := []; label := None |}.

Definition pngFile (bytes : Z) : File :=
  {| type := str "image/png"; size := bytes |}.

(** A document with every element of the form, holding the given values. *)
Definition formWith (author category title excerpt tags : jsstring)
    (file : option File) : Dom.t :=
  {| Dom.authorName := Some (textInput author);
     Dom.postCategory := Some (textInput category);
     Dom.postTitle := Some (textInput title);
     Dom.postExcerpt := Some (textInput excerpt);
     Dom.postTags := Some (textInput tags);
     Dom.postContent := None;
     Dom.postImage := Some {| files := file; required := true |};
     Dom.formError := Some [];
     Dom.previewImg := Some [];
     Dom.imagePreview := Some false |}.

Definition blankForm : Dom.t := formWith [] [] [] [] [] None.

(** The form of the spec's example: author A, category food, title T,
    excerpt E and a PNG of 1 KB. *)
Definition exampleForm : Dom.t :=
  formWith (str "A") (str "food") (str "T") (str "E") []
    (Some (pngFile 1024)).

(** The same form with the category left empty. *)
Definition blankCategoryForm : Dom.t :=
  formWith (str "A") [] (str "T") (str "E") [] (Some (pngFile 1024)).

(** A form whose only content is a category made of one space. *)
Definition whitespaceCategoryForm : Dom.t :=
  formWith [] (str " ") [] [] [] None.

Definition emptyStorage : Storage :=
  {| blogFormDraft := None; quotaExceeded := false |}.

(** A draft saved at time 0 from the example form. *)
Definition exampleDraft : Draft.t :=
  {| Draft.authorName := str "A";
     Draft.postCategory := str "food";
     Draft.postTitle := str "T";
     Draft.postExcerpt := str "E";
     Draft.postTags := [];
     Draft.savedAt := 0;
     Draft.selectedImageAttribution := None;
     Draft.previewImageSrc := None |}.

Definition exampleAttribution : Attribution :=
  {| photographer := str "P";
     photographerUrl := str "https://unsplash.com/@p";
     unsplashUrl := str "https://unsplash.com/photos/1" |}.

(** A session storage that holds a draft saved with an attribution. *)
Definition storageWithAttribution : Storage :=
  {| blogFormDraft :=
       Some {| Draft.authorName := str "A";
               Draft.postCategory := str "food";
               Draft.postTitle := str "T";
               Draft.postExcerpt := str "E";
               Draft.postTags := [];
               Draft.savedAt := 0;
               Draft.selectedImageAttribution := Some exampleAttribution;
               Draft.previewImageSrc := None |};
     quotaExceeded := false |}.

(** The editor is opened, the form of the example is typed in, an image is
    chosen and the post is published. *)
Definition publishEvents : list Event :=
  [ EvOpenCreateModal 1000;
    EvInput authorName (str "A");
    EvInput postCategory (str "food");
    EvInput postTitle (str "T");
    EvInput postExcerpt (str "E");
    EvChooseFile (pngFile 1024);
    EvSubmit 2000 2000;
    EvReaderLoad (formDataOf exampleForm) (str "data:image/png") 2000 2000 ].

(** The store after that publish, in a session whose storage held a draft
    with an attribution, and in a session whose storage was empty. *)
Definition storeWithAttribution : State :=
  run JQuery publishEvents (initial blankForm (Some storageWithAttribution)).

Definition storeWithoutAttribution : State :=
  run JQuery publishEvents (initial blankForm (Some emptyStorage)).

(** A store with three posts, published at times 1, 2 and 3. *)
Definition threePosts : State :=
  runOps [ OpCreate (formDataOf exampleForm) (str "data:a") 1;
           OpCreate (formDataOf exampleForm) (str "data:b") 2;
           OpCreate (formDataOf exampleForm) (str "data:c") 3 ]
    (initial exampleForm (Some emptyStorage)).

(** A form with tags, no file selected, and the store after it was
    published with an image. *)
Definition taggedForm : Dom.t :=
  formWith (str "A") (str "food") (str "T") (str "E") (str " sea, food ,,")
    None.

Definition taggedStore : State :=
  runOps [OpCreate (formDataOf taggedForm) (str "data:a") 1]
    (initial taggedForm (Some emptyStorage)).

(** A form whose title control holds a value, and a draft saved at time 0
    without a title. *)
Definition staleForm : Dom.t := formWith [] [] (str "STALE") [] [] None.

Definition untitledDraft : Draft.t :=
  {| Draft.authorName := str "A";
     Draft.postCategory := str "food";
     Draft.postTitle := [];
     Draft.postExcerpt := str "E";
     Draft.postTags := [];
     Draft.savedAt := 0;
     Draft.selectedImageAttribution := None;
     Draft.previewImageSrc := None |}.

(** * Properties *)

(** ** Strings and numbers *)

Lemma truthy_true_iff (x : jsstring) : truthy x = true ↔ x ≠ [].
Proof. destruct x; simpl; split; congruence. Qed.

Lemma truthy_false_iff (x : jsstring) : truthy x = false ↔ x = [].
Proof. destruct x; simpl; split; congruence. Qed.

Lemma or_else_nil_r (x : jsstring) : or_else x [] = x.
Proof. by destruct x. Qed.

Lemma truthy_or_else (a b : jsstring) :
  truthy (or_else a b) = truthy a || truthy b.
Proof. unfold or_else. by destruct (truthy a) eqn:E; rewrite ?E. Qed.

Lemma orZero_id (n : Z) : orZero n = n.
Proof. unfold orZero. destruct (Z.eqb_spec n 0); congruence. Qed.

Lemma fieldValue_eq (d : Dom.t) (f : FieldId) :
  fieldValue d f = default [] (value <$> getField d f).
Proof.
  unfold fieldValue. destruct (getField d f); simpl; [apply or_else_nil_r|done].
Qed.

(** ** Validation and submit *)

Lemma getField_showError (msg : jsstring) (d : Dom.t) (f : FieldId) :
  getField (showError msg d) f = getField d f.
Proof. unfold showError. destruct (Dom.formError d), f; reflexivity. Qed.

Lemma checkRequired_showError (msg : jsstring) (d : Dom.t) fields :
  checkRequired (showError msg d) fields = checkRequired d fields.
Proof.
  induction fields as [|f fields IH]; simpl; [done|].
  rewrite getField_showError, IH. reflexivity.
Qed.

Lemma fieldOk_check (d : Dom.t) (f : FieldId) rest :
  fieldOk d f → checkRequired d (f :: rest) = checkRequired d rest.
Proof.
  intros (input & Hget & Hval). simpl. rewrite Hget.
  apply truthy_true_iff in Hval. by rewrite Hval.
Qed.

Lemma not_fieldOk_check (d : Dom.t) (f : FieldId) rest :
  ¬ fieldOk d f → checkRequired d (f :: rest) = Some (requiredMessage d f).
Proof.
  intros Hbad. simpl. unfold requiredMessage.
  destruct (getField d f) as [input|] eqn:Hget; [|done].
  destruct (truthy (trim (value input))) eqn:Hval; [|done].
  exfalso. apply Hbad. exists input. split; [done|].
  by apply truthy_true_iff.
Qed.

(** The loop stops at the first field that fails. *)
Lemma checkRequired_first_failure (d : Dom.t) before f after :
  (∀ g, g ∈ before → fieldOk d g) →
  ¬ fieldOk d f →
  checkRequired d (before ++ f :: after) = Some (requiredMessage d f).
Proof.
  induction before as [|g before IH]; intros Hok Hbad.
  - by apply not_fieldOk_check.
  - rewrite <- app_comm_cons, fieldOk_check by (apply Hok; left).
    apply IH; [|done]. intros h Hh. apply Hok. by right.
Qed.

Lemma checkRequired_all_ok (d : Dom.t) fields :
  (∀ g, g ∈ fields → fieldOk d g) → checkRequired d fields = None.
Proof.
  induction fields as [|g fields IH]; intros Hok; [done|].
  rewrite fieldOk_check by (apply Hok; left).
  apply IH. intros h Hh. apply Hok. by right.
Qed.

Lemma checkRequired_None_ok (d : Dom.t) fields :
  checkRequired d fields = None → ∀ g, g ∈ fields → fieldOk d g.
Proof.
  induction fields as [|f fields IH]; intros Hnone g Hg.
  - by apply elem_of_nil in Hg.
  - simpl in Hnone.
    destruct (getField d f) as [input|] eqn:Hget; [|done].
    destruct (truthy (trim (value input))) eqn:Hval; [|done].
    apply elem_of_cons in Hg as [->|Hg]; [|by apply IH].
    exists input. split; [done|]. by apply truthy_true_iff.
Qed.

(** The extra excerpt check of part_000 never fires: the loop has already
    checked the excerpt. The two variants validate alike. *)
Lemma validateForm_fetch_eq (s : State) : validateForm_fetch s = validateForm s.
Proof.
  unfold validateForm_fetch, validateForm.
  destruct (checkRequired _ requiredFields) eqn:Hreq; [done|].
  assert (Hok : fieldOk (showError [] (dom s)) postExcerpt).
  { eapply checkRequired_None_ok; [done|]. unfold requiredFields.
    repeat constructor. }
  destruct Hok as (input & Hget & Hval). unfold checkExcerpt.
  simpl in Hget. rewrite Hget.
  apply truthy_true_iff in Hval. by rewrite Hval.
Qed.

(** A failed validation touches the error text only. *)
Lemma validateForm_frame (s : State) :
  let s' := fst (validateForm s) in
  posts s' = posts s ∧ formDraft s' = formDraft s ∧
  currentEditIndex s' = currentEditIndex s ∧
  selectedImageAttribution s' = selectedImageAttribution s ∧
  sessionStorage s' = sessionStorage s ∧
  ∀ f, getField (dom s') f = getField (dom s) f.
Proof.
  unfold validateForm.
  destruct (checkRequired _ _); [|destruct (checkImage _ _)]; simpl;
    repeat split; intros; by rewrite ?getField_showError.
Qed.

Lemma handleSubmit_invalid (tData tEdit : Z) (s : State) :
  snd (validateForm s) = false →
  handleSubmit tData tEdit s = (fst (validateForm s), None).
Proof.
  unfold handleSubmit. destruct (validateForm s) as [s1 valid]. simpl.
  by intros ->.
Qed.

(** C1. On every submit the required fields are checked in the order
    author, category, title, excerpt, before any rule about the image. The
    first field that is missing or blank decides the outcome, whatever the
    later fields and the image are: the error text is that field's message
    and nothing else, no read is started, and the posts, the draft and the
    mode are as before. When the four fields pass, the outcome is the one of
    the image rules. *)
Theorem C1_required_fields_checked_first :
  requiredFields = [authorName; postCategory; postTitle; postExcerpt] ∧
  (∀ tData tEdit s before f after,
     requiredFields = before ++ f :: after →
     (∀ g, g ∈ before → fieldOk (dom s) g) →
     ¬ fieldOk (dom s) f →
     let msg := requiredMessage (dom s) f in
     handleSubmit tData tEdit s
       = (with_dom (fun d => showError msg (showError [] d)) s, None) ∧
     Dom.formError (dom (fst (handleSubmit tData tEdit s)))
       = (fun _ => msg) <$> Dom.formError (dom s) ∧
     posts (fst (handleSubmit tData tEdit s)) = posts s ∧
     formDraft (fst (handleSubmit tData tEdit s)) = formDraft s ∧
     currentEditIndex (fst (handleSubmit tData tEdit s))
       = currentEditIndex s) ∧
  (∀ s, (∀ g, g ∈ requiredFields → fieldOk (dom s) g) →
     snd (validateForm s)
       = bool_decide (checkImage (bool_decide (currentEditIndex s ≠ None))
                        (dom s) = None)).
Proof.
  split; [reflexivity|]. split.
  - intros tData tEdit s before f after Hsplit Hok Hbad msg.
    assert (Hcheck : checkRequired (showError [] (dom s)) requiredFields
                     = Some msg).
    { rewrite checkRequired_showError, Hsplit.
      by apply checkRequired_first_failure. }
    assert (Hsub : handleSubmit tData tEdit s
              = (with_dom (fun d => showError msg (showError [] d)) s, None)).
    { rewrite handleSubmit_invalid; unfold validateForm; by rewrite Hcheck. }
    rewrite Hsub. simpl. repeat split.
    unfold showError.
    destruct (Dom.formError (dom s)) eqn:E; simpl; by rewrite ?E.
  - intros s Hok. unfold validateForm.
    rewrite checkRequired_showError, checkRequired_all_ok by done.
    assert (Himg : ∀ e, checkImage e (showError [] (dom s))
                        = checkImage e (dom s)).
    { intros e. unfold checkImage, selectedFile, showError.
      by destruct (Dom.formError (dom s)). }
    rewrite Himg. by destruct (checkImage _ (dom s)).
Qed.

Lemma C1_required_fields_checked_first_witness :
  let s := initial blankCategoryForm None in
  handleSubmit 0 0 s
    = (with_dom (fun d => showError (str "postCategory is required.")
                            (showError [] d)) s, None) ∧
  posts (fst (handleSubmit 0 0 s)) = [].
Proof.
  intros s.
  destruct C1_required_fields_checked_first as (_ & Hfirst & _).
  destruct (Hfirst 0 0 s [authorName] postCategory [postTitle; postExcerpt])
    as (Hsub & _ & Hposts & _).
  - reflexivity.
  - intros g Hg. apply list_elem_of_singleton in Hg as ->.
    eexists. split; [reflexivity|]. vm_compute. discriminate.
  - intros (input & Hget & Hval). simpl in Hget. injection Hget as <-.
    apply Hval. reflexivity.
  - split; [exact Hsub | exact Hposts].
Defined.

(** ** Edit session and draft store *)

Lemma openEditModal_missing (index : Z) (s : State) :
  postAt (posts s) index = None →
  openEditModal index s = set_currentEditIndex (Some index) s.
Proof. unfold openEditModal. simpl. by intros ->. Qed.

Lemma updatePost_missing (index : Z) (postData : Post.t) (now : Z) (s : State) :
  postAt (posts s) index = None → updatePost index postData now s = s.
Proof. unfold updatePost. by intros ->. Qed.

Lemma deletePost_missing (index : Z) (confirmed : bool) (s : State) :
  postAt (posts s) index = None → deletePost index confirmed s = s.
Proof. unfold deletePost. by intros ->. Qed.

Lemma openPostDetail_missing (postId : Z) (s : State) :
  postAt (posts s) postId = None →
  openPostDetail postId s = (s, λ viewCountElement, viewCountElement).
Proof. unfold openPostDetail. by intros ->. Qed.

Lemma postAt_None (ps : list Post.t) (index : Z) :
  postAt ps index = None ↔ index < 0 ∨ Z.of_nat (length ps) <= index.
Proof.
  unfold postAt. destruct (Z.leb_spec 0 index) as [Hpos|Hneg].
  - rewrite lookup_ge_None. lia.
  - split; [lia|done].
Qed.

Lemma clearFormDraft_no_draft (s : State) : ¬ holdsDraft (clearFormDraft s).
Proof.
  unfold holdsDraft, clearFormDraft. simpl.
  destruct (sessionStorage s); simpl; intros [H|H]; by apply H.
Qed.

(** An autosave that fires in edit mode writes nothing. *)
Lemma autosave_in_edit_mode (v : Variant) (now : Z) (s : State) :
  currentEditIndex s ≠ None →
  autosaveFire v now s = s ∧ saveFormDraftOf v now s = s.
Proof.
  intros Hedit. unfold autosaveFire.
  destruct v; simpl; unfold saveFormDraft, saveFormDraft_fetch;
    by destruct (currentEditIndex s).
Qed.

(** Opening the editor on a live post clears the draft store. *)
Lemma openEditModal_live_clears_draft (index : Z) (s : State) :
  postAt (posts s) index ≠ None →
  currentEditIndex (openEditModal index s) = Some index ∧
  ¬ holdsDraft (openEditModal index s).
Proof.
  intros Hlive. unfold openEditModal. simpl.
  destruct (postAt (posts s) index) as [post|]; [|done].
  split; [reflexivity|].
  apply (clearFormDraft_no_draft (set_currentEditIndex (Some index) s)).
Qed.

(** A publish clears the draft store and leaves the session in create
    mode. *)
Lemma createPost_clears_draft (postData : Post.t) (s : State) :
  ¬ holdsDraft (createPost postData s).
Proof.
  unfold createPost. destruct (selectedImageAttribution s);
    apply clearFormDraft_no_draft.
Qed.

Lemma publish_clears_draft (formData : FormData.t) (result : jsstring)
    (tData tEdit : Z) (s : State) :
  currentEditIndex s = None →
  let s' := reader_onload formData result tData tEdit s in
  ¬ holdsDraft s' ∧ currentEditIndex s' = None.
Proof.
  intros Hcreate. unfold reader_onload. rewrite Hcreate. split; [|done].
  intros Hd.
  by apply (createPost_clears_draft
              (createPostData formData (Some result) tData) s).
Qed.

Lemma loadFormDraft_mode (now : Z) (s : State) :
  currentEditIndex (fst (loadFormDraft now s)) = currentEditIndex s.
Proof.
  unfold loadFormDraft.
  destruct (sessionStorage s) as [st|]; [destruct (blogFormDraft st)|];
    simpl;
    repeat match goal with
           | |- context [match ?x with _ => _ end] => destruct x; simpl
           end; reflexivity.
Qed.

Lemma saveFormDraftOf_mode (v : Variant) (now : Z) (s : State) :
  currentEditIndex (saveFormDraftOf v now s) = currentEditIndex s.
Proof.
  destruct v; simpl; unfold saveFormDraft, saveFormDraft_fetch;
    destruct (currentEditIndex s) eqn:Hmode; rewrite ?Hmode; try done;
    repeat case_match; simpl; by rewrite ?Hmode.
Qed.

Lemma draftOnlyInCreate_same (s s' : State) :
  formDraft s' = formDraft s →
  sessionStorage s' = sessionStorage s →
  currentEditIndex s' = currentEditIndex s →
  draftOnlyInCreate s → draftOnlyInCreate s'.
Proof.
  unfold draftOnlyInCreate, holdsDraft. by intros -> -> ->.
Qed.

Lemma draftOnlyInCreate_create (s : State) :
  currentEditIndex s = None → draftOnlyInCreate s.
Proof. by intros H _. Qed.

Lemma handleSubmit_draftOnlyInCreate (tData tEdit : Z) (s : State) :
  draftOnlyInCreate s → draftOnlyInCreate (fst (handleSubmit tData tEdit s)).
Proof.
  intros Hinv. unfold handleSubmit.
  pose proof (validateForm_frame s) as (_ & Hd & Hm & _ & Hs & _).
  destruct (validateForm s) as [s1 valid]. simpl in *.
  assert (Hinv1 : draftOnlyInCreate s1) by by eapply draftOnlyInCreate_same.
  destruct valid; simpl; [|done].
  destruct (nonEmptyImage _); simpl; [done|].
  destruct (currentEditIndex s1) eqn:Hmode; simpl.
  - by apply draftOnlyInCreate_create.
  - by apply (draftOnlyInCreate_same s1).
Qed.

(** Every event keeps the draft out of edit mode, provided an edit is only
    opened on a live post. *)
Lemma step_draftOnlyInCreate (v : Variant) (e : Event) (s : State) :
  editsLivePost e s →
  draftOnlyInCreate s → draftOnlyInCreate (step v e s).
Proof.
  intros Hlive Hinv. destruct e; simpl in *.
  - apply draftOnlyInCreate_create. unfold openCreateModal.
    by rewrite loadFormDraft_mode.
  - intros Hd. by apply openEditModal_live_clears_draft in Hd.
  - by apply draftOnlyInCreate_create.
  - by apply (draftOnlyInCreate_same s).
  - unfold handleImageUpload.
    destruct (validateImageFile file); by apply (draftOnlyInCreate_same s).
  - by apply (draftOnlyInCreate_same s).
  - by apply (draftOnlyInCreate_same s).
  - unfold autosaveFire. destruct (currentEditIndex s) eqn:Hmode; [done|].
    apply draftOnlyInCreate_create. by rewrite saveFormDraftOf_mode.
  - by apply handleSubmit_draftOnlyInCreate.
  - by apply draftOnlyInCreate_create.
  - by apply (draftOnlyInCreate_same s).
  - unfold deletePost. destruct (postAt _ _); [destruct confirmed|];
      by apply (draftOnlyInCreate_same s).
  - unfold openPostDetail. destruct (postAt _ _);
      by apply (draftOnlyInCreate_same s).
  - unfold clearFormAndDraft. destruct confirmed; [|done].
    intros Hd. exfalso. revert Hd. unfold holdsDraft, clearFormDraft. simpl.
    destruct (sessionStorage s); simpl; intros [H|H]; by apply H.
Qed.

(** From a fresh manager, whatever the session storage holds, a draft
    exists only in create mode after every sequence of events in which each
    edit is opened on a live post. *)
Lemma run_draftOnlyInCreate (v : Variant) (events : list Event) (s : State) :
  draftOnlyInCreate s →
  editsLivePosts v events s →
  draftOnlyInCreate (run v events s).
Proof.
  revert s. induction events as [|e events IH]; intros s Hinv Hlive; [done|].
  destruct Hlive as [He Hrest]. simpl. apply IH; [|done].
  by apply step_draftOnlyInCreate.
Qed.

(** C2. The invariant fails on the code. [openEditModal] stores the index
    before it looks the post up and returns, when there is no post, before
    the draft is cleared. So whenever the draft store holds a draft, an
    [openEditModal] on a position that holds no post leaves the session out of
    create mode with the draft still in the store. *)
Theorem C2_draft_outlives_edit_on_missing_post :
  ∀ (v : Variant) (s : State) (index : Z),
    holdsDraft s →
    postAt (posts s) index = None →
    let s' := step v (EvOpenEditModal index) s in
    currentEditIndex s' = Some index ∧
    formDraft s' = formDraft s ∧
    sessionStorage s' = sessionStorage s ∧
    holdsDraft s' ∧
    ¬ draftOnlyInCreate s'.
Proof.
  intros v s index Hdraft Hmissing s'.
  assert (Hs' : s' = set_currentEditIndex (Some index) s)
    by by apply openEditModal_missing.
  rewrite Hs'. repeat split; try done.
  intros Hinv. specialize (Hinv Hdraft). discriminate Hinv.
Qed.

(** A state of this kind is reached from a fresh manager: a field is typed
    in and the autosave fires, on the empty post store. *)
Lemma C2_draft_outlives_edit_on_missing_post_witness :
  let s := run JQuery [EvInput authorName (str "A"); EvAutosave 1000]
             (initial blankForm (Some emptyStorage)) in
  let s' := step JQuery (EvOpenEditModal 0) s in
  draftOnlyInCreate s ∧
  currentEditIndex s' = Some 0 ∧
  (Draft.authorName <$> formDraft s') = Some (str "A") ∧
  holdsDraft s' ∧
  ¬ draftOnlyInCreate s'.
Proof.
  intros s s'.
  assert (Hdraft : holdsDraft s) by (left; discriminate).
  destruct (C2_draft_outlives_edit_on_missing_post JQuery s 0 Hdraft eq_refl)
    as (Hmode & Hsame & _ & Hholds & Hbroken).
  split; [by intros _|].
  split; [exact Hmode|].
  split; [reflexivity|].
  split; [exact Hholds|exact Hbroken].
Defined.

(** ** Autosave and the comparison with the last save *)

Lemma spread_savedAt_same (d : Draft.t) :
  spread_savedAt d (Draft.savedAt d) = d.
Proof. by destruct d. Qed.

Lemma JSON_stringify_inj (a b : Draft.t) :
  JSON_stringify a = JSON_stringify b → a = b.
Proof.
  destruct a as [a1 a2 a3 a4 a5 a6 a7 a8], b as [b1 b2 b3 b4 b5 b6 b7 b8].
  unfold JSON_stringify. simpl. intros H.
  assert (Hattr : a7 = b7).
  { destruct a7 as [[]|], b7 as [[]|]; simpl in H; try done.
    by simplify_eq. }
  destruct a8, b8; simpl in H; by simplify_eq.
Qed.

(** The comparison before the write takes the timestamp into account: the
    object it builds from the last save keeps the last save's [savedAt], so
    the two texts agree only when the candidate was built in the very
    millisecond of the last save. *)
Lemma sameAsLastSave_true (formData d : Draft.t) :
  sameAsLastSave formData (Some d) = true ↔ formData = d.
Proof.
  unfold sameAsLastSave. rewrite spread_savedAt_same, bool_decide_eq_true.
  split; [apply JSON_stringify_inj | by intros ->].
Qed.

Lemma storeDraft_formDraft (formData : Draft.t) (s : State) :
  formDraft (storeDraft formData s) = Some formData ∧
  dom (storeDraft formData s) = dom s ∧
  currentEditIndex (storeDraft formData s) = currentEditIndex s ∧
  selectedImageAttribution (storeDraft formData s)
    = selectedImageAttribution s.
Proof. done. Qed.

Lemma attachPreview_savedAt (d : Dom.t) (formData : Draft.t) :
  Draft.savedAt (attachPreview d formData) = Draft.savedAt formData.
Proof. unfold attachPreview. by repeat case_match. Qed.

(** A fire that passes the guards leaves a draft stamped with its own
    time, whether it wrote or skipped. *)
Lemma saveFormDraft_savedAt (now : Z) (s : State) :
  currentEditIndex s = None →
  truthy (hasUnsavedChanges (dom s)) = true →
  (Draft.savedAt <$> formDraft (saveFormDraft now s)) = Some now.
Proof.
  intros Hmode Hchanges. unfold saveFormDraft. rewrite Hmode, Hchanges. simpl.
  destruct (sameAsLastSave _ _) eqn:Hsame.
  - destruct (formDraft s) as [d|] eqn:Hd; [|done].
    apply sameAsLastSave_true in Hsame. by rewrite <- Hsame.
  - simpl. by rewrite attachPreview_savedAt.
Qed.

Lemma saveFormDraft_frame (now : Z) (s : State) :
  dom (saveFormDraft now s) = dom s ∧
  currentEditIndex (saveFormDraft now s) = currentEditIndex s ∧
  selectedImageAttribution (saveFormDraft now s) = selectedImageAttribution s.
Proof. unfold saveFormDraft. by repeat case_match. Qed.

(** Two fires over the same form at different times: the second one
    writes again, and the draft carries the second time. *)
Lemma saveFormDraft_twice (t1 t2 : Z) (s : State) :
  currentEditIndex s = None →
  truthy (hasUnsavedChanges (dom s)) = true →
  t1 ≠ t2 →
  let s1 := saveFormDraft t1 s in
  let s2 := saveFormDraft t2 s1 in
  dom s1 = dom s ∧
  selectedImageAttribution s1 = selectedImageAttribution s ∧
  (Draft.savedAt <$> formDraft s1) = Some t1 ∧
  (Draft.savedAt <$> formDraft s2) = Some t2 ∧
  formDraft s2 ≠ formDraft s1.
Proof.
  intros Hmode Hchanges Hne s1 s2.
  destruct (saveFormDraft_frame t1 s) as (Hdom & Hmode1 & Hattr).
  assert (H1 : (Draft.savedAt <$> formDraft s1) = Some t1)
    by by apply saveFormDraft_savedAt.
  assert (H2 : (Draft.savedAt <$> formDraft s2) = Some t2).
  { apply saveFormDraft_savedAt; unfold s1; [rewrite Hmode1|rewrite Hdom];
      done. }
  repeat split; try done. intros Heq. rewrite Heq in H2. congruence.
Qed.

(** The write is skipped only for a candidate equal to the last save,
    timestamp included. *)
Lemma saveFormDraft_skips_iff (now : Z) (s : State) (d : Draft.t) :
  currentEditIndex s = None →
  truthy (hasUnsavedChanges (dom s)) = true →
  formDraft s = Some d →
  sameAsLastSave (draftOfForm now s) (formDraft s) = true ↔
  draftOfForm now s = d.
Proof. intros _ _ ->. apply sameAsLastSave_true. Qed.

Lemma saveFormDraft_writes (now : Z) (s : State) :
  currentEditIndex s = None →
  truthy (hasUnsavedChanges (dom s)) = true →
  sameAsLastSave (draftOfForm now s) (formDraft s) = false →
  saveFormDraft now s
  = storeDraft (attachPreview (dom s) (draftOfForm now s)) s.
Proof.
  intros Hmode Hchanges Hsame. unfold saveFormDraft.
  by rewrite Hmode, Hchanges, Hsame.
Qed.

(** C3. The comparison of blog.js does not leave the timestamp out: the
    object it builds from the last save keeps the last save's [savedAt]. For
    two autosave fires over the same form content and attribution, at two
    different times, the comparison of the second fire fails, the second fire
    writes again, and the draft's [savedAt] moves from the first time to the
    second, in memory and in the session copy. *)
Theorem C3_second_fire_rewrites_savedAt :
  ∀ (t1 t2 : Z) (s : State),
    currentEditIndex s = None →
    truthy (hasUnsavedChanges (dom s)) = true →
    t1 ≠ t2 →
    let s1 := saveFormDraft t1 s in
    let s2 := saveFormDraft t2 s1 in
    dom s1 = dom s ∧
    selectedImageAttribution s1 = selectedImageAttribution s ∧
    (Draft.savedAt <$> formDraft s1) = Some t1 ∧
    sameAsLastSave (draftOfForm t2 s1) (formDraft s1) = false ∧
    (Draft.savedAt <$> formDraft s2) = Some t2 ∧
    (∀ st, sessionStorage s1 = Some st → quotaExceeded st = false →
       (Draft.savedAt <$> (sessionStorage s2 ≫= blogFormDraft)) = Some t2).
Proof.
  intros t1 t2 s Hmode Hchanges Hne s1 s2.
  destruct (saveFormDraft_twice t1 t2 s Hmode Hchanges Hne)
    as (Hdom & Hattr & H1 & H2 & _).
  destruct (saveFormDraft_frame t1 s) as (_ & Hmode1 & _).
  assert (Hsame : sameAsLastSave (draftOfForm t2 s1) (formDraft s1) = false).
  { destruct (sameAsLastSave _ _) eqn:Hsame; [|done].
    fold s1 in H1. destruct (formDraft s1) as [d|] eqn:Hd; [|done].
    apply sameAsLastSave_true in Hsame. simpl in H1.
    rewrite <- Hsame in H1. simpl in H1. congruence. }
  repeat split; try done.
  intros st Hst Hquota. unfold s2.
  rewrite saveFormDraft_writes;
    [|unfold s1; by rewrite Hmode1|unfold s1; by rewrite Hdom|done].
  simpl. rewrite Hst. simpl. unfold setItem. rewrite Hquota. simpl.
  by rewrite attachPreview_savedAt.
Qed.

Lemma C3_second_fire_rewrites_savedAt_witness :
  let s := with_dom (writeField authorName (str "A"))
             (initial blankForm (Some emptyStorage)) in
  let s1 := saveFormDraft 1000 s in
  let s2 := saveFormDraft 3000 s1 in
  (Draft.savedAt <$> formDraft s1) = Some 1000 ∧
  (Draft.savedAt <$> formDraft s2) = Some 3000 ∧
  (Draft.savedAt <$> (sessionStorage s2 ≫= blogFormDraft)) = Some 3000.
Proof.
  intros s s1 s2.
  destruct (C3_second_fire_rewrites_savedAt 1000 3000 s eq_refl eq_refl)
    as (_ & _ & H1 & _ & H2 & Hsession); [discriminate|].
  split; [exact H1|]. split; [exact H2|].
  apply (Hsession {| blogFormDraft := formDraft s1;
                     quotaExceeded := false |}); reflexivity.
Defined.

(** ** Loading a draft *)

Lemma getField_setField (k f : FieldId) (v : option Input) (d : Dom.t) :
  getField (setField k v d) f = if decide (f = k) then v else getField d f.
Proof. by destruct k, f. Qed.

Lemma getField_writeField (k f : FieldId) (v : jsstring) (d : Dom.t) :
  getField (writeField k v d) f
  = if decide (f = k) then setValue v <$> getField d f else getField d f.
Proof.
  unfold writeField. destruct (getField d k) as [i|] eqn:Hk.
  - rewrite getField_setField. case_decide; [|done]. subst. by rewrite Hk.
  - case_decide; [|done]. subst. by rewrite Hk.
Qed.

Lemma getField_restoreField (formData : Draft.t) (d : Dom.t) (k f : FieldId) :
  getField (restoreField formData d k) f
  = if decide (f = k)
    then (if truthy (draftValue formData k)
          then setValue (draftValue formData k) <$> getField d f
          else getField d f)
    else getField d f.
Proof.
  unfold restoreField. destruct (truthy (draftValue formData k)).
  - apply getField_writeField.
  - by case_decide.
Qed.

(** After the loop each control that exists holds the saved value, unless
    the saved value is empty: then the control is left as it was. *)
Lemma getField_restored (formData : Draft.t) (d : Dom.t) (f : FieldId) :
  getField (foldl (restoreField formData) d draftFieldKeys) f
  = if truthy (draftValue formData f)
    then setValue (draftValue formData f) <$> getField d f
    else getField d f.
Proof.
  unfold draftFieldKeys. simpl.
  rewrite !getField_restoreField.
  destruct f; repeat (case_decide; try done).
Qed.

Lemma getField_showImagePreview (src : jsstring) (d : Dom.t) (f : FieldId) :
  getField (showImagePreview src d) f = getField d f.
Proof. unfold showImagePreview. repeat case_match; by destruct f. Qed.

Lemma loadFormDraft_expired (now : Z) (s : State) (formData : Draft.t) :
  pendingDraft s = Some formData →
  expired now (Draft.savedAt formData) = true →
  loadFormDraft now s
  = (clearFormDraft (set_formDraft (Some formData) s), false).
Proof.
  unfold pendingDraft, loadFormDraft. intros Hp Hexp.
  destruct (sessionStorage s) as [st|] eqn:Hst; simpl in Hp.
  - destruct (blogFormDraft st) as [d|] eqn:Hitem.
    + injection Hp as ->. simpl. by rewrite Hexp.
    + by rewrite Hp, Hexp.
  - by rewrite Hp, Hexp.
Qed.

Lemma loadFormDraft_fresh (now : Z) (s : State) (formData : Draft.t) :
  pendingDraft s = Some formData →
  expired now (Draft.savedAt formData) = false →
  let s' := fst (loadFormDraft now s) in
  snd (loadFormDraft now s) = true ∧
  formDraft s' = Some formData ∧
  posts s' = posts s ∧
  currentEditIndex s' = currentEditIndex s ∧
  sessionStorage s' = sessionStorage s ∧
  ∀ f, getField (dom s') f
       = if truthy (draftValue formData f)
         then setValue (draftValue formData f) <$> getField (dom s) f
         else getField (dom s) f.
Proof.
  unfold pendingDraft, loadFormDraft. intros Hp Hexp.
  assert (Hfields : ∀ d f,
    getField
      match Draft.previewImageSrc formData with
      | Some src =>
          if truthy src
          then showImagePreview src
                 (foldl (restoreField formData) d draftFieldKeys)
          else foldl (restoreField formData) d draftFieldKeys
      | None => foldl (restoreField formData) d draftFieldKeys
      end f
    = if truthy (draftValue formData f)
      then setValue (draftValue formData f) <$> getField d f
      else getField d f).
  { intros d f.
    destruct (Draft.previewImageSrc formData) as [src|];
      [destruct (truthy src)|];
      rewrite ?getField_showImagePreview; apply getField_restored. }
  destruct (sessionStorage s) as [st|] eqn:Hst; simpl in Hp;
    [destruct (blogFormDraft st) as [d|] eqn:Hitem; [injection Hp as ->|]|];
    simpl; rewrite ?Hp, Hexp; simpl;
    destruct (Draft.selectedImageAttribution formData); simpl;
    repeat split; try done; apply Hfields.
Qed.

(** Within 7 days the draft is restored: every control that the form has
    ends with the saved value, provided a control whose saved value is empty
    was empty already. *)
Lemma loadFormDraft_restores_fields (now : Z) (s : State)
    (formData : Draft.t) :
  pendingDraft s = Some formData →
  now - Draft.savedAt formData <= 7 * msPerDay →
  (∀ f, getField (dom s) f ≠ None) →
  (∀ f, draftValue formData f = [] → fieldValue (dom s) f = []) →
  snd (loadFormDraft now s) = true ∧
  formDraft (fst (loadFormDraft now s)) = Some formData ∧
  ∀ f, fieldValue (dom (fst (loadFormDraft now s))) f
       = draftValue formData f.
Proof.
  intros Hp Hnow Hexists Hblank.
  assert (Hexp : expired now (Draft.savedAt formData) = false).
  { unfold expired. apply Z.ltb_ge. exact Hnow. }
  destruct (loadFormDraft_fresh now s formData Hp Hexp)
    as (Hret & Hdraft & _ & _ & _ & Hfields).
  repeat split; try done. intros f.
  rewrite !fieldValue_eq, Hfields.
  destruct (getField (dom s) f) as [input|] eqn:Hget;
    [|by destruct (Hexists f)].
  destruct (truthy (draftValue formData f)) eqn:Hval; simpl; [done|].
  apply truthy_false_iff in Hval. rewrite Hval.
  specialize (Hblank f Hval). by rewrite fieldValue_eq, Hget in Hblank.
Qed.

(** [openCreateModal] resets the form before it loads the draft. When the
    controls of the form have empty default values, the draft is restored in
    full. *)
Lemma openCreateModal_restores_draft (now : Z) (s : State)
    (formData : Draft.t) :
  pendingDraft s = Some formData →
  now - Draft.savedAt formData <= 7 * msPerDay →
  (∀ f, ∃ input, getField (dom s) f = Some input ∧ defaultValue input = []) →
  currentEditIndex (openCreateModal now s) = None ∧
  ∀ f, fieldValue (dom (openCreateModal now s)) f = draftValue formData f.
Proof.
  intros Hp Hnow Hdefaults. unfold openCreateModal.
  set (s2 := with_dom (λ d, hideImagePreview (formReset d))
               (set_currentEditIndex None s)).
  assert (Hreset : ∀ f, getField (dom s2) f
                        = resetInput <$> getField (dom s) f)
    by by intros [].
  split; [by rewrite loadFormDraft_mode|].
  apply loadFormDraft_restores_fields; try done.
  - intros f. rewrite Hreset. destruct (Hdefaults f) as (input & -> & _).
    done.
  - intros f _. rewrite fieldValue_eq, Hreset.
    destruct (Hdefaults f) as (input & -> & Hdefault). simpl.
    exact Hdefault.
Qed.

(** C4, as stated, fails in its restore half: a control whose saved value
    is empty is not written. A draft without a title, loaded 6 days after it
    was saved into a form whose title control holds "STALE", is reported as
    restored and leaves "STALE" in the control. *)
Lemma C4_counterexample : ¬ restoresAllFields.
Proof.
  intros Hclaim.
  destruct (Hclaim (set_formDraft (Some untitledDraft) (initial staleForm None))
              untitledDraft eq_refl) as [_ Hfields].
  specialize (Hfields postTitle). vm_compute in Hfields.
  discriminate Hfields.
Qed.

(** C4. A draft stamped T that is loaded more than 7 days after T is
    discarded: the call returns [false] and the draft store is empty, in
    memory and in the session. Loaded within 7 days of T, and so at T plus 6
    days, it is reported as restored: the call returns [true], the draft
    stays in the store, every control of the page whose saved value is not
    empty holds that value, and a control whose saved value is empty keeps
    the value it had, as does what stands for a control missing from the
    page. So when the five controls exist and those saved empty are empty,
    which is how [openCreateModal] hands over a form with empty default
    values, every control holds the value saved for it. *)
Theorem C4_draft_expires_after_seven_days :
  ∀ (s : State) (formData : Draft.t),
    pendingDraft s = Some formData →
    let T := Draft.savedAt formData in
    (∀ now, 7 * msPerDay < now - T →
       snd (loadFormDraft now s) = false ∧
       formDraft (fst (loadFormDraft now s)) = None ∧
       (sessionStorage (fst (loadFormDraft now s)) ≫= blogFormDraft) = None ∧
       ¬ holdsDraft (fst (loadFormDraft now s))) ∧
    (∀ now, now - T <= 7 * msPerDay →
       snd (loadFormDraft now s) = true ∧
       formDraft (fst (loadFormDraft now s)) = Some formData ∧
       restoredFields formData (dom s) (dom (fst (loadFormDraft now s)))) ∧
    (snd (loadFormDraft (T + 6 * msPerDay) s) = true ∧
     restoredFields formData (dom s)
       (dom (fst (loadFormDraft (T + 6 * msPerDay) s)))) ∧
    (∀ now, now - T <= 7 * msPerDay →
       (∀ f, getField (dom s) f ≠ None) →
       (∀ f, draftValue formData f = [] → fieldValue (dom s) f = []) →
       ∀ f, fieldValue (dom (fst (loadFormDraft now s))) f
            = draftValue formData f).
Proof.
  intros s formData Hp T.
  assert (Hfresh : ∀ now, now - T <= 7 * msPerDay →
     snd (loadFormDraft now s) = true ∧
     formDraft (fst (loadFormDraft now s)) = Some formData ∧
     restoredFields formData (dom s) (dom (fst (loadFormDraft now s)))).
  { intros now Hnow.
    assert (Hexp : expired now (Draft.savedAt formData) = false).
    { unfold expired. apply Z.ltb_ge. exact Hnow. }
    destruct (loadFormDraft_fresh now s formData Hp Hexp)
      as (Hret & Hdraft & _ & _ & _ & Hfields).
    split; [done|]. split; [done|]. intros f. unfold fieldValue.
    rewrite Hfields. split.
    - intros Hsaved Hcontrol. apply truthy_true_iff in Hsaved.
      rewrite Hsaved.
      destruct (getField (dom s) f) as [input|]; [|done]. simpl.
      apply or_else_nil_r.
    - intros [Hsaved|Hcontrol].
      + rewrite Hsaved. done.
      + rewrite Hcontrol. by destruct (truthy (draftValue formData f)). }
  split; [|split; [exact Hfresh|split]].
  - intros now Hnow.
    assert (Hexp : expired now (Draft.savedAt formData) = true).
    { unfold expired. apply Z.ltb_lt. exact Hnow. }
    rewrite (loadFormDraft_expired now s formData Hp Hexp). simpl.
    assert (Hsession :
      (removeItem <$> sessionStorage s) ≫= blogFormDraft = None)
      by by destruct (sessionStorage s).
    repeat split; try done.
    unfold holdsDraft. simpl. intros [H|H]; by apply H.
  - destruct (Hfresh (T + 6 * msPerDay)) as (Hret & _ & Hfields);
      [unfold msPerDay; lia|].
    by split.
  - intros now Hnow Hexists Hblank f.
    destruct (Hfresh now Hnow) as (_ & _ & Hfields).
    destruct (Hfields f) as [Hwritten Hkept].
    destruct (decide (draftValue formData f = [])) as [Hempty|Hsaved].
    + rewrite Hkept by by left. rewrite Hempty. by apply Hblank.
    + by apply Hwritten.
Qed.

Lemma C4_draft_expires_after_seven_days_witness :
  let s := set_formDraft (Some exampleDraft) (initial blankForm None) in
  snd (loadFormDraft (8 * msPerDay) s) = false ∧
  snd (loadFormDraft (0 + 6 * msPerDay) s) = true ∧
  fieldValue (dom (fst (loadFormDraft (0 + 6 * msPerDay) s))) postTitle
  = str "T".
Proof.
  intros s.
  destruct (C4_draft_expires_after_seven_days s exampleDraft eq_refl)
    as (Hold & _ & (Hret & Hfields) & _).
  split; [|split; [exact Hret|]].
  - apply Hold. vm_compute. reflexivity.
  - destruct (Hfields postTitle) as [Hwritten _].
    apply Hwritten; discriminate.
Defined.

(** ** Operations on a position that holds no post *)

(** On a position that holds no post, [openEditModal] changes the mode and
    nothing else. *)
Lemma openEditModal_missing_frame (index : Z) (s : State) :
  postAt (posts s) index = None →
  let s' := openEditModal index s in
  currentEditIndex s' = Some index ∧
  posts s' = posts s ∧ formDraft s' = formDraft s ∧
  selectedImageAttribution s' = selectedImageAttribution s ∧
  dom s' = dom s ∧ sessionStorage s' = sessionStorage s.
Proof. intros Hnone. simpl. by rewrite openEditModal_missing. Qed.

(** C5. On a position that holds no post, [updatePost] and [deletePost]
    look the post up first and return the manager as it was. [openEditModal]
    stores the index before it looks the post up: it changes the mode, and from
    create mode it leaves a manager that is not the one it was given, on which
    an autosave fire no longer saves. *)
Theorem C5_edit_on_missing_post_changes_mode :
  ∀ (s : State) (index : Z),
    postAt (posts s) index = None →
    (∀ postData now, updatePost index postData now s = s) ∧
    (∀ confirmed, deletePost index confirmed s = s) ∧
    openEditModal index s = set_currentEditIndex (Some index) s ∧
    currentEditIndex (openEditModal index s) = Some index ∧
    (currentEditIndex s = None →
       openEditModal index s ≠ s ∧
       ∀ v now,
         autosaveFire v now (openEditModal index s) = openEditModal index s).
Proof.
  intros s index Hmissing.
  split; [intros; by apply updatePost_missing|].
  split; [intros; by apply deletePost_missing|].
  rewrite openEditModal_missing by done.
  repeat split.
  intros Heq. apply (f_equal currentEditIndex) in Heq. simpl in Heq.
  congruence.
Qed.

Lemma C5_edit_on_missing_post_changes_mode_witness :
  let s := initial blankForm (Some emptyStorage) in
  let typed := with_dom (writeField authorName (str "A")) in
  currentEditIndex s = None ∧
  currentEditIndex (openEditModal 0 s) = Some 0 ∧
  openEditModal 0 s ≠ s ∧
  formDraft (autosaveFire JQuery 1000 (typed s)) ≠ None ∧
  formDraft (autosaveFire JQuery 1000 (typed (openEditModal 0 s))) = None.
Proof.
  intros s typed.
  destruct (C5_edit_on_missing_post_changes_mode s 0 eq_refl)
    as (_ & _ & _ & Hmode & Hcreate).
  destruct (Hcreate eq_refl) as (Hne & _).
  split; [reflexivity|]. split; [exact Hmode|]. split; [exact Hne|].
  split; [discriminate|reflexivity].
Defined.

(** ** Post store: views and edit stamps *)

Lemma postAt_Some (ps : list Post.t) (i : Z) (p : Post.t) :
  postAt ps i = Some p ↔ 0 <= i ∧ ps !! Z.to_nat i = Some p.
Proof.
  unfold postAt. destruct (Z.leb_spec 0 i) as [Hpos|Hneg].
  - split; [by intros ->|by intros [_ ->]].
  - split; [done|lia].
Qed.

Lemma postAt_cons (x : Post.t) (ps : list Post.t) (i : Z) :
  0 <= i → postAt (x :: ps) (i + 1) = postAt ps i.
Proof.
  intros Hi. unfold postAt.
  destruct (Z.leb_spec 0 i), (Z.leb_spec 0 (i + 1)); try lia.
  replace (Z.to_nat (i + 1)) with (S (Z.to_nat i)) by lia. done.
Qed.

Lemma postAt_insert_eq (ps : list Post.t) (i : Z) (p x : Post.t) :
  postAt ps i = Some p → postAt (<[Z.to_nat i := x]> ps) i = Some x.
Proof.
  rewrite !postAt_Some. intros [Hi Hp]. split; [done|].
  apply list_lookup_insert_eq. by eapply lookup_lt_Some.
Qed.

Lemma postAt_insert_ne (ps : list Post.t) (i k : Z) (x : Post.t) :
  0 <= i → 0 <= k → i ≠ k →
  postAt (<[Z.to_nat k := x]> ps) i = postAt ps i.
Proof.
  intros Hi Hk Hne. unfold postAt. destruct (Z.leb_spec 0 i); [|done].
  apply list_lookup_insert_ne. lia.
Qed.

Lemma postAt_delete_lt (ps : list Post.t) (i k : Z) :
  0 <= i → i < k → postAt (delete (Z.to_nat k) ps) i = postAt ps i.
Proof.
  intros Hi Hlt. unfold postAt. destruct (Z.leb_spec 0 i); [|done].
  apply list_lookup_delete_lt. lia.
Qed.

Lemma postAt_delete_gt (ps : list Post.t) (i k : Z) :
  0 <= k → k < i → postAt (delete (Z.to_nat k) ps) (i - 1) = postAt ps i.
Proof.
  intros Hk Hlt. unfold postAt.
  destruct (Z.leb_spec 0 i), (Z.leb_spec 0 (i - 1)); try lia.
  rewrite list_lookup_delete_ge by lia. f_equal. lia.
Qed.

Lemma createPost_posts (postData : Post.t) (s : State) :
  ∃ stored,
    posts (createPost postData s) = stored :: posts s ∧
    Post.views stored = Post.views postData ∧
    Post.dateEdited stored = Post.dateEdited postData ∧
    Post.date stored = Post.date postData.
Proof.
  unfold createPost. destruct (selectedImageAttribution s); eexists; by simpl.
Qed.

(** Creation never sets the edit stamp and starts the views at zero. *)
Lemma createPostData_fresh (formData : FormData.t) (image : option jsstring)
    (now : Z) :
  Post.dateEdited (createPostData formData image now) = None ∧
  Post.views (createPostData formData image now) = 0 ∧
  Post.date (createPostData formData image now) = now.
Proof. done. Qed.

Lemma updateData_fresh (index : Z) (formData : FormData.t)
    (image : option jsstring) (tData : Z) (s : State) :
  Post.dateEdited (updateData index formData image tData s) = None ∧
  Post.imageAttribution (updateData index formData image tData s) = None ∧
  Post.date (updateData index formData image tData s) = tData.
Proof. unfold updateData. by repeat case_match. Qed.

(** One operation: a post that survives keeps or raises its views. *)
Lemma trackOp_views (op : Op) (s : State) (i j : Z) (p : Post.t) :
  postAt (posts s) i = Some p →
  trackOp op s i = Some j →
  ∃ p', postAt (posts (applyOp op s)) j = Some p' ∧
        Post.views p <= Post.views p'.
Proof.
  intros Hp Htrack. pose proof Hp as [Hi _]%postAt_Some.
  destruct op as [formData image now|index formData image tData tEdit
                 |index confirmed|postId]; simpl in *.
  - injection Htrack as <-.
    destruct (createPost_posts (createPostData formData (Some image) now) s)
      as (stored & -> & _).
    exists p. by rewrite postAt_cons.
  - injection Htrack as <-. unfold updatePost.
    destruct (postAt (posts s) index) as [existingPost|] eqn:Hex;
      [|by exists p].
    pose proof Hex as [Hk _]%postAt_Some. simpl.
    destruct (decide (i = index)) as [->|Hne].
    + eexists. split; [by eapply postAt_insert_eq|]. simpl.
      rewrite orZero_id. assert (existingPost = p) by congruence. by subst.
    + exists p. by rewrite postAt_insert_ne.
  - unfold deletePost.
    destruct (postAt (posts s) index) as [victim|] eqn:Hex.
    + pose proof Hex as [Hk _]%postAt_Some.
      destruct confirmed; simpl; [|injection Htrack as <-; by exists p].
      destruct (Z.ltb_spec i index).
      * injection Htrack as <-. exists p. by rewrite postAt_delete_lt.
      * destruct (Z.eqb_spec i index); [done|]. injection Htrack as <-.
        exists p. rewrite postAt_delete_gt by lia. done.
    + assert (j = i) as -> by by destruct confirmed; simplify_eq.
      by exists p.
  - injection Htrack as <-. unfold openPostDetail.
    destruct (postAt (posts s) postId) as [post|] eqn:Hex; [|by exists p].
    pose proof Hex as [Hk _]%postAt_Some. simpl.
    destruct (decide (i = postId)) as [->|Hne].
    + eexists. split; [by eapply postAt_insert_eq|]. simpl.
      rewrite orZero_id. assert (post = p) by congruence. subst. lia.
    + exists p. by rewrite postAt_insert_ne.
Qed.

(** Any sequence of operations: the same, along the positions the post
    moves through. *)
Lemma track_views (ops : list Op) (s : State) (i j : Z) (p : Post.t) :
  postAt (posts s) i = Some p →
  track ops s i = Some j →
  ∃ p', postAt (posts (runOps ops s)) j = Some p' ∧
        Post.views p <= Post.views p'.
Proof.
  revert s i p. induction ops as [|op ops IH]; intros s i p Hp Htrack.
  - injection Htrack as <-. by exists p.
  - simpl in Htrack. destruct (trackOp op s i) as [k|] eqn:Hk; [|done].
    destruct (trackOp_views op s i k p Hp Hk) as (p1 & Hp1 & Hle1).
    destruct (IH _ _ _ Hp1 Htrack) as (p' & Hp' & Hle).
    exists p'. split; [done|lia].
Qed.

Lemma runOps_snoc (ops : list Op) (op : Op) (s : State) :
  runOps (ops ++ [op]) s = applyOp op (runOps ops s).
Proof. unfold runOps. by rewrite foldl_snoc. Qed.

Lemma runOps_app (a b : list Op) (s : State) :
  runOps (a ++ b) s = runOps b (runOps a s).
Proof. unfold runOps. by rewrite foldl_app. Qed.

Lemma track_app (a b : list Op) (s : State) (i : Z) :
  track (a ++ b) s i
  = match track a s i with
    | Some k => track b (runOps a s) k
    | None => None
    end.
Proof.
  revert s i. induction a as [|op a IH]; intros s i; [done|].
  simpl. destruct (trackOp op s i) as [k|]; [|done]. apply IH.
Qed.

(** One operation: the post that survives keeps its edit stamp, unless the
    operation is an update made on its position, which sets the stamp from
    its clock. *)
Lemma trackOp_dateEdited (op : Op) (s : State) (i k : Z) (p : Post.t) :
  postAt (posts s) i = Some p →
  trackOp op s i = Some k →
  ∃ p1, postAt (posts (applyOp op s)) k = Some p1 ∧
        (Post.dateEdited p1 = Post.dateEdited p ∨
         ∃ formData image tData t,
           op = OpUpdate i formData image tData t ∧
           Post.dateEdited p1 = Some t).
Proof.
  intros Hp Htrack. pose proof Hp as [Hi _]%postAt_Some.
  destruct op as [formData image now|index formData image tData tEdit
                 |index confirmed|postId]; simpl in *.
  - injection Htrack as <-.
    destruct (createPost_posts (createPostData formData (Some image) now) s)
      as (stored & -> & _).
    exists p. split; [by rewrite postAt_cons|by left].
  - injection Htrack as <-. unfold updatePost.
    destruct (postAt (posts s) index) as [existingPost|] eqn:Hex;
      [|exists p; split; [done|by left]].
    pose proof Hex as [Hk _]%postAt_Some. simpl.
    destruct (decide (i = index)) as [->|Hne].
    + eexists. split; [by eapply postAt_insert_eq|]. right.
      by exists formData, image, tData, tEdit.
    + exists p. split; [by rewrite postAt_insert_ne|by left].
  - unfold deletePost.
    destruct (postAt (posts s) index) as [victim|] eqn:Hex.
    + pose proof Hex as [Hk _]%postAt_Some.
      destruct confirmed; simpl;
        [|injection Htrack as <-; exists p; split; [done|by left]].
      destruct (Z.ltb_spec i index).
      * injection Htrack as <-. exists p.
        split; [by rewrite postAt_delete_lt|by left].
      * destruct (Z.eqb_spec i index); [done|]. injection Htrack as <-.
        exists p. split; [|by left]. rewrite postAt_delete_gt by lia. done.
    + assert (k = i) as -> by by destruct confirmed; simplify_eq.
      exists p. split; [done|by left].
  - injection Htrack as <-. unfold openPostDetail.
    destruct (postAt (posts s) postId) as [post|] eqn:Hex;
      [|exists p; split; [done|by left]].
    pose proof Hex as [Hk _]%postAt_Some. simpl.
    destruct (decide (i = postId)) as [->|Hne].
    + eexists. split; [by eapply postAt_insert_eq|]. left. simpl.
      congruence.
    + exists p. split; [by rewrite postAt_insert_ne|by left].
Qed.

(** Any sequence of operations: a post that does not carry the stamp [t]
    and carries it at the end was updated in between, with the clock [t],
    on the position where it stood at that time. *)
Lemma track_dateEdited (ops : list Op) (s : State) (i j : Z)
    (p p' : Post.t) (t : Z) :
  postAt (posts s) i = Some p →
  Post.dateEdited p ≠ Some t →
  track ops s i = Some j →
  postAt (posts (runOps ops s)) j = Some p' →
  Post.dateEdited p' = Some t →
  ∃ before index formData image tData after,
    ops = before ++ OpUpdate index formData image tData t :: after ∧
    track before s i = Some index ∧
    track (OpUpdate index formData image tData t :: after)
      (runOps before s) index = Some j.
Proof.
  revert s i p. induction ops as [|op ops IH];
    intros s i p Hp Hstamp Htrack Hp' Hstamp'.
  - injection Htrack as <-. simpl in Hp'. congruence.
  - pose proof Htrack as Hall.
    simpl in Htrack. destruct (trackOp op s i) as [k|] eqn:Hk; [|done].
    destruct (trackOp_dateEdited op s i k p Hp Hk) as (p1 & Hp1 & Hcase).
    change (runOps (op :: ops) s) with (runOps ops (applyOp op s)) in Hp'.
    assert (Hlater : Post.dateEdited p1 ≠ Some t →
      ∃ before index formData image tData after,
        op :: ops = before ++ OpUpdate index formData image tData t :: after ∧
        track before s i = Some index ∧
        track (OpUpdate index formData image tData t :: after)
          (runOps before s) index = Some j).
    { intros Hstamp1.
      destruct (IH _ _ _ Hp1 Hstamp1 Htrack Hp' Hstamp')
        as (before & index & formData & image & tData & after
            & -> & Hbefore & Hafter).
      exists (op :: before), index, formData, image, tData, after.
      split; [done|]. split; [|done]. simpl. by rewrite Hk. }
    destruct Hcase as [Hsame|(formData & image & tData & t1 & -> & Hset)].
    + apply Hlater. congruence.
    + destruct (decide (t1 = t)) as [->|Hne].
      * exists [], i, formData, image, tData, ops. by split.
      * apply Hlater. congruence.
Qed.

(** One operation: a post of the store was published by it, at position 0,
    or stood in the store before. *)
Lemma applyOp_origin (op : Op) (s : State) (j : Z) (p' : Post.t) :
  postAt (posts (applyOp op s)) j = Some p' →
  (∃ formData image now, op = OpCreate formData image now ∧ j = 0) ∨
  (∃ i p, postAt (posts s) i = Some p ∧ trackOp op s i = Some j).
Proof.
  intros Hp'. pose proof Hp' as [Hj _]%postAt_Some.
  destruct op as [formData image now|index formData image tData tEdit
                 |index confirmed|postId]; simpl in *.
  - destruct (decide (j = 0)) as [->|Hne]; [left; by eexists _, _, _|].
    right.
    destruct (createPost_posts (createPostData formData (Some image) now) s)
      as (stored & Hposts & _).
    rewrite Hposts in Hp'. exists (j - 1), p'.
    replace j with (j - 1 + 1) in Hp' by lia.
    rewrite postAt_cons in Hp' by lia. split; [done|]. f_equal. lia.
  - right. unfold updatePost in Hp'.
    destruct (postAt (posts s) index) as [existingPost|] eqn:Hex;
      [|by exists j, p'].
    pose proof Hex as [Hk _]%postAt_Some. simpl in Hp'.
    destruct (decide (j = index)) as [->|Hne].
    + by exists index, existingPost.
    + rewrite postAt_insert_ne in Hp' by done. by exists j, p'.
  - right. unfold deletePost in Hp'.
    destruct (postAt (posts s) index) as [victim|] eqn:Hex;
      [|exists j, p'; split; [done|by destruct confirmed]].
    pose proof Hex as [Hk _]%postAt_Some.
    destruct confirmed; [|by exists j, p'].
    simpl in Hp'. destruct (Z.lt_ge_cases j index) as [Hlt|Hge].
    + rewrite postAt_delete_lt in Hp' by lia. exists j, p'.
      split; [done|]. destruct (Z.ltb_spec j index); [done|lia].
    + replace j with (j + 1 - 1) in Hp' by lia.
      rewrite postAt_delete_gt in Hp' by lia. exists (j + 1), p'.
      split; [done|].
      destruct (Z.ltb_spec (j + 1) index); [lia|].
      destruct (Z.eqb_spec (j + 1) index); [lia|]. f_equal. lia.
  - right. unfold openPostDetail in Hp'.
    destruct (postAt (posts s) postId) as [post|] eqn:Hex;
      [|by exists j, p'].
    pose proof Hex as [Hk _]%postAt_Some. simpl in Hp'.
    destruct (decide (j = postId)) as [->|Hne].
    + by exists postId, post.
    + rewrite postAt_insert_ne in Hp' by done. by exists j, p'.
Qed.

(** From a store without posts: every post of the store was published by
    an operation of the sequence and has moved from position 0 to where it
    stands. *)
Lemma runOps_origin (ops : list Op) (s : State) (j : Z) (p' : Post.t) :
  posts s = [] →
  postAt (posts (runOps ops s)) j = Some p' →
  ∃ pre formData image now rest,
    ops = pre ++ OpCreate formData image now :: rest ∧
    track rest (runOps (pre ++ [OpCreate formData image now]) s) 0 = Some j.
Proof.
  intros Hempty. revert j p'.
  induction ops as [|op ops IH] using rev_ind; intros j p' Hp'.
  - simpl in Hp'. rewrite Hempty in Hp'. apply postAt_Some in Hp' as [_ Hp'].
    done.
  - rewrite runOps_snoc in Hp'.
    destruct (applyOp_origin _ _ _ _ Hp')
      as [(formData & image & now & -> & ->)|(i & p & Hp & Htrack)].
    + by exists ops, formData, image, now, [].
    + destruct (IH i p Hp) as (pre & formData & image & now & rest & -> & Hi).
      exists pre, formData, image, now, (rest ++ [op]).
      split; [by rewrite <- app_assoc|].
      rewrite track_app, Hi. simpl.
      rewrite <- runOps_app, <- app_assoc. simpl. by rewrite Htrack.
Qed.

(** C6. Over every sequence of publishes, updates, deletes and views: a
    post that survives has at the end at least the views it had at the start
    (an update keeps them, a view adds one); a publish stores a post without
    an edit stamp and with no views; a post that does not carry an edit stamp
    and carries it at the end was updated in between, with that stamp as the
    clock, on the position where it stood at that time; and, from the empty
    store, every post that carries an edit stamp was published by the
    sequence and then updated, with that stamp as the clock, on the position
    it had moved to, before it moved to where it stands. *)
Theorem C6_views_grow_and_stamp_only_by_update :
  (∀ (ops : list Op) (s : State) (i j : Z) (p : Post.t),
     postAt (posts s) i = Some p →
     track ops s i = Some j →
     ∃ p', postAt (posts (runOps ops s)) j = Some p' ∧
           Post.views p <= Post.views p') ∧
  (∀ (s : State) index formData image tData tEdit existingPost,
     postAt (posts s) index = Some existingPost →
     Post.views <$>
       postAt (posts (applyOp (OpUpdate index formData image tData tEdit) s))
         index
     = Some (Post.views existingPost)) ∧
  (∀ (s : State) formData image now,
     ∃ stored,
       posts (applyOp (OpCreate formData image now) s) = stored :: posts s ∧
       Post.dateEdited stored = None ∧ Post.views stored = 0) ∧
  (∀ (ops : list Op) (s : State) (i j : Z) (p p' : Post.t) (t : Z),
     postAt (posts s) i = Some p →
     Post.dateEdited p ≠ Some t →
     track ops s i = Some j →
     postAt (posts (runOps ops s)) j = Some p' →
     Post.dateEdited p' = Some t →
     ∃ before index formData image tData after,
       ops = before ++ OpUpdate index formData image tData t :: after ∧
       track before s i = Some index ∧
       track (OpUpdate index formData image tData t :: after)
         (runOps before s) index = Some j) ∧
  (∀ (ops : list Op) (d : Dom.t) (st : option Storage) (j : Z) (p' : Post.t)
     (t : Z),
     postAt (posts (runOps ops (initial d st))) j = Some p' →
     Post.dateEdited p' = Some t →
     ∃ pre formData0 image0 now0 mid index formData image tData after,
       ops = pre ++ OpCreate formData0 image0 now0
                 :: mid ++ OpUpdate index formData image tData t :: after ∧
       let s1 := runOps (pre ++ [OpCreate formData0 image0 now0])
                   (initial d st) in
       track mid s1 0 = Some index ∧
       track (OpUpdate index formData image tData t :: after)
         (runOps mid s1) index = Some j).
Proof.
  split; [exact track_views|]. split; [|split; [|split]].
  - intros s index formData image tData tEdit existingPost Hex. simpl.
    unfold updatePost. rewrite Hex. simpl.
    erewrite postAt_insert_eq by done. simpl. by rewrite orZero_id.
  - intros s formData image now. simpl.
    destruct (createPost_posts (createPostData formData (Some image) now) s)
      as (stored & Hposts & Hviews & Hstamp & _).
    exists stored. by repeat split.
  - exact track_dateEdited.
  - intros ops d st j p' t Hp' Hstamp'.
    destruct (runOps_origin ops (initial d st) j p' eq_refl Hp')
      as (pre & formData0 & image0 & now0 & rest & -> & Htrack).
    set (s1 := runOps (pre ++ [OpCreate formData0 image0 now0])
                 (initial d st)) in *.
    assert (Hfront : ∃ stored, postAt (posts s1) 0 = Some stored ∧
                               Post.dateEdited stored = None).
    { unfold s1. rewrite runOps_snoc. simpl.
      destruct (createPost_posts
                  (createPostData formData0 (Some image0) now0)
                  (runOps pre (initial d st)))
        as (stored & -> & _ & Hnone & _).
      by exists stored. }
    destruct Hfront as (stored & Hstored & Hnone).
    assert (Hend : postAt (posts (runOps rest s1)) j = Some p').
    { unfold s1. rewrite <- runOps_app, <- app_assoc. done. }
    destruct (track_dateEdited rest s1 0 j stored p' t Hstored
                ltac:(congruence) Htrack Hend Hstamp')
      as (mid & index & formData & image & tData & after & -> & Hmid & Hafter).
    by exists pre, formData0, image0, now0, mid, index, formData, image,
      tData, after.
Qed.

Lemma C6_views_grow_and_stamp_only_by_update_witness :
  let formData := formDataOf exampleForm in
  let s := runOps [OpCreate formData (str "data:a") 1]
             (initial blankForm None) in
  let ops := [OpView 0; OpCreate formData (str "data:b") 2;
              OpUpdate 1 formData None 3 4; OpView 1; OpDelete 0 true] in
  (∃ p', postAt (posts (runOps ops s)) 0 = Some p' ∧ 0 <= Post.views p') ∧
  ∃ before index formData' image tData after,
    ops = before ++ OpUpdate index formData' image tData 4 :: after ∧
    track before s 0 = Some index.
Proof.
  intros formData s ops.
  destruct C6_views_grow_and_stamp_only_by_update
    as (Hviews & _ & _ & Hstamp & _).
  split.
  - apply (Hviews ops s 0 0
             (createPostData formData (Some (str "data:a")) 1)); reflexivity.
  - destruct (Hstamp ops s 0 0
                (createPostData formData (Some (str "data:a")) 1)
                (default (createPostData formData None 0)
                   (postAt (posts (runOps ops s)) 0)) 4)
      as (before & index & formData' & image & tData & after & Hops & Hbefore
          & _); try reflexivity; try discriminate.
    by exists before, index, formData', image, tData, after.
Defined.

(** Every event changes the posts as one of the four operations does, or
    not at all. *)
Lemma updatePost_posts (index : Z) (postData : Post.t) (now : Z)
    (s s' : State) :
  posts s' = posts s →
  posts (updatePost index postData now s')
  = posts (updatePost index postData now s).
Proof.
  intros Heq. unfold updatePost. rewrite Heq.
  destruct (postAt (posts s) index); simpl; by rewrite ?Heq.
Qed.

Lemma step_posts (v : Variant) (e : Event) (s : State) :
  posts (step v e s) = posts s ∨
  ∃ op, posts (step v e s) = posts (applyOp op s).
Proof.
  destruct e; simpl.
  - left. unfold openCreateModal, loadFormDraft. simpl.
    destruct (sessionStorage s) as [st|]; [destruct (blogFormDraft st)|];
      simpl; repeat case_match; done.
  - left. unfold openEditModal. simpl. by destruct (postAt _ _).
  - by left.
  - by left.
  - left. unfold handleImageUpload. by destruct (validateImageFile _).
  - by left.
  - by left.
  - left. unfold autosaveFire. destruct (currentEditIndex s); [done|].
    destruct v; simpl; unfold saveFormDraft, saveFormDraft_fetch;
      by repeat case_match.
  - unfold handleSubmit.
    pose proof (validateForm_frame s) as (Hposts & _).
    destruct (validateForm s) as [s1 valid]. simpl in Hposts.
    destruct valid; simpl; [|by left].
    destruct (nonEmptyImage _); simpl; [by left|].
    destruct (currentEditIndex s1) as [index|]; simpl; [|by left].
    right. exists (OpUpdate index (formDataOf (dom s1)) None tData tEdit).
    simpl. unfold updateData. rewrite Hposts. by apply updatePost_posts.
  - right. unfold reader_onload. destruct (currentEditIndex s) as [index|].
    + by exists (OpUpdate index formData (Some result) tData tEdit).
    + by exists (OpCreate formData result tData).
  - by left.
  - right. by exists (OpDelete index confirmed).
  - right. by exists (OpView postId).
  - left. unfold clearFormAndDraft. by destruct confirmed.
Qed.

(** ** Publishing and viewing *)

Lemma validateForm_valid_dom (s : State) :
  snd (validateForm s) = true →
  fst (validateForm s) = with_dom (showError []) s.
Proof.
  unfold validateForm.
  destruct (checkRequired _ _); [done|]. by destruct (checkImage _ _).
Qed.

Lemma handleSubmit_starts_read (tData tEdit : Z) (s : State) (file : File) :
  snd (validateForm s) = true →
  selectedFile (dom s) = Some file →
  0 < size file →
  handleSubmit tData tEdit s
  = (fst (validateForm s),
     Some {| readFormData := formDataOf (dom (fst (validateForm s)));
             readFile := file |}).
Proof.
  intros Hvalid Hfile Hsize. unfold handleSubmit.
  pose proof (validateForm_valid_dom s Hvalid) as Hs1.
  destruct (validateForm s) as [s1 valid]. simpl in *. subst.
  unfold nonEmptyImage. simpl.
  assert (Himg : Dom.postImage (showError [] (dom s)) = Dom.postImage (dom s)).
  { unfold showError. by destruct (Dom.formError (dom s)). }
  rewrite Himg. unfold selectedFile in Hfile.
  destruct (Dom.postImage (dom s)) as [input|]; [|done]. simpl in *.
  rewrite Hfile. simpl. apply Z.ltb_lt in Hsize. by rewrite Hsize.
Qed.





(** ** Unsaved changes *)

Lemma trim_nil : trim [] = [].
Proof. reflexivity. Qed.

Lemma trim_non_blank (x : jsstring) : trim x ≠ [] → x ≠ [].
Proof. intros H ->. by apply H. Qed.

(** C8, as stated, fails on a form whose only content is a category of one
    space: [hasUnsavedChanges] is truthy although no tracked field is
    non-empty after trimming. *)
Lemma C8_counterexample :
  ¬ (truthy (hasUnsavedChanges whitespaceCategoryForm) = true ↔
     someFieldNonBlank whitespaceCategoryForm).
Proof.
  intros [Hclaim _].
  destruct (Hclaim eq_refl) as (f & _ & Hf).
  apply Hf. by destruct f.
Qed.

(** C8, as the code has it. [hasUnsavedChanges] trims the author, the
    title, the excerpt and the tags; the category is taken as it is. The
    result is truthy exactly when one of the four is non-empty after
    trimming or the category is non-empty; so it is truthy whenever a tracked
    field is non-empty after trimming. *)
Theorem C8_unsaved_changes_category_untrimmed :
  ∀ d : Dom.t,
    (truthy (hasUnsavedChanges d) = true ↔
       trim (fieldValue d authorName) ≠ [] ∨
       fieldValue d postCategory ≠ [] ∨
       trim (fieldValue d postTitle) ≠ [] ∨
       trim (fieldValue d postExcerpt) ≠ [] ∨
       trim (fieldValue d postTags) ≠ []) ∧
    (someFieldNonBlank d → truthy (hasUnsavedChanges d) = true).
Proof.
  intros d.
  assert (Hiff : truthy (hasUnsavedChanges d) = true ↔
       trim (fieldValue d authorName) ≠ [] ∨
       fieldValue d postCategory ≠ [] ∨
       trim (fieldValue d postTitle) ≠ [] ∨
       trim (fieldValue d postExcerpt) ≠ [] ∨
       trim (fieldValue d postTags) ≠ []).
  { unfold hasUnsavedChanges. rewrite !truthy_or_else, !orb_true_iff.
    rewrite !truthy_true_iff. tauto. }
  split; [exact Hiff|].
  intros (f & _ & Hf). apply Hiff.
  destruct f; auto using trim_non_blank.
Qed.

Lemma C8_unsaved_changes_category_untrimmed_witness :
  truthy (hasUnsavedChanges exampleForm) = true.
Proof.
  apply (proj2 (C8_unsaved_changes_category_untrimmed exampleForm)).
  exists authorName. split; [repeat constructor|discriminate].
Defined.

(** ** What an update keeps of the previous post *)

(** C10, as stated, fails: the two example stores hold posts with the same
    views and the same image, and the same update gives them different posts,
    because the attribution of the previous post is kept as well. *)
Lemma C10_counterexample : ¬ updateKeepsOnlyViewsAndImage.
Proof.
  intros Hclaim.
  specialize (Hclaim storeWithAttribution storeWithoutAttribution 0).
  specialize (Hclaim _ _ (formDataOf exampleForm) None 5000 5001
                eq_refl eq_refl eq_refl eq_refl).
  vm_compute in Hclaim. discriminate Hclaim.
Qed.

(** The second store differs from the first in the attribution of its post
    only, and the update keeps that difference. *)
Lemma update_keeps_attribution_example :
  let update := OpUpdate 0 (formDataOf exampleForm) None 5000 5001 in
  (Post.imageAttribution <$> postAt (posts storeWithAttribution) 0)
  = Some (Some exampleAttribution) ∧
  (Post.imageAttribution <$>
     postAt (posts (applyOp update storeWithAttribution)) 0)
  = Some (Some exampleAttribution) ∧
  (Post.imageAttribution <$>
     postAt (posts (applyOp update storeWithoutAttribution)) 0)
  = Some None.
Proof. vm_compute. repeat split. Qed.

(** C10, as the code has it. An update of a live post through the form
    stores the merge of the previous post with a fresh snapshot of the form.
    The snapshot's date, the time of the update, replaces the creation date;
    the edit stamp is the clock of [updatePost]; the text fields and the tags
    are those of the form. Of the previous post the merge keeps the views, the
    image attribution and, when no new image is given, the image. The other
    posts are untouched. *)
Theorem C10_update_keeps_views_attribution_image :
  ∀ (s : State) (index : Z) (existingPost : Post.t) formData image
    (tData tEdit : Z),
    postAt (posts s) index = Some existingPost →
    let s' := applyOp (OpUpdate index formData image tData tEdit) s in
    ∃ stored,
      postAt (posts s') index = Some stored ∧
      Post.date stored = tData ∧
      Post.dateEdited stored = Some tEdit ∧
      Post.views stored = Post.views existingPost ∧
      Post.imageAttribution stored = Post.imageAttribution existingPost ∧
      Post.image stored
      = match image with
        | Some result => Some result
        | None => hasImage existingPost
        end ∧
      Post.author stored = trimmedOrEmpty (FormData.authorName formData) ∧
      Post.category stored = valueOrEmpty (FormData.postCategory formData) ∧
      Post.title stored = trimmedOrEmpty (FormData.postTitle formData) ∧
      Post.excerpt stored = trimmedOrEmpty (FormData.postExcerpt formData) ∧
      Post.content stored = Post.content (createPostData formData None tData) ∧
      Post.tags stored = Post.tags (createPostData formData None tData) ∧
      length (posts s') = length (posts s) ∧
      ∀ i, 0 <= i → i ≠ index → postAt (posts s') i = postAt (posts s) i.
Proof.
  intros s index existingPost formData image tData tEdit Hex s'.
  pose proof Hex as [Hk _]%postAt_Some.
  unfold s'. simpl. unfold updatePost. rewrite Hex. simpl.
  eexists. split; [by eapply postAt_insert_eq|].
  simpl. rewrite orZero_id. unfold updateData. rewrite Hex. simpl.
  assert (Hlen : ∀ x, length (<[Z.to_nat index := x]> (posts s))
                      = length (posts s)) by (intros; apply length_insert).
  destruct image as [result|]; [|destruct (hasImage existingPost)]; simpl;
    (repeat split; try done; intros i Hi Hne; by apply postAt_insert_ne).
Qed.

Lemma C10_update_keeps_views_attribution_image_witness :
  let s' := applyOp (OpUpdate 0 (formDataOf exampleForm) None 5000 5001)
              storeWithAttribution in
  ∃ stored,
    postAt (posts s') 0 = Some stored ∧
    Post.date stored = 5000 ∧
    Post.imageAttribution stored = Some exampleAttribution.
Proof.
  intros s'.
  destruct (C10_update_keeps_views_attribution_image storeWithAttribution 0
              (set_imageAttribution exampleAttribution
                 (createPostData (formDataOf exampleForm)
                    (Some (str "data:image/png")) 2000))
              (formDataOf exampleForm) None 5000 5001 eq_refl)
    as (stored & Hat & Hdate & _ & _ & Hattr & _).
  exists stored. repeat split; assumption.
Defined.

(** ** Sorting *)

Section ArraySort.
Context {A : Type} (cmp : A -> A -> Z).

Lemma insertSorted_perm (x : A) (l : list A) :
  insertSorted cmp x l ≡ₚ x :: l.
Proof.
  induction l as [|y l IH]; simpl; [done|].
  destruct (cmp x y <=? 0); [done|].
  rewrite IH. apply Permutation_swap.
Qed.

Lemma Array_sort_perm (l : list A) : Array_sort cmp l ≡ₚ l.
Proof.
  induction l as [|x l IH]; simpl; [done|].
  unfold Array_sort in *. simpl. by rewrite insertSorted_perm, IH.
Qed.

Lemma Array_sort_elem_of (l : list A) (x : A) :
  x ∈ Array_sort cmp l ↔ x ∈ l.
Proof. by rewrite Array_sort_perm. Qed.

(** Stability: elements that compare as equal to one another come out in
    the order they went in. *)
Lemma insertSorted_filter (Q : A → Prop) `{!∀ a, Decision (Q a)}
    (x : A) (l : list A) :
  (∀ y, y ∈ l → Q x → Q y → cmp x y <= 0) →
  filter Q (insertSorted cmp x l) = filter Q (x :: l).
Proof.
  induction l as [|y l IH]; intros Htied; cbn [insertSorted]; [done|].
  destruct (Z.leb_spec (cmp x y) 0) as [Hle|Hgt]; [done|].
  rewrite (filter_cons _ y (insertSorted cmp x l)).
  rewrite IH by (intros z Hz; apply Htied; by right).
  rewrite !filter_cons.
  destruct (decide (Q x)) as [Hx|Hx], (decide (Q y)) as [Hy|Hy]; try done.
  specialize (Htied y (list_elem_of_here _ _) Hx Hy). lia.
Qed.

Lemma Array_sort_stable (Q : A → Prop) `{!∀ a, Decision (Q a)}
    (l : list A) :
  (∀ x y, x ∈ l → y ∈ l → Q x → Q y → cmp x y <= 0) →
  filter Q (Array_sort cmp l) = filter Q l.
Proof.
  induction l as [|x l IH]; intros Htied; [done|].
  unfold Array_sort in *. cbn [foldr].
  rewrite insertSorted_filter.
  - rewrite !filter_cons, IH; [done|].
    intros a b Ha Hb. apply Htied; by right.
  - intros y Hy. apply Htied; [by left|].
    right. by apply (Array_sort_elem_of l y).
Qed.

(** Order: with a comparison that is consistent on the elements, the
    result is ascending. *)
Context (P : A → Prop) (Hcons : ConsistentOn P cmp).

Lemma insertSorted_Forall (R : A → Prop) (x : A) (l : list A) :
  R x → Forall R l → Forall R (insertSorted cmp x l).
Proof.
  intros Hx Hl. induction Hl as [|y l Hy Hl IH]; simpl.
  - by constructor.
  - destruct (cmp x y <=? 0); repeat constructor; done.
Qed.

Lemma insertSorted_sorted (x : A) (l : list A) :
  P x → Forall P l →
  StronglySorted (λ a b, cmp a b <= 0) l →
  StronglySorted (λ a b, cmp a b <= 0) (insertSorted cmp x l).
Proof.
  intros Hx HP Hsorted.
  induction Hsorted as [|y l Hsorted IH Hy]; simpl.
  - repeat constructor.
  - inversion_clear HP as [|? ? HPy HPl].
    destruct (Z.leb_spec (cmp x y) 0) as [Hle|Hgt].
    + constructor; [by constructor|]. constructor; [done|].
      rewrite Forall_forall in Hy, HPl. apply Forall_forall.
      intros z Hz. apply (cmp_trans P cmp Hcons x y z); auto.
    + constructor; [by apply IH|].
      apply insertSorted_Forall; [|done].
      apply (cmp_flip P cmp Hcons x y) in Hgt; [lia|done..].
Qed.

Lemma Array_sort_Forall (R : A → Prop) (l : list A) :
  Forall R l → Forall R (Array_sort cmp l).
Proof.
  induction 1 as [|x l Hx Hl IH]; [constructor|].
  unfold Array_sort in *. simpl. by apply insertSorted_Forall.
Qed.

Lemma Array_sort_sorted (l : list A) :
  Forall P l → StronglySorted (λ a b, cmp a b <= 0) (Array_sort cmp l).
Proof.
  induction 1 as [|x l Hx Hl IH]; [constructor|].
  unfold Array_sort in *. simpl.
  apply insertSorted_sorted; [done| |done].
  by apply (Array_sort_Forall P l).
Qed.

End ArraySort.

Lemma StronglySorted_impl_on {A : Type} (P : A → Prop) (R R' : A → A → Prop)
    (l : list A) :
  (∀ a b, P a → P b → R a b → R' a b) →
  Forall P l → StronglySorted R l → StronglySorted R' l.
Proof.
  intros Himpl HP Hsorted.
  induction Hsorted as [|x l Hsorted IH Hx]; [constructor|].
  inversion_clear HP as [|? ? HPx HPl].
  constructor; [by apply IH|].
  rewrite Forall_forall in Hx, HPl. apply Forall_forall.
  intros y Hy. apply Himpl; auto.
Qed.

Section HandleSort.
Context `{Host}.

Lemma sortCompare_oldest (a b : PostElem) (ta tb : Z) :
  timeOf a = Some ta → timeOf b = Some tb →
  sortCompare (str "oldest") a b = ta - tb.
Proof.
  intros Ha Hb. unfold sortCompare, compareFn.
  change (eqb (str "oldest") (str "newest")) with false.
  change (eqb (str "oldest") (str "oldest")) with true.
  cbv iota. by rewrite Ha, Hb.
Qed.

Lemma sortCompare_newest (a b : PostElem) (ta tb : Z) :
  timeOf a = Some ta → timeOf b = Some tb →
  sortCompare (str "newest") a b = tb - ta.
Proof.
  intros Ha Hb. unfold sortCompare, compareFn.
  change (eqb (str "newest") (str "newest")) with true.
  cbv iota. by rewrite Ha, Hb.
Qed.

Lemma sortCompare_title (a b : PostElem) :
  sortCompare (str "title") a b = localeCompare (titleOf a) (titleOf b).
Proof. reflexivity. Qed.

Lemma oldest_consistent : ConsistentOn validDate (sortCompare (str "oldest")).
Proof.
  split.
  - intros a b [ta Ha] [tb Hb].
    rewrite (sortCompare_oldest a b ta tb), (sortCompare_oldest b a tb ta)
      by done. lia.
  - intros a b c [ta Ha] [tb Hb] [tc Hc].
    rewrite (sortCompare_oldest a b ta tb), (sortCompare_oldest b c tb tc),
      (sortCompare_oldest a c ta tc) by done. lia.
Qed.

Lemma title_consistent :
  Collation localeCompare →
  ConsistentOn (λ _, True) (sortCompare (str "title")).
Proof.
  intros [Hflip Htrans]. split.
  - intros a b _ _. rewrite !sortCompare_title. by apply Hflip.
  - intros a b c _ _ _. rewrite !sortCompare_title. by apply Htrans.
Qed.

Lemma handleSort_result (clock : nat → Z) (sortValue : jsstring)
    (userPosts defaultPosts : list PostElem) :
  handleSort clock sortValue
    {| userPostsContainer := Some userPosts;
       defaultPostsContainer := Some defaultPosts |}
  = {| userPostsContainer := Some [];
       defaultPostsContainer :=
         Some (Array_sort (sortCompare sortValue)
                 (allPostsOf clock userPosts defaultPosts)) |}.
Proof.
  unfold handleSort, allPostsOf. simpl. case_bool_decide as Hlen; [|done].
  apply length_zero_iff_nil in Hlen.
  apply app_eq_nil in Hlen as [-> Hdefault].
  destruct defaultPosts; [|done]. reflexivity.
Qed.

(** Sorting by the oldest first. *)
Lemma sort_oldest (l : list PostElem) :
  let sorted := Array_sort (sortCompare (str "oldest")) l in
  sorted ≡ₚ l ∧
  (Forall validDate l →
   StronglySorted olderOrSame sorted ∧
   ∀ t, filter (λ a, timeOf a = Some t) sorted
        = filter (λ a, timeOf a = Some t) l).
Proof.
  intros sorted. split; [apply Array_sort_perm|]. intros Hvalid. split.
  - apply (StronglySorted_impl_on validDate
             (λ a b, sortCompare (str "oldest") a b <= 0)).
    + intros a b [ta Ha] [tb Hb] Hle.
      rewrite (sortCompare_oldest a b ta tb) in Hle by done.
      exists ta, tb. repeat split; [done..|lia].
    + by apply Array_sort_Forall.
    + by apply (Array_sort_sorted _ validDate oldest_consistent).
  - intros t. apply Array_sort_stable.
    intros x y _ _ Hx Hy. rewrite (sortCompare_oldest x y t t) by done. lia.
Qed.

(** Sorting by title. *)
Lemma sort_title (l : list PostElem) :
  Collation localeCompare →
  let sorted := Array_sort (sortCompare (str "title")) l in
  sorted ≡ₚ l ∧
  StronglySorted titleBeforeOrSame sorted ∧
  ∀ x, filter (λ a, localeCompare x (titleOf a) = 0) sorted
       = filter (λ a, localeCompare x (titleOf a) = 0) l.
Proof.
  intros Hcoll sorted. split; [apply Array_sort_perm|]. split.
  - apply (Array_sort_sorted _ (λ _, True) (title_consistent Hcoll)).
    by apply Forall_true.
  - intros x. apply Array_sort_stable.
    intros a b _ _ Ha Hb. rewrite sortCompare_title.
    destruct Hcoll as [Hflip Htrans].
    apply (Htrans _ x _); try done; [|lia].
    destruct (Hflip (titleOf a) x I I) as [Hgt _]. lia.
Qed.

End HandleSort.

(** Comparison by code units is a collation order. *)
Lemma compareCodeUnits_collation : Collation compareCodeUnits.
Proof.
  split.
  - intros a. induction a as [|x a IH]; intros [|y b] _ _; simpl; try lia.
    rewrite (N.compare_antisym x y).
    destruct (x ?= y)%N; simpl; try lia. by apply IH.
  - intros a. induction a as [|x a IH]; intros [|y b] [|z c] _ _ _; simpl;
      try lia.
    destruct (N.compare_spec x y) as [->|Hxy|Hxy]; [|intros _|lia].
    + destruct (N.compare_spec y z) as [->|Hyz|Hyz]; [|lia..].
      by apply IH.
    + destruct (N.compare_spec y z) as [->|Hyz|Hyz]; [| |lia];
        intros _; destruct (N.compare_spec x z); lia.
Qed.

(** C9. With both containers in the page, [handleSort] leaves in the
    default container a permutation of all the articles. Sorted by "oldest",
    articles with valid dates are in ascending order of timestamp, and
    articles with the same timestamp keep their original order. Sorted by
    "title", they are in ascending order of title in the host's collation
    order, and articles whose titles collate as equal keep their original
    order. For the two articles B, dated t1, and A, dated t2 later than t1,
    in this order: "oldest" gives B, A and "title" gives A, B. *)
Theorem C9_sort_by_oldest_and_by_title :
  ∀ `{Host},
    Collation localeCompare →
    (∀ (clock : nat → Z) (userPosts defaultPosts : list PostElem),
       let c := {| userPostsContainer := Some userPosts;
                   defaultPostsContainer := Some defaultPosts |} in
       let allPosts := allPostsOf clock userPosts defaultPosts in
       (∃ sorted,
          handleSort clock (str "oldest") c
          = {| userPostsContainer := Some [];
               defaultPostsContainer := Some sorted |} ∧
          sorted ≡ₚ allPosts ∧
          (Forall validDate allPosts →
           StronglySorted olderOrSame sorted ∧
           ∀ t, filter (λ a, timeOf a = Some t) sorted
                = filter (λ a, timeOf a = Some t) allPosts)) ∧
       (∃ sorted,
          handleSort clock (str "title") c
          = {| userPostsContainer := Some [];
               defaultPostsContainer := Some sorted |} ∧
          sorted ≡ₚ allPosts ∧
          StronglySorted titleBeforeOrSame sorted ∧
          ∀ x, filter (λ a, localeCompare x (titleOf a) = 0) sorted
               = filter (λ a, localeCompare x (titleOf a) = 0) allPosts)) ∧
    (∀ (clock : nat → Z) (d1 d2 : jsstring) (t1 t2 : Z),
       d1 ≠ [] → d2 ≠ [] →
       Date_parse d1 = Some t1 → Date_parse d2 = Some t2 →
       t1 < t2 →
       localeCompare (str "A") (str "B") < 0 →
       let B := article d1 (str "B") in
       let A := article d2 (str "A") in
       let c := {| userPostsContainer := Some [B; A];
                   defaultPostsContainer := Some [] |} in
       handleSort clock (str "oldest") c
       = {| userPostsContainer := Some [];
            defaultPostsContainer := Some [B; A] |} ∧
       handleSort clock (str "title") c
       = {| userPostsContainer := Some [];
            defaultPostsContainer := Some [A; B] |}).
Proof.
  intros host Hcoll. split.
  - intros clock userPosts defaultPosts c allPosts. split.
    + exists (Array_sort (sortCompare (str "oldest")) allPosts).
      split; [apply handleSort_result|apply sort_oldest].
    + exists (Array_sort (sortCompare (str "title")) allPosts).
      split; [apply handleSort_result|by apply sort_title].
  - intros clock d1 d2 t1 t2 Hd1 Hd2 Hp1 Hp2 Hlt HAB B A c.
    assert (HtB : timeOf B = Some t1).
    { unfold timeOf, B. simpl. apply truthy_true_iff in Hd1. by rewrite Hd1. }
    assert (HtA : timeOf A = Some t2).
    { unfold timeOf, A. simpl. apply truthy_true_iff in Hd2. by rewrite Hd2. }
    unfold c. rewrite !handleSort_result. unfold allPostsOf, Array_sort.
    simpl. split; repeat f_equal.
    + rewrite (sortCompare_oldest B A t1 t2) by done.
      destruct (Z.leb_spec (t1 - t2) 0); [done|lia].
    + rewrite sortCompare_title.
      change (titleOf B) with (str "B"). change (titleOf A) with (str "A").
      destruct Hcoll as [Hflip _].
      destruct (Hflip (str "B") (str "A") I I) as [_ Hgt].
      destruct (Z.leb_spec (localeCompare (str "B") (str "A")) 0); [|done].
      specialize (Hgt HAB). lia.
Qed.

Lemma C9_sort_by_oldest_and_by_title_witness :
  let B := article (str "1") (str "B") in
  let A := article (str "2") (str "A") in
  let c := {| userPostsContainer := Some [B; A];
              defaultPostsContainer := Some [] |} in
  @handleSort simpleHost (λ _, 0) (str "oldest") c
  = {| userPostsContainer := Some [];
       defaultPostsContainer := Some [B; A] |} ∧
  @handleSort simpleHost (λ _, 0) (str "title") c
  = {| userPostsContainer := Some [];
       defaultPostsContainer := Some [A; B] |}.
Proof.
  intros B A c.
  destruct (@C9_sort_by_oldest_and_by_title simpleHost
              compareCodeUnits_collation) as [_ Hexample].
  apply (Hexample (λ _, 0) (str "1") (str "2") 1 2);
    try discriminate; try reflexivity.
Defined.

(** ** More on strings *)

Lemma trimStart_idem (s : jsstring) : trimStart (trimStart s) = trimStart s.
Proof.
  induction s as [|c s IH]; simpl; [done|].
  destruct (isWhiteSpace c) eqn:Hc; [done|]. simpl. by rewrite Hc.
Qed.

Lemma trimStart_head (s : jsstring) :
  trimStart s = [] ∨
  ∃ c t, trimStart s = c :: t ∧ isWhiteSpace c = false.
Proof.
  induction s as [|c s IH]; simpl; [by left|].
  destruct (isWhiteSpace c) eqn:Hc; [done|]. right. by exists c, s.
Qed.

Lemma trimStart_snoc (l : jsstring) (c : N) :
  isWhiteSpace c = false → trimStart (l ++ [c]) = trimStart l ++ [c].
Proof.
  intros Hc. induction l as [|x l IH]; simpl; [by rewrite Hc|].
  by destruct (isWhiteSpace x).
Qed.

Lemma trimEnd_cons (c : N) (x : jsstring) :
  isWhiteSpace c = false → trimEnd (c :: x) = c :: trimEnd x.
Proof.
  intros Hc. unfold trimEnd. simpl.
  rewrite trimStart_snoc by done. by rewrite rev_unit.
Qed.

Lemma trimEnd_idem (x : jsstring) : trimEnd (trimEnd x) = trimEnd x.
Proof. unfold trimEnd. by rewrite rev_involutive, trimStart_idem. Qed.

(** Trimming twice is trimming once. *)
Lemma trim_idem (s : jsstring) : trim (trim s) = trim s.
Proof.
  unfold trim. destruct (trimStart_head s) as [->|(c & t & -> & Hc)]; [done|].
  rewrite trimEnd_cons by done. simpl. rewrite Hc.
  by rewrite trimEnd_cons, trimEnd_idem.
Qed.

Lemma trim_cons_white (c : N) (s : jsstring) :
  isWhiteSpace c = true → trim (c :: s) = trim s.
Proof. intros Hc. unfold trim. simpl. by rewrite Hc. Qed.

Lemma trim_cons_space (s : jsstring) : trim (space :: s) = trim s.
Proof. by apply trim_cons_white. Qed.

(** Trimming takes units away and brings none in. *)
Lemma trimStart_elem_of (c : N) (s : jsstring) : c ∈ trimStart s → c ∈ s.
Proof.
  induction s as [|x s IH]; simpl; [done|].
  destruct (isWhiteSpace x); [|done]. intros Hc. right. by apply IH.
Qed.

Lemma trimEnd_elem_of (c : N) (s : jsstring) : c ∈ trimEnd s → c ∈ s.
Proof.
  unfold trimEnd. intros H.
  apply list_elem_of_In in H. rewrite <- in_rev in H.
  apply list_elem_of_In, trimStart_elem_of, list_elem_of_In in H.
  rewrite <- in_rev in H. by apply list_elem_of_In.
Qed.

Lemma trim_elem_of (c : N) (s : jsstring) : c ∈ trim s → c ∈ s.
Proof.
  unfold trim. intros H. by apply trimStart_elem_of, trimEnd_elem_of.
Qed.

(** [split] never gives the empty list; what was read so far goes in front
    of the first part. *)
Lemma split_from_cur (sep : N) (cur s : jsstring) :
  split_from sep cur s
  = match split sep s with
    | [] => [rev cur]
    | part :: parts => (rev cur ++ part) :: parts
    end.
Proof.
  unfold split. revert cur. induction s as [|c s IH]; intros cur; simpl.
  - by rewrite app_nil_r.
  - destruct (c =? sep)%N.
    + by rewrite app_nil_r.
    + rewrite (IH (c :: cur)), (IH [c]). simpl.
      destruct (split_from sep [] s); simpl; [done|].
      by rewrite <- app_assoc.
Qed.

Lemma split_cons_sep (sep : N) (s : jsstring) :
  split sep (sep :: s) = [] :: split sep s.
Proof. unfold split. simpl. by rewrite N.eqb_refl. Qed.

Lemma split_cons_other (sep c : N) (s : jsstring) :
  c ≠ sep →
  split sep (c :: s)
  = match split sep s with
    | [] => [[c]]
    | part :: parts => (c :: part) :: parts
    end.
Proof.
  intros Hc. unfold split at 1. simpl.
  apply N.eqb_neq in Hc. rewrite Hc. by rewrite split_from_cur.
Qed.

Lemma split_not_nil (sep : N) (s : jsstring) : split sep s ≠ [].
Proof.
  destruct s as [|c s]; [done|].
  destruct (decide (c = sep)) as [->|Hc].
  - by rewrite split_cons_sep.
  - rewrite split_cons_other by done. by destruct (split sep s).
Qed.

(** A text without the separator is its own single part. *)
Lemma split_no_sep (sep : N) (a : jsstring) : sep ∉ a → split sep a = [a].
Proof.
  induction a as [|c a IH]; intros Ha; [done|].
  apply not_elem_of_cons in Ha as [Hc Ha].
  rewrite split_cons_other by done. by rewrite IH.
Qed.

(** The first part ends at the first separator. *)
Lemma split_app_sep (sep : N) (a b : jsstring) :
  sep ∉ a → split sep (a ++ sep :: b) = a :: split sep b.
Proof.
  induction a as [|c a IH]; intros Ha; simpl.
  - apply split_cons_sep.
  - apply not_elem_of_cons in Ha as [Hc Ha].
    rewrite split_cons_other by done. by rewrite IH.
Qed.

Lemma split_parts_no_sep (sep : N) (s part : jsstring) :
  part ∈ split sep s → sep ∉ part.
Proof.
  revert part. induction s as [|c s IH]; intros part Hpart.
  - apply list_elem_of_singleton in Hpart as ->. apply not_elem_of_nil.
  - destruct (decide (c = sep)) as [->|Hc].
    + rewrite split_cons_sep in Hpart.
      apply elem_of_cons in Hpart as [->|Hpart];
        [apply not_elem_of_nil|by apply IH].
    + rewrite split_cons_other in Hpart by done.
      destruct (split sep s) as [|p ps] eqn:Hs.
      * apply list_elem_of_singleton in Hpart as ->.
        apply not_elem_of_cons. split; [done|apply not_elem_of_nil].
      * apply elem_of_cons in Hpart as [->|Hpart].
        -- apply not_elem_of_cons. split; [done|]. apply IH. by left.
        -- apply IH. by right.
Qed.

(** There is one part more than there are separators. *)
Lemma length_split (sep : N) (s : list N) :
  length (split sep s) = S (length (filter (λ c, c = sep) s)).
Proof.
  induction s as [|c s IH]; [done|].
  rewrite filter_cons. destruct (decide (c = sep)) as [->|Hc].
  - rewrite split_cons_sep. simpl. by rewrite IH.
  - rewrite split_cons_other by done.
    destruct (split sep s); simpl in *; done.
Qed.

Lemma join_cons_cons (sep a b : jsstring) (l : list jsstring) :
  join sep (a :: b :: l) = a ++ sep ++ join sep (b :: l).
Proof. done. Qed.

(** Joining the parts with the separator gives the text back. *)
Lemma join_split (sep : N) (s : jsstring) : join [sep] (split sep s) = s.
Proof.
  induction s as [|c s IH]; [done|].
  destruct (decide (c = sep)) as [->|Hc].
  - rewrite split_cons_sep.
    destruct (split sep s) as [|p ps] eqn:Hs;
      [by destruct (split_not_nil sep s)|].
    by rewrite join_cons_cons, IH.
  - rewrite split_cons_other by done.
    destruct (split sep s) as [|p ps] eqn:Hs;
      [by destruct (split_not_nil sep s)|].
    destruct ps as [|q ps].
    + simpl in *. by rewrite IH.
    + rewrite join_cons_cons in *. simpl. f_equal. exact IH.
Qed.

(** Splitting what was joined gives the parts back, when there is a part
    and no part holds the separator. *)
Lemma split_join (sep : N) (l : list jsstring) :
  l ≠ [] → Forall (λ part, sep ∉ part) l → split sep (join [sep] l) = l.
Proof.
  intros Hne Hl. induction Hl as [|a l Ha Hl IH]; [done|].
  destruct l as [|b l].
  - simpl. by apply split_no_sep.
  - rewrite join_cons_cons.
    change ([sep] ++ join [sep] (b :: l)) with (sep :: join [sep] (b :: l)).
    rewrite split_app_sep by done. by rewrite IH.
Qed.

(** ** What a submit accepts *)

Lemma existsb_eqb (x : jsstring) (l : list jsstring) :
  existsb (eqb x) l = true ↔ x ∈ l.
Proof.
  rewrite existsb_exists. unfold eqb. split.
  - intros (y & Hy & Heq). apply bool_decide_eq_true in Heq as ->.
    by apply list_elem_of_In.
  - intros Hx. exists x. split; [by apply list_elem_of_In|].
    by apply bool_decide_eq_true.
Qed.

Lemma validateImageFile_None (file : File) :
  validateImageFile file = None ↔
  type file ∈ allowedTypes ∧ size file <= maxImageSize.
Proof.
  unfold validateImageFile.
  destruct (existsb (eqb (type file)) allowedTypes) eqn:Htype; simpl.
  - apply existsb_eqb in Htype.
    destruct (Z.ltb_spec maxImageSize (size file)); split; try done.
    intros [_ Hsize]. lia.
  - split; [done|]. intros [Htype' _]. apply existsb_eqb in Htype'.
    congruence.
Qed.

Lemma checkImage_showError (editing : bool) (msg : jsstring) (d : Dom.t) :
  checkImage editing (showError msg d) = checkImage editing d.
Proof.
  unfold checkImage, selectedFile, showError.
  by destruct (Dom.formError d).
Qed.

(** X1. [validateForm] accepts a form exactly when each of the four required
    controls exists with a value that is not blank and, for the image, either
    a file is selected whose type is PNG, JPEG or JPG and whose size is at
    most 5 * 1024 * 1024 bytes (that size included), or no file is selected
    and the session is editing. *)
Theorem X1_validateForm_accepts_iff :
  ∀ s : State,
    snd (validateForm s) = true ↔
      (∀ g, g ∈ requiredFields → fieldOk (dom s) g) ∧
      match selectedFile (dom s) with
      | Some file =>
          type file ∈ [str "image/png"; str "image/jpeg"; str "image/jpg"] ∧
          size file <= 5 * 1024 * 1024
      | None => currentEditIndex s ≠ None
      end.
Proof.
  intros s.
  unfold validateForm. rewrite checkRequired_showError.
  destruct (checkRequired (dom s) requiredFields) as [msg|] eqn:Hreq.
  - simpl. split; [done|]. intros [Hok _].
    by rewrite checkRequired_all_ok in Hreq.
  - pose proof (checkRequired_None_ok _ _ Hreq) as Hok.
    rewrite checkImage_showError. unfold checkImage.
    destruct (selectedFile (dom s)) as [file|].
    + destruct (validateImageFile file) as [msg|] eqn:Hfile; simpl.
      * split; [done|]. intros [_ Hvalid].
        apply validateImageFile_None in Hvalid. congruence.
      * split; [|done]. intros _. split; [done|].
        by apply validateImageFile_None.
    + case_bool_decide as Hmode; simpl; split; try done.
      by intros [_ ?].
Qed.

(** X2. In create mode a file of no bytes passes [validateForm]
    when its type is allowed, but [handleSubmit] treats it as no image: no
    read is started, no post is created, the error text asks to select an
    image file and the session stays in create mode with its draft. *)
Theorem X2_empty_image_creates_nothing :
  ∀ (tData tEdit : Z) (s : State) (file : File),
    currentEditIndex s = None →
    snd (validateForm s) = true →
    selectedFile (dom s) = Some file →
    size file = 0 →
    let s' := fst (handleSubmit tData tEdit s) in
    snd (handleSubmit tData tEdit s) = None ∧
    posts s' = posts s ∧
    currentEditIndex s' = None ∧
    formDraft s' = formDraft s ∧
    Dom.formError (dom s')
    = (λ _, str "Please select an image file.") <$> Dom.formError (dom s).
Proof.
  intros tData tEdit s file Hmode Hvalid Hfile Hsize.
  pose proof (validateForm_valid_dom s Hvalid) as Hs1.
  unfold handleSubmit.
  destruct (validateForm s) as [s1 valid]. simpl in *. subst.
  simpl. unfold nonEmptyImage. simpl.
  assert (Himg : Dom.postImage (showError [] (dom s)) = Dom.postImage (dom s)).
  { unfold showError. by destruct (Dom.formError (dom s)). }
  rewrite Himg. unfold selectedFile in Hfile.
  destruct (Dom.postImage (dom s)) as [input|]; [|done]. simpl in *.
  rewrite Hfile. simpl. rewrite Hsize. simpl. rewrite Hmode. simpl.
  repeat split; try done.
  unfold showError. destruct (Dom.formError (dom s)) eqn:E; simpl;
    by rewrite ?E.
Qed.

Lemma X2_empty_image_creates_nothing_witness :
  let s := initial (formWith (str "A") (str "food") (str "T") (str "E") []
                      (Some (pngFile 0))) None in
  snd (validateForm s) = true ∧
  snd (handleSubmit 10 11 s) = None ∧
  posts (fst (handleSubmit 10 11 s)) = [].
Proof.
  intros s.
  destruct (X2_empty_image_creates_nothing 10 11 s (pngFile 0)
              eq_refl eq_refl eq_refl eq_refl) as (Hread & Hposts & _).
  split; [reflexivity|]. split; [exact Hread|exact Hposts].
Defined.

(** X3. A submit made while the session is editing a position that holds no
    post is dropped without a message: the posts are unchanged, the session
    is back in create mode, the error text is empty and no read is started.
    A read that completes in that situation is dropped in the same way. *)
Theorem X3_edit_of_missing_post_is_dropped :
  ∀ (tData tEdit : Z) (s : State) (index : Z),
    currentEditIndex s = Some index →
    postAt (posts s) index = None →
    (snd (validateForm s) = true →
     selectedFile (dom s) = None →
     let s' := fst (handleSubmit tData tEdit s) in
     snd (handleSubmit tData tEdit s) = None ∧
     posts s' = posts s ∧
     currentEditIndex s' = None ∧
     Dom.formError (dom s') = (λ _, []) <$> Dom.formError (dom s)) ∧
    (∀ formData result,
       let s' := reader_onload formData result tData tEdit s in
       posts s' = posts s ∧
       currentEditIndex s' = None ∧
       Dom.formError (dom s') = Dom.formError (dom s)).
Proof.
  intros tData tEdit s index Hmode Hmissing. split.
  - intros Hvalid Hfile.
    pose proof (validateForm_valid_dom s Hvalid) as Hs1.
    unfold handleSubmit.
    destruct (validateForm s) as [s1 valid]. simpl in *. subst.
    simpl. unfold nonEmptyImage. simpl.
    assert (Himg : Dom.postImage (showError [] (dom s))
                   = Dom.postImage (dom s)).
    { unfold showError. by destruct (Dom.formError (dom s)). }
    rewrite Himg. unfold selectedFile in Hfile.
    destruct (Dom.postImage (dom s)) as [input|]; simpl in *.
    + rewrite Hfile. simpl. rewrite Hmode. simpl.
      rewrite updatePost_missing by done. simpl. repeat split.
      unfold showError. destruct (Dom.formError (dom s)) eqn:E; simpl;
        by rewrite ?E.
    + rewrite Hmode. simpl.
      rewrite updatePost_missing by done. simpl. repeat split.
      unfold showError. destruct (Dom.formError (dom s)) eqn:E; simpl;
        by rewrite ?E.
  - intros formData result s'. unfold s', reader_onload. rewrite Hmode.
    by rewrite updatePost_missing.
Qed.

Lemma X3_edit_of_missing_post_is_dropped_witness :
  let s := openEditModal 0
             (initial (formWith (str "A") (str "food") (str "T") (str "E") []
                         None) None) in
  snd (handleSubmit 10 11 s) = None ∧
  posts (fst (handleSubmit 10 11 s)) = [] ∧
  currentEditIndex (fst (handleSubmit 10 11 s)) = None.
Proof.
  intros s.
  destruct (X3_edit_of_missing_post_is_dropped 10 11 s 0 eq_refl eq_refl)
    as (Hsubmit & _).
  destruct (Hsubmit eq_refl eq_refl) as (Hread & Hposts & Hmode & _).
  split; [exact Hread|]. split; [exact Hposts|exact Hmode].
Defined.

(** X4. The extra check of the excerpt in the [validateForm] of part_000 can
    never reject: whenever the loop over the required fields passes, the
    excerpt is not blank. The two files validate every form alike, in the
    result and in the error text they leave. *)
Theorem X4_excerpt_check_of_part_000_is_dead :
  (∀ d : Dom.t,
     checkRequired d requiredFields = None → checkExcerpt d = None) ∧
  (∀ s : State, validateForm_fetch s = validateForm s).
Proof.
  split; [|exact validateForm_fetch_eq].
  intros d Hreq.
  assert (Hok : fieldOk d postExcerpt).
  { eapply checkRequired_None_ok; [done|]. unfold requiredFields.
    repeat constructor. }
  destruct Hok as (input & Hget & Hval). unfold checkExcerpt.
  simpl in Hget. rewrite Hget.
  apply truthy_true_iff in Hval. by rewrite Hval.
Qed.

Lemma X4_excerpt_check_of_part_000_is_dead_witness :
  checkExcerpt exampleForm = None.
Proof.
  apply (proj1 X4_excerpt_check_of_part_000_is_dead). reflexivity.
Defined.

(** ** Deleting while a post is being edited *)

Lemma deletePost_live (index : Z) (s : State) (victim : Post.t) :
  postAt (posts s) index = Some victim →
  deletePost index true s = set_posts (delete (Z.to_nat index) (posts s)) s.
Proof. unfold deletePost. by intros ->. Qed.

(** X5. [deletePost] never touches the edit session: whatever the index
    and the answer to the confirmation, the mode, the draft, the selected
    attribution, the form and the session storage are as before. So when a
    post in front of the edited one is deleted, the session keeps its index,
    which now names the post that came after the edited one; the edited post
    has moved one position up, and the update that completes afterwards is
    written over the other post. *)
Theorem X5_delete_shifts_the_edited_post :
  (∀ (s : State) (index : Z) (confirmed : bool),
     let s' := deletePost index confirmed s in
     currentEditIndex s' = currentEditIndex s ∧
     formDraft s' = formDraft s ∧
     selectedImageAttribution s' = selectedImageAttribution s ∧
     dom s' = dom s ∧
     sessionStorage s' = sessionStorage s) ∧
  (∀ (s : State) (index j : Z) (p q : Post.t),
     currentEditIndex s = Some index →
     0 <= j < index →
     postAt (posts s) index = Some p →
     postAt (posts s) (index + 1) = Some q →
     let s' := deletePost j true s in
     currentEditIndex s' = Some index ∧
     postAt (posts s') (index - 1) = Some p ∧
     postAt (posts s') index = Some q ∧
     ∀ formData result tData tEdit,
       let s'' := reader_onload formData result tData tEdit s' in
       postAt (posts s'') (index - 1) = Some p ∧
       postAt (posts s'') index
       = Some (mergePost q (createPostData formData (Some result) tData)
                 tEdit)).
Proof.
  split.
  { intros s index confirmed s'. unfold s', deletePost.
    destruct (postAt (posts s) index); [destruct confirmed|]; done. }
  intros s index j p q Hmode Hj Hp Hq s'.
  assert (Hlive : ∃ victim, postAt (posts s) j = Some victim).
  { apply postAt_Some in Hp as [_ Hp]. apply lookup_lt_Some in Hp.
    destruct (lookup_lt_is_Some_2 (posts s) (Z.to_nat j)) as [victim Hv];
      [lia|].
    exists victim. apply postAt_Some. split; [lia|done]. }
  destruct Hlive as [victim Hvictim].
  assert (Hs' : s' = set_posts (delete (Z.to_nat j) (posts s)) s)
    by by eapply deletePost_live.
  assert (Hp' : postAt (posts s') (index - 1) = Some p).
  { rewrite Hs'. simpl. rewrite postAt_delete_gt by lia. done. }
  assert (Hq' : postAt (posts s') index = Some q).
  { rewrite Hs'. simpl.
    replace index with (index + 1 - 1) at 1 by lia.
    rewrite postAt_delete_gt by lia. done. }
  assert (Hmode' : currentEditIndex s' = Some index) by by rewrite Hs'.
  split; [done|]. split; [done|]. split; [done|].
  intros formData result tData tEdit s''.
  unfold s'', reader_onload. rewrite Hmode'. simpl.
  unfold updatePost. rewrite Hq'. simpl. split.
  - rewrite postAt_insert_ne by lia. done.
  - by erewrite postAt_insert_eq.
Qed.

Lemma X5_delete_shifts_the_edited_post_witness :
  let s := openEditModal 1 threePosts in
  let s' := deletePost 0 true s in
  currentEditIndex s' = Some 1 ∧
  (Post.date <$> postAt (posts s) 1) = Some 2 ∧
  (Post.date <$> postAt (posts s') 0) = Some 2 ∧
  (Post.date <$> postAt (posts s') 1) = Some 1.
Proof.
  intros s s'.
  destruct X5_delete_shifts_the_edited_post as [_ Hshift].
  destruct (Hshift s 1 0 _ _ eq_refl ltac:(lia) eq_refl eq_refl)
    as (Hmode & Hp & Hq & _).
  split; [exact Hmode|]. split; [reflexivity|].
  change (1 - 1) with 0 in Hp. fold s' in Hp, Hq.
  rewrite Hp, Hq. split; reflexivity.
Defined.

(** ** Autosave policies of the two files *)

Lemma hasUnsavedChanges_false_saveFormDraft (now : Z) (s : State) :
  truthy (hasUnsavedChanges (dom s)) = false → saveFormDraft now s = s.
Proof.
  intros Hblank. unfold saveFormDraft. rewrite Hblank.
  by destruct (currentEditIndex s).
Qed.

Lemma hasUnsavedChanges_withoutContent (d : Dom.t) :
  truthy (hasUnsavedChanges d) = false ↔ withoutContent d.
Proof.
  unfold hasUnsavedChanges, withoutContent.
  rewrite !truthy_or_else, !orb_false_iff, !truthy_false_iff. tauto.
Qed.

(** X6. In blog.js an autosave never writes for a form without content:
    while the author, the title, the excerpt and the tags are blank and the
    category is empty, no sequence of autosave fires changes the manager, so
    no draft of an empty form is ever stored. And only then: in create mode
    with no draft in memory, a fire leaves the manager as it is exactly when
    the form is without content. *)
Theorem X6_blank_form_is_never_saved :
  (∀ (times : list Z) (s : State),
     withoutContent (dom s) →
     run JQuery (autosaves times) s = s) ∧
  (∀ (now : Z) (s : State),
     currentEditIndex s = None →
     formDraft s = None →
     autosaveFire JQuery now s = s ↔ withoutContent (dom s)).
Proof.
  split.
  - intros times s Hblank%hasUnsavedChanges_withoutContent. unfold autosaves.
    induction times as [|now times IH]; [done|].
    simpl. unfold autosaveFire. simpl.
    rewrite hasUnsavedChanges_false_saveFormDraft by done.
    destruct (currentEditIndex s); exact IH.
  - intros now s Hmode Hdraft.
    rewrite <- hasUnsavedChanges_withoutContent.
    unfold autosaveFire. rewrite Hmode. simpl. split.
    + intros Hsame.
      destruct (truthy (hasUnsavedChanges (dom s))) eqn:Hchanges; [|done].
      rewrite saveFormDraft_writes in Hsame; [|done..|by rewrite Hdraft].
      apply (f_equal formDraft) in Hsame. simpl in Hsame. congruence.
    + by apply hasUnsavedChanges_false_saveFormDraft.
Qed.

Lemma X6_blank_form_is_never_saved_witness :
  let s := initial blankForm (Some emptyStorage) in
  formDraft (run JQuery (autosaves [2000; 4000; 6000]) s) = None.
Proof.
  intros s.
  destruct X6_blank_form_is_never_saved as [Hnever _].
  assert (Hblank : withoutContent (dom s)) by (repeat split).
  by rewrite (Hnever [2000; 4000; 6000] s Hblank).
Defined.

(** X7. In part_000 every autosave fire in create mode writes, whatever the
    form holds, a blank form included: afterwards the store holds a draft
    stamped with the time of the fire and, when the session storage is absent
    or takes the write, the next [loadFormDraft] within 7 days reports a
    restored draft. *)
Theorem X7_fetch_variant_saves_every_fire :
  ∀ (now now' : Z) (s : State),
    currentEditIndex s = None →
    let s1 := autosaveFire Fetch now s in
    (Draft.savedAt <$> formDraft s1) = Some now ∧
    ((∀ st, sessionStorage s = Some st → quotaExceeded st = false) →
     now' - now <= 7 * msPerDay →
     (Draft.savedAt <$> pendingDraft s1) = Some now ∧
     snd (loadFormDraft now' s1) = true).
Proof.
  intros now now' s Hmode s1.
  assert (Hs1 : s1 = storeDraft (attachPreview (dom s) (draftOfForm now s)) s).
  { unfold s1, autosaveFire. rewrite Hmode. simpl.
    unfold saveFormDraft_fetch. by rewrite Hmode. }
  assert (Hsaved : (Draft.savedAt <$> formDraft s1) = Some now).
  { rewrite Hs1. simpl. by rewrite attachPreview_savedAt. }
  split; [exact Hsaved|]. intros Hquota Hnow.
  assert (Hpending : pendingDraft s1 = formDraft s1).
  { rewrite Hs1. unfold pendingDraft. simpl.
    destruct (sessionStorage s) as [st|] eqn:Hst; [|done]. simpl.
    unfold setItem. by rewrite (Hquota st eq_refl). }
  rewrite Hpending. split; [exact Hsaved|].
  destruct (formDraft s1) as [formData|] eqn:Hdraft; [|done].
  simpl in Hsaved. injection Hsaved as Hsaved.
  assert (Hexp : expired now' (Draft.savedAt formData) = false).
  { unfold expired. apply Z.ltb_ge. lia. }
  by destruct (loadFormDraft_fresh now' s1 formData Hpending Hexp).
Qed.

Lemma X7_fetch_variant_saves_every_fire_witness :
  let s := initial blankForm (Some emptyStorage) in
  let s1 := autosaveFire Fetch 2000 s in
  (Draft.savedAt <$> formDraft s1) = Some 2000 ∧
  snd (loadFormDraft 5000 s1) = true.
Proof.
  intros s s1.
  destruct (X7_fetch_variant_saves_every_fire 2000 5000 s eq_refl)
    as (Hsaved & Hload).
  split; [exact Hsaved|].
  apply Hload; [|vm_compute; discriminate].
  intros st Hst. injection Hst as <-. reflexivity.
Defined.

(** ** The two copies of the draft *)


Lemma mirrors_no_draft (s : State) :
  formDraft s = None → memoryMirrorsSession s.
Proof. intros Hnone st _ _ Hsome. by rewrite Hnone in Hsome. Qed.








Lemma draftValue_attachPreview (d : Dom.t) (formData : Draft.t) (f : FieldId) :
  draftValue (attachPreview d formData) f = draftValue formData f.
Proof. unfold attachPreview. repeat case_match; by destruct f. Qed.

Lemma draftValue_draftOfForm (now : Z) (s : State) (f : FieldId) :
  draftValue (draftOfForm now s) f = fieldValue (dom s) f.
Proof. by destruct f. Qed.

Lemma pendingDraft_storeDraft (formData : Draft.t) (s : State) :
  (∀ st, sessionStorage s = Some st → quotaExceeded st = false) →
  pendingDraft (storeDraft formData s) = Some formData.
Proof.
  intros Hquota. unfold pendingDraft. simpl.
  destruct (sessionStorage s) as [st|]; [|done]. simpl.
  unfold setItem. by rewrite (Hquota st eq_refl).
Qed.

(** What an autosave fire leaves to be loaded, when the storage is absent or
    takes writes: a draft stamped with the time of the fire that holds the
    values of the form. *)
Lemma autosaveFire_pending (v : Variant) (now : Z) (s : State) :
  currentEditIndex s = None →
  (v = JQuery → truthy (hasUnsavedChanges (dom s)) = true) →
  (∀ st, sessionStorage s = Some st → quotaExceeded st = false) →
  memoryMirrorsSession s →
  let s1 := autosaveFire v now s in
  dom s1 = dom s ∧ currentEditIndex s1 = None ∧
  ∃ formData,
    pendingDraft s1 = Some formData ∧
    Draft.savedAt formData = now ∧
    ∀ f, draftValue formData f = fieldValue (dom s) f.
Proof.
  intros Hmode Hchanges Hquota Hmirror s1.
  assert (Hwritten : ∀ s', s' = storeDraft
                             (attachPreview (dom s) (draftOfForm now s)) s →
    dom s' = dom s ∧ currentEditIndex s' = None ∧
    ∃ formData,
      pendingDraft s' = Some formData ∧
      Draft.savedAt formData = now ∧
      ∀ f, draftValue formData f = fieldValue (dom s) f).
  { intros s' ->. split; [done|]. split; [done|].
    exists (attachPreview (dom s) (draftOfForm now s)).
    split; [by apply pendingDraft_storeDraft|].
    split; [by rewrite attachPreview_savedAt|].
    intros f. by rewrite draftValue_attachPreview, draftValue_draftOfForm. }
  unfold s1, autosaveFire. rewrite Hmode. destruct v; simpl.
  - unfold saveFormDraft. rewrite Hmode, (Hchanges eq_refl). simpl.
    destruct (sameAsLastSave _ _) eqn:Hsame; [|by apply Hwritten].
    destruct (formDraft s) as [d|] eqn:Hd; [|done].
    apply sameAsLastSave_true in Hsame.
    split; [done|]. split; [done|]. exists d.
    split; [|split; [by rewrite <- Hsame|]].
    + unfold pendingDraft.
      destruct (sessionStorage s) as [st|] eqn:Hst; [|done]. simpl.
      rewrite (Hmirror st Hst (Hquota st eq_refl)); by rewrite Hd.
    + intros f. rewrite <- Hsame. apply draftValue_draftOfForm.
  - unfold saveFormDraft_fetch. rewrite Hmode. by apply Hwritten.
Qed.

(** X9. Saving and reopening gives the form back. In create mode, with the
    five controls in the form and empty default values, after an autosave
    fire (in blog.js, of a form with content) the next [openCreateModal]
    within 7 days leaves every control with the value it had when the
    autosave fired; what was typed after the fire and not saved is replaced.
    The session storage is absent or takes writes. *)
Theorem X9_saved_form_comes_back :
  ∀ (v : Variant) (now now' : Z) (s : State),
    currentEditIndex s = None →
    (v = JQuery → truthy (hasUnsavedChanges (dom s)) = true) →
    (∀ f, ∃ input, getField (dom s) f = Some input ∧ defaultValue input = []) →
    (∀ st, sessionStorage s = Some st → quotaExceeded st = false) →
    memoryMirrorsSession s →
    now' - now <= 7 * msPerDay →
    ∀ (typed : list (FieldId * jsstring)),
      let s1 := autosaveFire v now s in
      let s2 := foldl (λ st e, with_dom (writeField e.1 e.2) st) s1 typed in
      let s' := openCreateModal now' (closeModals s2) in
      currentEditIndex s' = None ∧
      ∀ f, fieldValue (dom s') f = fieldValue (dom s) f.
Proof.
  intros v now now' s Hmode Hchanges Hcontrols Hquota Hmirror Hnow typed
    s1 s2 s'.
  destruct (autosaveFire_pending v now s Hmode Hchanges Hquota Hmirror)
    as (Hdom & Hmode1 & formData & Hpending & Hsaved & Hvalues).
  fold s1 in Hdom, Hmode1, Hpending.
  assert (Htyped : ∀ st0,
    let st1 := foldl (λ st e, with_dom (writeField e.1 e.2) st) st0 typed in
    pendingDraft st1 = pendingDraft st0 ∧
    ∀ f, ∃ input, getField (dom st1) f
                  = (λ i, {| value := input; defaultValue := defaultValue i;
                             label := label i |}) <$> getField (dom st0) f).
  { induction typed as [|[k x] typed IH]; intros st0; simpl.
    - split; [done|]. intros f. destruct (getField (dom st0) f) as [i|].
      + exists (value i). by destruct i.
      + by exists [].
    - destruct (IH (with_dom (writeField k x) st0)) as [Hp Hf].
      split; [by rewrite Hp|]. intros f. destruct (Hf f) as [input Hinput].
      exists input. rewrite Hinput. simpl. rewrite getField_writeField.
      case_decide; [|done]. by destruct (getField (dom st0) f). }
  destruct (Htyped s1) as [Hp2 Hf2]. fold s2 in Hp2, Hf2.
  assert (Hpending' : pendingDraft (closeModals s2) = Some formData).
  { unfold pendingDraft in *. simpl. by rewrite Hp2. }
  assert (Hcontrols' : ∀ f, ∃ input,
            getField (dom (closeModals s2)) f = Some input ∧
            defaultValue input = []).
  { intros f. destruct (Hf2 f) as [x Hx]. destruct (Hcontrols f)
      as (input & Hget & Hdefault).
    assert (Hclose : getField (dom (closeModals s2)) f = getField (dom s2) f)
      by by destruct f.
    rewrite Hclose, Hx, Hdom, Hget. simpl. eauto. }
  destruct (openCreateModal_restores_draft now' (closeModals s2) formData
              Hpending' ltac:(lia) Hcontrols') as [Hmode' Hfields].
  split; [exact Hmode'|]. intros f. fold s'  in Hfields.
  by rewrite Hfields, Hvalues.
Qed.

Lemma X9_saved_form_comes_back_witness :
  let s := with_dom (writeField postTitle (str "T"))
             (initial blankForm (Some emptyStorage)) in
  let s1 := autosaveFire JQuery 1000 s in
  let s2 := with_dom (writeField postTitle (str "changed")) s1 in
  let s' := openCreateModal 5000 (closeModals s2) in
  fieldValue (dom s') postTitle = str "T".
Proof.
  intros s s1 s2 s'.
  destruct (X9_saved_form_comes_back JQuery 1000 5000 s) with
    (typed := [(postTitle, str "changed")]) as [_ Hfields].
  - reflexivity.
  - reflexivity.
  - intros f. destruct f; eexists; split; reflexivity.
  - intros st Hst. injection Hst as <-. reflexivity.
  - by apply mirrors_no_draft.
  - vm_compute. discriminate.
  - exact (Hfields postTitle).
Defined.

Lemma autosaveFire_writes (v : Variant) (now : Z) (s : State) :
  currentEditIndex s = None →
  (v = JQuery →
   truthy (hasUnsavedChanges (dom s)) = true ∧
   ∀ d, formDraft s = Some d → Draft.savedAt d ≠ now) →
  autosaveFire v now s
  = storeDraft (attachPreview (dom s) (draftOfForm now s)) s.
Proof.
  intros Hmode Hjq. unfold autosaveFire. rewrite Hmode. destruct v; simpl.
  - destruct (Hjq eq_refl) as [Hchanges Hstamp].
    apply saveFormDraft_writes; [done..|].
    destruct (sameAsLastSave _ _) eqn:Hsame; [|done].
    destruct (formDraft s) as [d|] eqn:Hd; [|done].
    apply sameAsLastSave_true in Hsame.
    destruct (Hstamp d eq_refl). by rewrite <- Hsame.
  - unfold saveFormDraft_fetch. by rewrite Hmode.
Qed.

(** X10. When [setItem] throws, the draft is kept in memory only and the
    session storage keeps the item it had. [loadFormDraft] reads the session
    storage first: if that older item has not expired, it replaces the newer
    draft in memory. In blog.js the fire is one that writes: the form has
    content and the last save was at another time. *)
Theorem X10_stale_session_copy_wins :
  ∀ (v : Variant) (now now' : Z) (s : State) (st : Storage) (old : Draft.t),
    currentEditIndex s = None →
    (v = JQuery →
     truthy (hasUnsavedChanges (dom s)) = true ∧
     ∀ d, formDraft s = Some d → Draft.savedAt d ≠ now) →
    sessionStorage s = Some st →
    quotaExceeded st = true →
    blogFormDraft st = Some old →
    now' - Draft.savedAt old <= 7 * msPerDay →
    let s1 := autosaveFire v now s in
    let s2 := fst (loadFormDraft now' s1) in
    (Draft.savedAt <$> formDraft s1) = Some now ∧
    (∀ f, (λ d, draftValue d f) <$> formDraft s1
          = Some (fieldValue (dom s) f)) ∧
    sessionStorage s1 = Some st ∧
    formDraft s2 = Some old ∧
    snd (loadFormDraft now' s1) = true.
Proof.
  intros v now now' s st old Hmode Hjq Hst Hquota Hitem Hnow s1 s2.
  assert (Hs1 : s1 = storeDraft (attachPreview (dom s) (draftOfForm now s)) s)
    by by apply autosaveFire_writes.
  assert (Hsession : sessionStorage s1 = Some st).
  { rewrite Hs1. simpl. rewrite Hst. simpl. unfold setItem.
    by rewrite Hquota. }
  assert (Hpending : pendingDraft s1 = Some old).
  { unfold pendingDraft. rewrite Hsession. simpl. by rewrite Hitem. }
  assert (Hexp : expired now' (Draft.savedAt old) = false).
  { unfold expired. apply Z.ltb_ge. lia. }
  destruct (loadFormDraft_fresh now' s1 old Hpending Hexp)
    as (Hret & Hdraft & _).
  split; [rewrite Hs1; simpl; by rewrite attachPreview_savedAt|].
  split; [|done].
  intros f. rewrite Hs1. simpl.
  by rewrite draftValue_attachPreview, draftValue_draftOfForm.
Qed.

Lemma X10_stale_session_copy_wins_witness :
  let st := {| blogFormDraft := Some exampleDraft; quotaExceeded := true |} in
  let s := with_dom (writeField postTitle (str "newer"))
             (initial blankForm (Some st)) in
  let s1 := autosaveFire JQuery 1000 s in
  ((λ d, draftValue d postTitle) <$> formDraft s1) = Some (str "newer") ∧
  ((λ d, draftValue d postTitle) <$> formDraft (fst (loadFormDraft 2000 s1)))
  = Some (str "T").
Proof.
  intros st s s1.
  destruct (X10_stale_session_copy_wins JQuery 1000 2000 s st exampleDraft
              eq_refl)
    as (_ & Hnew & _ & Hold & _); try reflexivity.
  - intros _. split; [reflexivity|]. intros d Hd. discriminate Hd.
  - vm_compute. discriminate.
  - split; [exact (Hnew postTitle)|].
    fold s1 in Hold. by rewrite Hold.
Defined.

(** ** Publishing twice *)

(** X11. The attribution of the selected image goes to one post only. Of
    two publishes in a row, the first post gets the attribution the manager
    held and the second gets none; after a publish the manager holds no
    attribution and no draft. *)
Theorem X11_attribution_is_consumed_once :
  ∀ (s : State) formData1 result1 formData2 result2 (t1 t1' t2 t2' : Z),
    currentEditIndex s = None →
    let s1 := reader_onload formData1 result1 t1 t1' s in
    let s2 := reader_onload formData2 result2 t2 t2' s1 in
    selectedImageAttribution s1 = None ∧
    ¬ holdsDraft s1 ∧
    ∃ p1 p2,
      posts s2 = p2 :: p1 :: posts s ∧
      Post.imageAttribution p1 = selectedImageAttribution s ∧
      Post.imageAttribution p2 = None ∧
      Post.date p1 = t1 ∧ Post.date p2 = t2.
Proof.
  intros s formData1 result1 formData2 result2 t1 t1' t2 t2' Hmode s1 s2.
  destruct (publish_clears_draft formData1 result1 t1 t1' s Hmode)
    as [Hdraft _].
  split; [|split; [exact Hdraft|]].
  - unfold s1, reader_onload. rewrite Hmode. simpl. unfold createPost.
    by destruct (selectedImageAttribution s).
  - unfold s2, s1, reader_onload. rewrite Hmode. simpl.
    unfold createPost.
    destruct (selectedImageAttribution s) as [a|]; simpl;
      eexists _, _; repeat split.
Qed.

Lemma X11_attribution_is_consumed_once_witness :
  let s := fst (loadFormDraft 1000
                  (initial blankForm (Some storageWithAttribution))) in
  let s1 := reader_onload (formDataOf exampleForm) (str "data:a") 2000 2000 s in
  let s2 := reader_onload (formDataOf exampleForm) (str "data:b") 3000 3000 s1 in
  (Post.imageAttribution <$> posts s2) = [None; Some exampleAttribution].
Proof.
  intros s s1 s2.
  destruct (X11_attribution_is_consumed_once s
              (formDataOf exampleForm) (str "data:a")
              (formDataOf exampleForm) (str "data:b") 2000 2000 3000 3000
              eq_refl)
    as (_ & _ & p1 & p2 & Hposts & Ha1 & Ha2 & _).
  fold s1 s2 in Hposts. rewrite Hposts. simpl. by rewrite Ha1, Ha2.
Defined.

(** ** Tags *)

Lemma cleanTag_of_piece (piece : jsstring) :
  comma ∉ piece → trim piece ≠ [] → cleanTag (trim piece).
Proof.
  intros Hcomma Hne. split; [done|]. split; [apply trim_idem|].
  intros Hin. apply Hcomma. by apply trim_elem_of.
Qed.

Lemma filter_truthy (l : list jsstring) :
  List.filter truthy l = filter (λ x : jsstring, x ≠ []) l.
Proof.
  induction l as [|x l IH]; [done|].
  rewrite filter_cons. cbn [List.filter]. rewrite IH.
  destruct x as [|c x]; cbn [truthy].
  - by rewrite decide_False by (intros Hne; by apply Hne).
  - by rewrite decide_True.
Qed.

(** The tags field that [openEditModal] writes is read back by
    [createPostData] as the same tags. *)
Lemma split_join_tags (tag : jsstring) (rest : list jsstring) :
  Forall cleanTag (tag :: rest) →
  split comma (join (str ", ") (tag :: rest))
  = tag :: List.map (cons space) rest.
Proof.
  revert tag. induction rest as [|next rest IH]; intros tag Hclean.
  - simpl. apply split_no_sep.
    by inversion_clear Hclean as [|? ? (_ & _ & Hcomma) _].
  - inversion_clear Hclean as [|? ? (_ & _ & Hcomma) Hrest].
    rewrite join_cons_cons.
    change (str ", " ++ join (str ", ") (next :: rest))
      with (comma :: space :: join (str ", ") (next :: rest)).
    rewrite split_app_sep by done.
    rewrite split_cons_other by done. by rewrite IH.
Qed.

Lemma tags_round_trip (tags : list jsstring) :
  Forall cleanTag tags →
  List.filter truthy (List.map trim (split comma (join (str ", ") tags)))
  = tags.
Proof.
  intros Hclean. destruct tags as [|tag rest]; [done|].
  rewrite split_join_tags by done.
  inversion_clear Hclean as [|? ? (Hne & Htrim & _) Hrest].
  simpl. rewrite Htrim. apply truthy_true_iff in Hne. rewrite Hne.
  f_equal. induction Hrest as [|next rest (Hne' & Htrim' & _) Hrest IH];
    [done|].
  simpl. rewrite trim_cons_space, Htrim'.
  apply truthy_true_iff in Hne'. by rewrite Hne', IH.
Qed.

(** X12. The tags that [createPostData] stores are the pieces between the
    commas of the tags field, trimmed, in their order and as often as they
    occur, without the blank ones: no stored tag is empty, has white space at
    either end or holds a comma, every piece that is not blank is stored,
    and a list of such tags written into the field with ", " between them
    is stored as that list. *)
Theorem X12_stored_tags_are_clean :
  ∀ (formData : FormData.t) (image : option jsstring) (now : Z),
    let tags := Post.tags (createPostData formData image now) in
    let pieces := split comma (valueOrEmpty (FormData.postTags formData)) in
    tags = filter (λ tag : jsstring, tag ≠ []) (trim <$> pieces) ∧
    Forall cleanTag tags ∧
    (∀ piece, piece ∈ pieces → trim piece ≠ [] → trim piece ∈ tags) ∧
    (∀ tag, tag ∈ tags → ∃ piece, piece ∈ pieces ∧ tag = trim piece) ∧
    (length tags <= length pieces)%nat ∧
    (∀ written : list jsstring,
       Forall cleanTag written →
       FormData.postTags formData = Some (join (str ", ") written) →
       tags = written).
Proof.
  intros formData image now tags pieces.
  assert (Hin : ∀ tag, tag ∈ tags ↔
                  ∃ piece, piece ∈ pieces ∧ tag = trim piece ∧ tag ≠ []).
  { intros tag. unfold tags. simpl. fold pieces.
    rewrite list_elem_of_In, filter_In, in_map_iff, truthy_true_iff.
    split.
    - intros [(piece & <- & Hpiece) Hne]. exists piece.
      by rewrite list_elem_of_In.
    - intros (piece & Hpiece & -> & Hne). split; [|done].
      exists piece. by rewrite <- list_elem_of_In. }
  split; [apply filter_truthy|]. repeat split.
  - apply Forall_forall. intros tag Htag.
    apply Hin in Htag as (piece & Hpiece & -> & Hne).
    apply cleanTag_of_piece; [|done]. by eapply split_parts_no_sep.
  - intros piece Hpiece Hne. apply Hin. by exists piece.
  - intros tag Htag. apply Hin in Htag as (piece & Hpiece & -> & _).
    by exists piece.
  - unfold tags. simpl. fold pieces.
    etrans; [apply List.filter_length_le|]. by rewrite length_map.
  - intros written Hclean Hfield. unfold tags. simpl. rewrite Hfield.
    simpl. rewrite or_else_nil_r. by apply tags_round_trip.
Qed.

Lemma X12_stored_tags_are_clean_witness :
  Post.tags (createPostData (formDataOf taggedForm) None 0)
  = [str "sea"; str "food"].
Proof.
  destruct (X12_stored_tags_are_clean (formDataOf taggedForm) None 0)
    as (Htags & _).
  rewrite Htags. vm_compute. reflexivity.
Defined.

(** ** Opening a post in the editor *)

Lemma getField_set_postImage (v : option FileInput) (d : Dom.t) (f : FieldId) :
  getField (set_postImage v d) f = getField d f.
Proof. by destruct f. Qed.

Lemma getField_hideImagePreview (d : Dom.t) (f : FieldId) :
  getField (hideImagePreview d) f = getField d f.
Proof. by destruct f. Qed.

(** [openEditModal] writes the values of the post into the controls that
    exist. *)
Lemma getField_fillFormFromPost (post : Post.t) (d : Dom.t) (f : FieldId) :
  getField (fillFormFromPost post d) f
  = setValue (postValue post f) <$> getField d f.
Proof.
  unfold fillFormFromPost.
  destruct (hasImage post);
    rewrite getField_set_postImage,
      ?getField_showImagePreview, ?getField_hideImagePreview,
      !getField_writeField, !or_else_nil_r;
    destruct f; repeat (case_decide; try done);
    by destruct (getField d _).
Qed.

Lemma selectedFile_fillFormFromPost (post : Post.t) (d : Dom.t) :
  selectedFile d = None → selectedFile (fillFormFromPost post d) = None.
Proof.
  assert (Hw : ∀ k x d0, Dom.postImage (writeField k x d0) = Dom.postImage d0).
  { intros k x d0. unfold writeField.
    destruct (getField d0 k); [by destruct k|done]. }
  assert (Hs : ∀ src d0, Dom.postImage (showImagePreview src d0)
                         = Dom.postImage d0).
  { intros src d0. unfold showImagePreview. by repeat case_match. }
  unfold selectedFile, fillFormFromPost. intros Hnone.
  destruct (hasImage post); simpl; rewrite ?Hs, !Hw.
  - by destruct (Dom.postImage d).
  - by destruct (Dom.postImage d).
Qed.

Lemma postContent_fillFormFromPost (post : Post.t) (d : Dom.t) :
  Dom.postContent (fillFormFromPost post d) = Dom.postContent d.
Proof.
  assert (Hw : ∀ k x d0, Dom.postContent (writeField k x d0)
                         = Dom.postContent d0).
  { intros k x d0. unfold writeField.
    destruct (getField d0 k); [by destruct k|done]. }
  assert (Hs : ∀ src d0, Dom.postContent (showImagePreview src d0)
                         = Dom.postContent d0).
  { intros src d0. unfold showImagePreview. by repeat case_match. }
  unfold fillFormFromPost.
  destruct (hasImage post); simpl; by rewrite ?Hs, !Hw.
Qed.

Lemma openEditModal_live (index : Z) (s : State) (post : Post.t) :
  postAt (posts s) index = Some post →
  openEditModal index s
  = with_dom (fillFormFromPost post)
      (clearFormDraft (set_currentEditIndex (Some index) s)).
Proof. unfold openEditModal. simpl. by intros ->. Qed.

Lemma formDataOf_showError (msg : jsstring) (d : Dom.t) :
  formDataOf (showError msg d) = formDataOf d.
Proof. unfold showError. by destruct (Dom.formError d). Qed.

Lemma validateForm_accepts (s : State) :
  (∀ g, g ∈ requiredFields → fieldOk (dom s) g) →
  checkImage (bool_decide (currentEditIndex s ≠ None)) (dom s) = None →
  validateForm s = (with_dom (showError []) s, true).
Proof.
  intros Hok Himage. unfold validateForm.
  rewrite checkRequired_showError, checkRequired_all_ok by done.
  by rewrite checkImage_showError, Himage.
Qed.

(** A submit in edit mode with no file selected updates the post at once. *)
Lemma handleSubmit_update_without_image (tData tEdit : Z) (s : State)
    (index : Z) :
  currentEditIndex s = Some index →
  (∀ g, g ∈ requiredFields → fieldOk (dom s) g) →
  selectedFile (dom s) = None →
  handleSubmit tData tEdit s
  = (closeModals
       (updatePost index (updateData index (formDataOf (dom s)) None tData s)
          tEdit (with_dom (showError []) s)),
     None).
Proof.
  intros Hmode Hok Hfile. unfold handleSubmit.
  rewrite validateForm_accepts; [|done|].
  - simpl. rewrite formDataOf_showError.
    assert (Hnone : nonEmptyImage (formDataOf (dom s)) = None).
    { unfold nonEmptyImage, formDataOf, selectedFile in *. simpl.
      destruct (Dom.postImage (dom s)) as [input|]; [|done]. simpl in *.
      by rewrite Hfile. }
    rewrite Hnone, Hmode. reflexivity.
  - unfold checkImage. rewrite Hfile, Hmode. by case_bool_decide.
Qed.

(** X13. Opening a post in the editor and submitting the form as it is
    keeps the post: the author, the category, the title, the excerpt, the
    tags, the image, the views and the attribution are those of the post
    before. The date becomes the time of the submit, the edit stamp is set,
    and the content becomes the excerpt. The post is one whose text went
    through the form; the form has its five controls, no content control and
    no file selected. *)
Theorem X13_unchanged_edit_keeps_the_post :
  ∀ (tData tEdit : Z) (s : State) (index : Z) (p : Post.t),
    postAt (posts s) index = Some p →
    editable p →
    (∀ f, getField (dom s) f ≠ None) →
    Dom.postContent (dom s) = None →
    selectedFile (dom s) = None →
    let s1 := openEditModal index s in
    let s' := fst (handleSubmit tData tEdit s1) in
    snd (handleSubmit tData tEdit s1) = None ∧
    currentEditIndex s' = None ∧
    length (posts s') = length (posts s) ∧
    ∃ stored,
      postAt (posts s') index = Some stored ∧
      Post.author stored = Post.author p ∧
      Post.category stored = Post.category p ∧
      Post.title stored = Post.title p ∧
      Post.excerpt stored = Post.excerpt p ∧
      Post.tags stored = Post.tags p ∧
      Post.image stored = Post.image p ∧
      Post.views stored = Post.views p ∧
      Post.imageAttribution stored = Post.imageAttribution p ∧
      Post.content stored = Post.excerpt p ∧
      Post.date stored = tData ∧
      Post.dateEdited stored = Some tEdit.
Proof.
  intros tData tEdit s index p Hp Hedit Hcontrols Hcontent Hfile s1 s'.
  destruct Hedit as [[Ha1 Ha2] Hc [Ht1 Ht2] [He1 He2] Htags Himage].
  assert (Hs1 : s1 = with_dom (fillFormFromPost p)
                       (clearFormDraft (set_currentEditIndex (Some index) s)))
    by by apply openEditModal_live.
  unfold s'. clearbody s1. clear s'.
  assert (Hfield : ∀ f, ∃ input,
            getField (dom s1) f = Some input ∧ value input = postValue p f).
  { intros f. rewrite Hs1. simpl. rewrite getField_fillFormFromPost.
    destruct (getField (dom s) f) as [input|] eqn:Hget;
      [|by destruct (Hcontrols f)].
    by eexists. }
  assert (Hok : ∀ g, g ∈ requiredFields → fieldOk (dom s1) g).
  { intros g Hg. destruct (Hfield g) as (input & Hget & Hval).
    exists input. split; [done|]. rewrite Hval.
    unfold requiredFields in Hg.
    repeat (apply elem_of_cons in Hg as [->|Hg]); simpl;
      [congruence|done|congruence|congruence|by apply elem_of_nil in Hg]. }
  assert (Hfile1 : selectedFile (dom s1) = None).
  { rewrite Hs1. simpl. by apply selectedFile_fillFormFromPost. }
  assert (Hcontent1 : Dom.postContent (dom s1) = None).
  { rewrite Hs1. simpl. by rewrite postContent_fillFormFromPost. }
  assert (Hposts1 : posts s1 = posts s) by by rewrite Hs1.
  assert (Hmode1 : currentEditIndex s1 = Some index) by by rewrite Hs1.
  rewrite (handleSubmit_update_without_image tData tEdit s1 index) by done.
  simpl. unfold updatePost. simpl. rewrite Hposts1, Hp. simpl.
  split; [done|]. split; [done|]. split; [apply length_insert|].
  eexists. split; [by eapply postAt_insert_eq|].
  assert (Hvalue : ∀ f, value <$> getField (dom s1) f = Some (postValue p f)).
  { intros f. destruct (Hfield f) as (input & -> & <-). done. }
  pose proof (Hvalue authorName) as Hv1. pose proof (Hvalue postCategory) as Hv2.
  pose proof (Hvalue postTitle) as Hv3. pose proof (Hvalue postExcerpt) as Hv4.
  pose proof (Hvalue postTags) as Hv5. simpl in Hv1, Hv2, Hv3, Hv4, Hv5.
  assert (Himg : Post.image
                   match hasImage p with
                   | Some src =>
                       set_image src
                         (createPostData (formDataOf (dom s1)) None tData)
                   | None => createPostData (formDataOf (dom s1)) None tData
                   end = Post.image p).
  { unfold hasImage. destruct (Post.image p) as [[|c src]|]; done. }
  split_and!; try apply Himg; try apply orZero_id;
    destruct (hasImage p) as [src|]; simpl;
    rewrite ?Hv1, ?Hv2, ?Hv3, ?Hv4, ?Hv5, ?Hcontent1; simpl;
    rewrite ?Ha1, ?Ht1, ?He1, ?or_else_nil_r, ?tags_round_trip by done;
    done.
Qed.

Lemma X13_unchanged_edit_keeps_the_post_witness :
  ∃ stored,
    postAt (posts (fst (handleSubmit 50 60 (openEditModal 0 taggedStore)))) 0
    = Some stored ∧
    Post.tags stored = [str "sea"; str "food"] ∧
    Post.image stored = Some (str "data:a") ∧
    Post.date stored = 50 ∧
    Post.dateEdited stored = Some 60.
Proof.
  pose (p := set_image (str "data:a")
               (createPostData (formDataOf taggedForm) None 1)).
  assert (Hclean : ∀ tag, tag ∈ [str "sea"; str "food"] → cleanTag tag).
  { intros tag Htag. apply list_elem_of_In in Htag.
    destruct Htag as [<-|[<-|[]]]; (split; [discriminate|split; [reflexivity|]]);
      intros Hcomma; apply list_elem_of_In in Hcomma; vm_compute in Hcomma;
      intuition discriminate. }
  destruct (X13_unchanged_edit_keeps_the_post 50 60 taggedStore 0 p)
    as (_ & _ & _ & stored & Hat & _ & _ & _ & _ & Htags & Himage & _ & _
        & _ & Hdate & Hedited).
  - reflexivity.
  - split; try (split; [reflexivity|discriminate]); try discriminate.
    apply Forall_forall, Hclean.
  - intros f. destruct f; discriminate.
  - reflexivity.
  - reflexivity.
  - exists stored. rewrite Hat, Htags, Himage, Hdate, Hedited. done.
Defined.

(** ** Read time and word count *)

(** X14. The read time of a content is one more than the number of its
    space characters divided by 200, rounded down: [calculateReadTime]
    counts the pieces between single spaces, so every space of a run counts
    and other white space does not. An empty content reads in 1 minute. *)
Theorem X14_read_time_counts_spaces (content : list N) :
  calculateReadTime content
  = Z.of_nat (length (filter (λ c, c = space) content)) / 200 + 1.
Proof.
  unfold calculateReadTime. destruct content as [|c content]; [done|].
  cbn [truthy negb]. rewrite length_split.
  set (n := length _).
  replace (Z.of_nat (S n) + 199) with (Z.of_nat n + 1 * 200) by lia.
  rewrite Z.div_add by lia.
  assert (0 <= Z.of_nat n / 200) by (apply Z.div_pos; lia). lia.
Qed.

Lemma nonEmpty_rev_cons (x : N) (cur : jsstring) :
  bool_decide (0 < length (rev (x :: cur)))%nat = true.
Proof. apply bool_decide_eq_true. rewrite length_rev. simpl. lia. Qed.

Lemma wordsFrom_splitWhiteSpace (afterSeparator : bool) (cur s : jsstring) :
  (afterSeparator = true → cur = []) →
  List.filter (fun word => bool_decide (0 < length word)%nat)
    (splitWhiteSpace afterSeparator cur s)
  = wordsFrom cur s.
Proof.
  revert afterSeparator cur.
  induction s as [|c s IH]; intros afterSeparator cur Hcur;
    cbn [splitWhiteSpace wordsFrom].
  - destruct cur as [|x cur]; [done|].
    cbn [List.filter]. by rewrite nonEmpty_rev_cons.
  - destruct (isWhiteSpace c).
    + destruct afterSeparator.
      * rewrite Hcur by done. by apply IH.
      * destruct cur as [|x cur]; cbn [List.filter].
        -- simpl. by apply IH.
        -- rewrite nonEmpty_rev_cons. f_equal. by apply IH.
    + by apply IH.
Qed.

Lemma wordsFrom_trimStart (s : jsstring) :
  wordsFrom [] (trimStart s) = wordsFrom [] s.
Proof.
  induction s as [|c s IH]; simpl; [done|].
  destruct (isWhiteSpace c) eqn:Hc; [done|]. simpl. by rewrite Hc.
Qed.

Lemma wordsFrom_snoc_white (cur s : jsstring) (c : N) :
  isWhiteSpace c = true → wordsFrom cur (s ++ [c]) = wordsFrom cur s.
Proof.
  intros Hc. revert cur. induction s as [|x s IH]; intros cur; simpl.
  - rewrite Hc. by destruct cur.
  - destruct (isWhiteSpace x); [destruct cur|]; by rewrite IH.
Qed.

Lemma wordsFrom_rev_trimStart (cur s : jsstring) :
  wordsFrom cur (rev (trimStart s)) = wordsFrom cur (rev s).
Proof.
  induction s as [|c s IH]; simpl; [done|].
  destruct (isWhiteSpace c) eqn:Hc; [|done].
  by rewrite wordsFrom_snoc_white.
Qed.

Lemma wordsOf_trim (s : jsstring) : wordsOf (trim s) = wordsOf s.
Proof.
  unfold wordsOf, trim, trimEnd.
  by rewrite wordsFrom_rev_trimStart, rev_involutive, wordsFrom_trimStart.
Qed.

(** X15. The number that [updateWordCount] shows is the number of words of
    the value, a word being a maximal run of units that are not white space.
    White space at the two ends and the length of the runs of white space
    between the words play no role. *)
Theorem X15_word_count_counts_words (value : jsstring) :
  wordCount value = length (wordsOf value).
Proof.
  unfold wordCount. rewrite <- wordsOf_trim.
  case_bool_decide as Hlen.
  - by rewrite wordsFrom_splitWhiteSpace.
  - destruct (trim value); [done|simpl in Hlen; lia].
Qed.


(** ** Date texts of the default posts *)

Lemma removeFirst_app (c : N) (a b : jsstring) :
  c ∉ a → removeFirst c (a ++ c :: b) = a ++ b.
Proof.
  induction a as [|x a IH]; intros Ha; simpl.
  - by rewrite N.eqb_refl.
  - apply not_elem_of_cons in Ha as [Hx Ha].
    destruct (N.eqb_spec x c) as [->|_]; [done|]. by rewrite IH.
Qed.

Lemma months_names (m mm : jsstring) :
  (m, mm) ∈ months →
  monthNumber months m = Some mm ∧ (space ∉ m) ∧ (comma ∉ m).
Proof.
  intros Hm. unfold months in Hm.
  repeat (apply elem_of_cons in Hm as [[= -> ->]|Hm];
          [split; [reflexivity|split; intros Hin; apply list_elem_of_In in Hin;
             vm_compute in Hin; intuition discriminate]|]).
  by apply elem_of_nil in Hm.
Qed.

(** X16. A date text of the form "Mon D, YYYY", with one of the twelve
    abbreviations of the table, a day without space or comma and a year
    without space, is converted into "YYYY-MM-DDT00:00:00.000Z", the day
    padded with a zero to two units; the clock is not read. *)
Theorem X16_date_text_to_iso `{Host} (now : Z) (m mm day year : jsstring) :
  (m, mm) ∈ months →
  space ∉ day → comma ∉ day → space ∉ year →
  convertDateTextToISO now (dateText m day year)
  = year ++ str "-" ++ mm ++ str "-" ++ padStart 2 48 day
         ++ str "T00:00:00.000Z".
Proof.
  intros Hm Hday Hcomma Hyear.
  destruct (months_names m mm Hm) as (Hnumber & Hspace & Hmcomma).
  unfold convertDateTextToISO, dateText.
  change (m ++ str " " ++ day ++ str ", " ++ year)
    with (m ++ space :: day ++ comma :: space :: year).
  replace (m ++ space :: day ++ comma :: space :: year)
    with ((m ++ space :: day) ++ comma :: space :: year)
    by by rewrite <- app_assoc.
  rewrite removeFirst_app.
  - rewrite <- app_assoc, <- app_comm_cons.
    rewrite !split_app_sep by done.
    rewrite split_no_sep by done. by rewrite Hnumber.
  - rewrite elem_of_app, elem_of_cons. intros [?|[?|?]]; done.
Qed.

Lemma X16_date_text_to_iso_witness :
  convertDateTextToISO (H := simpleHost) 7 (str "Aug 6, 2024")
  = str "2024-08-06T00:00:00.000Z".
Proof.
  apply (X16_date_text_to_iso (H := simpleHost) 7
           (str "Aug") (str "08") (str "6") (str "2024")).
  - apply list_elem_of_In. vm_compute. tauto.
  - intros Hin. apply list_elem_of_In in Hin. vm_compute in Hin.
    intuition discriminate.
  - intros Hin. apply list_elem_of_In in Hin. vm_compute in Hin.
    intuition discriminate.
  - intros Hin. apply list_elem_of_In in Hin. vm_compute in Hin.
    intuition discriminate.
Defined.


(** ** The query of the image search *)

Lemma startsWith_prefix (p q s : jsstring) :
  startsWith (p ++ q) s = true → startsWith p s = true.
Proof.
  revert s. induction p as [|a p IH]; intros s; [done|].
  destruct s as [|b s]; simpl; [done|].
  intros [Hab Hrest]%andb_true_iff. rewrite Hab. simpl. by apply IH.
Qed.

Lemma startsWith_app_l (p a b : jsstring) :
  startsWith p a = true → startsWith p (a ++ b) = true.
Proof.
  revert a. induction p as [|x p IH]; intros a; [done|].
  destruct a as [|y a]; simpl; [done|].
  intros [Hxy Hrest]%andb_true_iff. rewrite Hxy. simpl. by apply IH.
Qed.

Lemma includes_startsWith (s p : jsstring) :
  startsWith p s = true → includes s p = true.
Proof. intros Hp. destruct s; simpl; by rewrite Hp. Qed.

Lemma includes_cons (c : N) (s p : jsstring) :
  includes s p = true → includes (c :: s) p = true.
Proof. intros Hp. cbn [includes]. rewrite Hp. apply orb_true_r. Qed.

Lemma includes_cons_inv (c : N) (s p : jsstring) :
  includes (c :: s) p = true →
  startsWith p (c :: s) = true ∨ includes s p = true.
Proof. cbn [includes]. by intros ?%orb_true_iff. Qed.

Lemma includes_prefix (s p q : jsstring) :
  includes s (p ++ q) = true → includes s p = true.
Proof.
  induction s as [|c s IH].
  - simpl. rewrite !orb_false_r. apply startsWith_prefix.
  - intros [Hstart|Hrest]%includes_cons_inv.
    + by eapply includes_startsWith, startsWith_prefix.
    + by apply includes_cons, IH.
Qed.

Lemma includes_app_r (a b p : jsstring) :
  includes b p = true → includes (a ++ b) p = true.
Proof.
  intros Hp. induction a as [|c a IH]; [done|].
  rewrite <- app_comm_cons. by apply includes_cons.
Qed.

Lemma includes_app_l (a b p : jsstring) :
  includes a p = true → includes (a ++ b) p = true.
Proof.
  induction a as [|c a IH].
  - simpl. rewrite orb_false_r. intros Hp.
    apply includes_startsWith. by apply (startsWith_app_l p []).
  - intros [Hstart|Hrest]%includes_cons_inv.
    + apply includes_startsWith. by apply (startsWith_app_l p (c :: a)).
    + rewrite <- app_comm_cons. by apply includes_cons, IH.
Qed.

(** A text that one of the parts includes is included in the joined text. *)
Lemma includes_join (sep p part : jsstring) (parts : list jsstring) :
  part ∈ parts → includes part p = true →
  includes (join sep parts) p = true.
Proof.
  intros Hpart Hp. induction parts as [|a parts IH];
    [by apply elem_of_nil in Hpart|].
  destruct parts as [|b parts].
  - by apply list_elem_of_singleton in Hpart as ->.
  - rewrite join_cons_cons. apply elem_of_cons in Hpart as [->|Hpart].
    + by apply includes_app_l.
    + by apply includes_app_r, includes_app_r, IH.
Qed.

Lemma startsWith_first_part (sep : N) (p s : jsstring) :
  sep ∉ p → startsWith p s = true →
  ∃ part parts, split sep s = part :: parts ∧ startsWith p part = true.
Proof.
  revert s. induction p as [|a p IH]; intros s Hsep Hp.
  - destruct (split sep s) as [|part parts] eqn:Hs;
      [by destruct (split_not_nil sep s)|].
    by exists part, parts.
  - destruct s as [|b s]; [done|]. simpl in Hp.
    apply andb_true_iff in Hp as [Hab%N.eqb_eq Hp]. subst b.
    apply not_elem_of_cons in Hsep as [Ha Hsep].
    destruct (IH s Hsep Hp) as (part & parts & Hs & Hpart).
    rewrite split_cons_other, Hs by done.
    exists (a :: part), parts. split; [done|].
    simpl. by rewrite N.eqb_refl.
Qed.

(** A text without the separator that a text includes is included in one of
    its parts. *)
Lemma includes_some_part (sep : N) (s p : jsstring) :
  sep ∉ p → includes s p = true →
  ∃ part, part ∈ split sep s ∧ includes part p = true.
Proof.
  intros Hsep. induction s as [|c s IH]; intros Hp.
  - exists []. split; [by apply list_elem_of_singleton|done].
  - apply includes_cons_inv in Hp as [Hstart|Hrest].
    + destruct (startsWith_first_part sep p (c :: s) Hsep Hstart)
        as (part & parts & -> & Hpart).
      exists part. split; [by left|by apply includes_startsWith].
    + destruct (IH Hrest) as (part & Hin & Hpart).
      destruct (decide (c = sep)) as [->|Hc].
      * rewrite split_cons_sep. exists part. split; [by right|done].
      * rewrite split_cons_other by done.
        destruct (split sep s) as [|first parts];
          [by apply elem_of_nil in Hin|].
        apply elem_of_cons in Hin as [->|Hin].
        -- exists (c :: first). split; [by left|by apply includes_cons].
        -- exists part. split; [by right|done].
Qed.

Lemma stopWord_elem_of (word : jsstring) :
  isStopWord word = true → word ∈ stopWords.
Proof. apply existsb_eqb. Qed.

Lemma stopWord_without_malaysia (word : jsstring) :
  isStopWord word = true → includes word (str "malaysia") = false.
Proof.
  intros Hword%stopWord_elem_of. unfold stopWords in Hword.
  apply list_elem_of_In in Hword. simpl in Hword.
  repeat (destruct Hword as [<-|Hword]; [reflexivity|]). done.
Qed.

Lemma not_elem_of_compute (c : N) (s : jsstring) :
  forallb (fun x => negb (x =? c)%N) s = true → c ∉ s.
Proof.
  intros Hall Hin. apply list_elem_of_In in Hin.
  rewrite forallb_forall in Hall. specialize (Hall c Hin).
  by rewrite N.eqb_refl in Hall.
Qed.

(** X17. The query that [optimizeSearchQuery] builds from a title, read as
    words between single spaces: its last word is "travel", it includes
    "malaysia", none of its words is a stop word, and every word is a word
    of the lowered title, "malaysia" or "travel". *)
Theorem X17_search_query_mentions_malaysia_and_travel `{TextHost}
    (title : jsstring) :
  let query := optimizeSearchQuery title in
  let words := split space query in
  last words = Some (str "travel") ∧
  includes query (str "malaysia") = true ∧
  (∀ word, word ∈ words → isStopWord word = false) ∧
  (∀ word, word ∈ words →
     word ∈ split space (toLowerCase title)
     ∨ word = str "malaysia" ∨ word = str "travel").
Proof.
  intros query words.
  set (lower := toLowerCase title).
  set (kept := List.filter (fun word => negb (isStopWord word))
                 (split space lower)).
  set (extended :=
         if negb (includes lower (str "malaysia"))
            && negb (includes lower (str "malaysian"))
         then kept ++ [str "malaysia"] else kept).
  assert (Hquery : query = join [space] (extended ++ [str "travel"]))
    by done.
  assert (Hkept : ∀ word, word ∈ kept ↔
            word ∈ split space lower ∧ isStopWord word = false).
  { intros word. unfold kept.
    by rewrite !list_elem_of_In, filter_In, negb_true_iff. }
  assert (Hextended : ∀ word, word ∈ extended →
            word ∈ kept ∨ word = str "malaysia").
  { intros word. unfold extended. case_match; [|by left].
    rewrite elem_of_app, list_elem_of_singleton. tauto. }
  assert (Hall : ∀ word, word ∈ extended ++ [str "travel"] →
            (space ∉ word) ∧ isStopWord word = false ∧
            (word ∈ split space lower
             ∨ word = str "malaysia" ∨ word = str "travel")).
  { intros word [Hword| ->%list_elem_of_singleton]%elem_of_app.
    - apply Hextended in Hword as [[Hpart Hstop]%Hkept| ->].
      + split; [by eapply split_parts_no_sep|]. split; [done|by left].
      + split; [by apply not_elem_of_compute|]. split; [done|]. by right; left.
    - split; [by apply not_elem_of_compute|]. split; [done|]. by right; right. }
  assert (Hwords : words = extended ++ [str "travel"]).
  { unfold words. rewrite Hquery. apply split_join.
    - by destruct extended.
    - apply Forall_forall. intros word Hword. by apply Hall. }
  rewrite Hwords. split; [apply last_snoc|]. split.
  - rewrite Hquery.
    assert (Hsome : ∃ word, word ∈ extended
                            ∧ includes word (str "malaysia") = true).
    { unfold extended.
      destruct (includes lower (str "malaysia")) eqn:Hm; simpl.
      - destruct (includes_some_part space lower (str "malaysia"))
          as (part & Hpart & Hinc); [by apply not_elem_of_compute|done|].
        exists part. split; [|done]. apply Hkept. split; [done|].
        destruct (isStopWord part) eqn:Hstop; [|done].
        apply stopWord_without_malaysia in Hstop. congruence.
      - destruct (includes lower (str "malaysian")) eqn:Hn; simpl.
        + apply (includes_prefix lower (str "malaysia") (str "n")) in Hn.
          congruence.
        + exists (str "malaysia").
          split; [apply elem_of_app; right; by left|done]. }
    destruct Hsome as (word & Hword & Hinc).
    apply (includes_join _ _ word); [|done].
    apply elem_of_app. by left.
  - split; intros word Hword; by apply Hall.
Qed.


(** ** Search and filter *)

Lemma setDisplay_setDisplay (a b : bool) (post : BlogPost) :
  setDisplay a (setDisplay b post) = setDisplay a post.
Proof. done. Qed.

(** X18. Search and filter do not combine: each of [handleSearch] and
    [handleFilter] sets the display of every post from its own test alone,
    so the posts shown after the two are those that the last one shows. *)
Theorem X18_last_of_search_and_filter_decides `{TextHost}
    (value : jsstring) (filterValue : option jsstring)
    (blogPosts : list BlogPost) :
  handleSearch value (handleFilter filterValue blogPosts)
  = handleSearch value blogPosts ∧
  handleFilter filterValue (handleSearch value blogPosts)
  = handleFilter filterValue blogPosts.
Proof.
  unfold handleSearch, handleFilter. rewrite !List.map_map.
  split; apply List.map_ext; intros post; by destruct post.
Qed.

(** ** View counters of the default posts *)

Lemma viewKey_inj (type postId postId' : jsstring) :
  viewKey type postId = viewKey type postId' → postId = postId'.
Proof.
  unfold viewKey. intros Heq.
  apply app_inv_head in Heq. apply app_inv_head in Heq.
  by apply app_inv_tail in Heq.
Qed.

Lemma openDefaultPostDetail_lookup (type postId postId' : jsstring)
    (viewCounts : gmap jsstring Z) :
  default 0 (fst (openDefaultPostDetail type postId viewCounts)
             !! viewKey type postId')
  = default 0 (viewCounts !! viewKey type postId')
    + (if decide (postId = postId') then 1 else 0).
Proof.
  unfold openDefaultPostDetail. simpl. rewrite orZero_id.
  destruct (decide (postId = postId')) as [->|Hne].
  - by rewrite lookup_insert_eq.
  - rewrite lookup_insert_ne; [lia|]. intros Heq. by apply viewKey_inj in Heq.
Qed.

(** X19. From empty view counters, after default posts were opened one
    after the other with one type (not "user", which counts in the posts
    themselves), the counter of a post is the number of times it was
    opened, whatever other posts were opened in between; the next opening
    of the post shows that number plus one, and [loadStoredData] shows that
    number for the type "default". *)
Theorem X19_view_counter_counts_openings (type : jsstring)
    (postIds : list jsstring) (postId : jsstring) :
  type ≠ str "user" →
  let viewCounts := openDefaultPosts type postIds ∅ in
  let opened := Z.of_nat (length (List.filter (eqb postId) postIds)) in
  default 0 (viewCounts !! viewKey type postId) = opened ∧
  snd (openDefaultPostDetail type postId viewCounts) = opened + 1 ∧
  (type = str "default" → storedViews postId viewCounts = opened).
Proof.
  intros _ viewCounts opened.
  assert (Hcount : default 0 (viewCounts !! viewKey type postId) = opened).
  { unfold viewCounts, opened, openDefaultPosts.
    induction postIds as [|last postIds IH] using rev_ind; [done|].
    rewrite foldl_snoc, openDefaultPostDetail_lookup, IH.
    rewrite List.filter_app, length_app. simpl. unfold eqb.
    destruct (decide (last = postId)) as [->|Hne].
    - rewrite bool_decide_true by done. simpl. lia.
    - rewrite bool_decide_false by done. simpl. lia. }
  split; [done|]. split.
  - unfold openDefaultPostDetail. simpl. by rewrite orZero_id, Hcount.
  - intros ->. unfold storedViews. by rewrite orZero_id.
Qed.

Lemma X19_view_counter_counts_openings_witness :
  storedViews (str "2")
    (openDefaultPosts (str "default") [str "2"; str "7"; str "2"] ∅)
  = 2.
Proof.
  destruct (X19_view_counter_counts_openings (str "default")
              [str "2"; str "7"; str "2"] (str "2"))
    as (_ & _ & Hstored).
  - discriminate.
  - by apply Hstored.
Defined.

(** ** The cache of the image search *)

Lemma digitCodes_inj (d d' : Decimal.uint) :
  digitCodes d = digitCodes d' → d = d'.
Proof.
  revert d'. induction d as [|d IH|d IH|d IH|d IH|d IH|d IH|d IH|d IH|d IH|d IH];
    intros d'; destruct d'; simpl; intros Heq; try discriminate;
    try done; injection Heq as Heq; f_equal; by apply IH.
Qed.

Lemma digitCodes_no_underscore (d : Decimal.uint) : 95%N ∉ digitCodes d.
Proof.
  induction d; simpl; [apply not_elem_of_nil|..];
    (apply not_elem_of_cons; split; [done|assumption]).
Qed.

Lemma numberToString_inj (n n' : N) :
  numberToString n = numberToString n' → n = n'.
Proof.
  unfold numberToString. intros Heq%digitCodes_inj.
  by rewrite <- (Unsigned.of_to n), <- (Unsigned.of_to n'), Heq.
Qed.

Lemma first_occurrence_inj (c : N) (x x' y y' : jsstring) :
  c ∉ x → c ∉ x' → x ++ c :: y = x' ++ c :: y' → x = x' ∧ y = y'.
Proof.
  revert x'. induction x as [|u x IH]; intros [|v x'] Hx Hx'; simpl;
    intros Heq.
  - by injection Heq as ->.
  - injection Heq as <- _. by apply not_elem_of_cons in Hx' as [? _].
  - injection Heq as -> _. by apply not_elem_of_cons in Hx as [? _].
  - injection Heq as <- Htail. apply not_elem_of_cons in Hx as [_ Hx].
    apply not_elem_of_cons in Hx' as [_ Hx'].
    by destruct (IH x' Hx Hx' Htail) as [-> ->].
Qed.

Lemma not_elem_of_rev (c : N) (x : jsstring) : c ∉ x → c ∉ rev x.
Proof.
  intros Hx Hin. apply Hx, list_elem_of_In.
  apply list_elem_of_In in Hin. by apply in_rev.
Qed.

Lemma last_occurrence_inj (c : N) (a a' b b' : jsstring) :
  c ∉ b → c ∉ b' → a ++ c :: b = a' ++ c :: b' → a = a' ∧ b = b'.
Proof.
  intros Hb Hb' Heq.
  apply (f_equal (@rev N)) in Heq. rewrite !rev_app_distr in Heq.
  simpl in Heq. rewrite <- !app_assoc in Heq. simpl in Heq.
  apply first_occurrence_inj in Heq as [Hrevb Hreva];
    [|by apply not_elem_of_rev..].
  apply (f_equal (@rev N)) in Hrevb, Hreva.
  by rewrite !rev_involutive in Hrevb, Hreva.
Qed.

(** Two searches share a cache key only if they are the same search. *)
Lemma cacheKey_inj (query query' : jsstring) (count count' : N) :
  cacheKey query count = cacheKey query' count' →
  query = query' ∧ count = count'.
Proof.
  unfold cacheKey. intros Heq.
  apply (last_occurrence_inj 95%N) in Heq as [-> Hcount];
    [|apply digitCodes_no_underscore..].
  by apply numberToString_inj in Hcount as ->.
Qed.

(** X20. A search that was sent and answered is served from the cache
    afterwards: the same query and count give the same images without a
    request, whatever the request would come back with, and the cache
    entries of every other query or count are untouched. *)
Theorem X20_answered_search_is_served_from_the_cache (query : jsstring)
    (count : N) (photos : list Photo.t)
    (cache : gmap jsstring (list Image.t)) :
  cache !! cacheKey query count = None →
  let images := List.map (imageOfPhoto query) photos in
  let cache' := <[cacheKey query count := images]> cache in
  searchImages query count (Results photos) cache = (images, cache', true) ∧
  (∀ response,
     searchImages query count response cache' = (images, cache', false)) ∧
  (∀ query' count',
     (query', count') ≠ (query, count) →
     cache' !! cacheKey query' count' = cache !! cacheKey query' count').
Proof.
  intros Hmiss images cache'. split; [|split].
  - unfold searchImages. by rewrite Hmiss.
  - intros response. unfold searchImages, cache'.
    by rewrite lookup_insert_eq.
  - intros query' count' Hne. unfold cache'.
    apply lookup_insert_ne. intros Heq.
    apply cacheKey_inj in Heq as [-> ->]. done.
Qed.

Lemma X20_answered_search_is_served_from_the_cache_witness :
  searchImages (str "penang travel") 1 RequestFailed
    (<[cacheKey (str "penang travel") 1 := []]> ∅)
  = ([], <[cacheKey (str "penang travel") 1 := []]> ∅, false).
Proof.
  destruct (X20_answered_search_is_served_from_the_cache
              (str "penang travel") 1 [] ∅ (lookup_empty _))
    as (_ & Hhit & _).
  apply Hhit.
Defined.

Lemma searchImages_cache (query : jsstring) (count : N) (response : Response)
    (cache : gmap jsstring (list Image.t)) (key : jsstring)
    (images : list Image.t) :
  snd (fst (searchImages query count response cache)) !! key = Some images →
  cache !! key = Some images
  ∨ ∃ photos, response = Results photos ∧ key = cacheKey query count
              ∧ images = List.map (imageOfPhoto query) photos.
Proof.
  unfold searchImages.
  destruct (cache !! cacheKey query count) eqn:Hcache; simpl; [by left|].
  destruct response as [| |photos]; simpl; [by left..|].
  destruct (decide (cacheKey query count = key)) as [<-|Hne].
  - rewrite lookup_insert_eq. intros [= <-]. right. by exists photos.
  - rewrite lookup_insert_ne by done. by left.
Qed.

(** X21. From an empty cache, after any sequence of searches, the images
    that the cache holds for a query and a count are those built from the
    photos of an answered search for that same query and count: failed
    requests leave nothing, and no two searches share an entry. *)
Theorem X21_cache_holds_only_answers_to_the_same_search
    (searches : list (jsstring * N * Response)) (query : jsstring)
    (count : N) (images : list Image.t) :
  searchAll searches ∅ !! cacheKey query count = Some images →
  ∃ photos,
    (query, count, Results photos) ∈ searches ∧
    images = List.map (imageOfPhoto query) photos.
Proof.
  unfold searchAll.
  induction searches as [|[[query' count'] response] searches IH]
    using rev_ind; [simpl; by rewrite lookup_empty|].
  rewrite foldl_snoc. intros Hkey.
  apply searchImages_cache in Hkey
    as [Hbefore|(photos & -> & Heq & ->)].
  - destruct (IH Hbefore) as (photos & Hin & ->).
    exists photos. split; [|done]. apply elem_of_app. by left.
  - apply cacheKey_inj in Heq as [-> ->].
    exists photos. split; [|done]. apply elem_of_app. right. by left.
Qed.

Lemma X21_cache_holds_only_answers_to_the_same_search_witness :
  ∃ photos,
    (str "a", 1%N, Results photos)
    ∈ [(str "a_1", 2%N, Results []); (str "a", 1%N, Results [])] ∧
    @nil Image.t = List.map (imageOfPhoto (str "a")) photos.
Proof.
  apply (X21_cache_holds_only_answers_to_the_same_search
           [(str "a_1", 2%N, Results []); (str "a", 1%N, Results [])]).
  vm_compute. reflexivity.
Defined.


(** ** What changes the posts *)

Lemma step_posts_frame (v : Variant) (e : Event) (s : State) :
  touchesPosts e = false → posts (step v e s) = posts s.
Proof.
  destruct e; simpl; try done; intros _.
  - unfold openCreateModal, loadFormDraft. simpl.
    destruct (sessionStorage s) as [st|]; [destruct (blogFormDraft st)|];
      simpl; repeat case_match; done.
  - unfold openEditModal. simpl. by destruct (postAt _ _).
  - unfold handleImageUpload. by destruct (validateImageFile _).
  - unfold autosaveFire. destruct (currentEditIndex s); [done|].
    destruct v; simpl; unfold saveFormDraft, saveFormDraft_fetch;
      by repeat case_match.
  - unfold clearFormAndDraft. by destruct confirmed.
Qed.

(** X22. The posts change only through a submit, a completed read, a
    delete or a view: opening and closing the modals, typing, choosing and
    removing a file, the preview, the autosave fires, a failed read and
    clearing the form leave [posts] as it is. *)
Theorem X22_posts_change_only_by_submit_delete_view :
  ∀ (v : Variant) (events : list Event) (s : State),
    Forall (λ e, touchesPosts e = false) events →
    posts (run v events s) = posts s.
Proof.
  intros v events. induction events as [|e events IH]; intros s Hall; [done|].
  inversion_clear Hall as [|? ? He Hrest]. simpl.
  change (foldl (λ st e0, step v e0 st) (step v e s) events)
    with (run v events (step v e s)).
  rewrite IH by done. by apply step_posts_frame.
Qed.

Lemma X22_posts_change_only_by_submit_delete_view_witness :
  posts (run JQuery
           [EvOpenEditModal 1; EvInput postTitle (str "changed");
            EvCloseModals; EvAutosave 10; EvOpenCreateModal 20;
            EvClearFormAndDraft true]
           threePosts)
  = posts threePosts.
Proof.
  apply X22_posts_change_only_by_submit_delete_view.
  repeat constructor.
Defined.

(** ** The number of posts *)

Lemma applyOp_length (op : Op) (s : State) :
  (length (posts (applyOp op s)) + removals [op] s
   = length (posts s) + publishes [op])%nat.
Proof.
  unfold publishes.
  destruct op as [formData image now|index formData image tData tEdit
                 |index confirmed|postId]; simpl.
  - destruct (createPost_posts (createPostData formData (Some image) now) s)
      as (stored & -> & _). simpl. lia.
  - unfold updatePost. destruct (postAt (posts s) index); simpl;
      rewrite ?length_insert; lia.
  - unfold deletePost.
    destruct (postAt (posts s) index) as [victim|] eqn:Hat;
      [|destruct confirmed; simpl; lia].
    destruct confirmed; simpl; [|lia].
    apply postAt_Some in Hat as [_ Hat].
    rewrite length_delete by done.
    apply lookup_lt_Some in Hat. lia.
  - unfold openPostDetail. destruct (postAt (posts s) postId); simpl;
      rewrite ?length_insert; lia.
Qed.

Lemma publishes_cons (op : Op) (ops : list Op) :
  publishes (op :: ops) = (publishes [op] + publishes ops)%nat.
Proof. unfold publishes. by destruct op. Qed.

Lemma removals_cons (op : Op) (ops : list Op) (s : State) :
  removals (op :: ops) s
  = (removals [op] s + removals ops (applyOp op s))%nat.
Proof. simpl. lia. Qed.

(** X23. The number of posts after a sequence of operations of the post
    store is the number before, plus the number of publishes, minus the
    number of confirmed deletes of a position that held a post: an update
    and a view never change it. *)
Theorem X23_posts_are_counted (ops : list Op) (s : State) :
  (length (posts (runOps ops s)) + removals ops s
   = length (posts s) + publishes ops)%nat.
Proof.
  revert s. induction ops as [|op ops IH]; intros s;
    [unfold publishes; simpl; lia|].
  change (runOps (op :: ops) s) with (runOps ops (applyOp op s)).
  pose proof (IH (applyOp op s)) as Hrest.
  pose proof (applyOp_length op s) as Hop.
  rewrite publishes_cons, removals_cons. lia.
Qed.


(** ** The other sort values *)

Lemma newest_consistent `{Host} :
  ConsistentOn validDate (sortCompare (str "newest")).
Proof.
  split.
  - intros a b [ta Ha] [tb Hb].
    rewrite (sortCompare_newest a b ta tb), (sortCompare_newest b a tb ta)
      by done. lia.
  - intros a b c [ta Ha] [tb Hb] [tc Hc].
    rewrite (sortCompare_newest a b ta tb), (sortCompare_newest b c tb tc),
      (sortCompare_newest a c ta tc) by done. lia.
Qed.

(** X24. Sorted by "newest", articles with valid dates are in descending
    order of timestamp in the default container, a permutation of all the
    articles, and articles with the same timestamp keep their original
    order. *)
Theorem X24_sort_by_newest :
  ∀ `{Host} (clock : nat → Z) (userPosts defaultPosts : list PostElem),
    let c := {| userPostsContainer := Some userPosts;
                defaultPostsContainer := Some defaultPosts |} in
    let allPosts := allPostsOf clock userPosts defaultPosts in
    Forall validDate allPosts →
    ∃ sorted,
      handleSort clock (str "newest") c
      = {| userPostsContainer := Some [];
           defaultPostsContainer := Some sorted |} ∧
      sorted ≡ₚ allPosts ∧
      StronglySorted newerOrSame sorted ∧
      ∀ t, filter (λ a, timeOf a = Some t) sorted
           = filter (λ a, timeOf a = Some t) allPosts.
Proof.
  intros host clock userPosts defaultPosts c allPosts Hvalid.
  exists (Array_sort (sortCompare (str "newest")) allPosts).
  split; [apply handleSort_result|].
  split; [apply Array_sort_perm|]. split.
  - apply (StronglySorted_impl_on validDate
             (λ a b, sortCompare (str "newest") a b <= 0)).
    + intros a b [ta Ha] [tb Hb] Hle.
      rewrite (sortCompare_newest a b ta tb) in Hle by done.
      exists tb, ta. repeat split; [done..|lia].
    + by apply Array_sort_Forall.
    + by apply (Array_sort_sorted _ validDate newest_consistent).
  - intros t. apply Array_sort_stable.
    intros x y _ _ Hx Hy. rewrite (sortCompare_newest x y t t) by done. lia.
Qed.

Lemma X24_sort_by_newest_witness :
  ∃ sorted,
    @handleSort simpleHost (λ _, 0) (str "newest")
      {| userPostsContainer := Some [article (str "1") (str "B")];
         defaultPostsContainer := Some [article (str "2") (str "A")] |}
    = {| userPostsContainer := Some [];
         defaultPostsContainer := Some sorted |} ∧
    StronglySorted (@newerOrSame simpleHost) sorted.
Proof.
  destruct (@X24_sort_by_newest simpleHost (λ _, 0)
              [article (str "1") (str "B")] [article (str "2") (str "A")])
    as (sorted & Hsort & _ & Hsorted & _).
  - repeat constructor; by eexists.
  - by exists sorted.
Defined.

Lemma Array_sort_ties {A : Type} (cmp : A → A → Z) (l : list A) :
  (∀ a b, cmp a b = 0) → Array_sort cmp l = l.
Proof.
  intros Hties. induction l as [|x l IH]; [done|].
  unfold Array_sort in *. cbn [foldr]. rewrite IH.
  destruct l as [|y l]; [done|]. simpl. by rewrite Hties.
Qed.

(** X25. With a sort value other than "newest", "oldest" and "title",
    [handleSort] keeps the order of the articles, user posts first, but
    still moves all of them into the default container. *)
Theorem X25_unknown_sort_value_keeps_the_order :
  ∀ `{Host} (clock : nat → Z) (sortValue : jsstring)
    (userPosts defaultPosts : list PostElem),
    sortValue ∉ sortValues →
    handleSort clock sortValue
      {| userPostsContainer := Some userPosts;
         defaultPostsContainer := Some defaultPosts |}
    = {| userPostsContainer := Some [];
         defaultPostsContainer :=
           Some (allPostsOf clock userPosts defaultPosts) |}.
Proof.
  intros host clock sortValue userPosts defaultPosts Hunknown.
  rewrite handleSort_result. do 2 f_equal.
  apply Array_sort_ties. intros a b.
  unfold sortCompare, compareFn, eqb.
  rewrite !bool_decide_false; [done|intros ->; apply Hunknown..].
  - by right; right; left.
  - by right; left.
  - by left.
Qed.

Lemma X25_unknown_sort_value_keeps_the_order_witness :
  @handleSort simpleHost (λ _, 0) (str "popular")
    {| userPostsContainer := Some [article (str "2") (str "B")];
       defaultPostsContainer := Some [article (str "1") (str "A")] |}
  = {| userPostsContainer := Some [];
       defaultPostsContainer :=
         Some [article (str "2") (str "B"); article (str "1") (str "A")] |}.
Proof.
  apply (@X25_unknown_sort_value_keeps_the_order simpleHost).
  intros Hin. apply list_elem_of_In in Hin. vm_compute in Hin.
  intuition discriminate.
Defined.


(** ** Leaving the editor *)

Lemma loadFormDraft_nothing (now : Z) (s : State) :
  pendingDraft s = None → loadFormDraft now s = (s, false).
Proof.
  unfold pendingDraft, loadFormDraft. intros Hp.
  destruct (sessionStorage s) as [st|]; simpl in Hp.
  - destruct (blogFormDraft st); [done|]. by rewrite Hp.
  - by rewrite Hp.
Qed.

Lemma emptyDefaults_setValue (d d' : Dom.t) :
  (∀ f, ∃ x, getField d' f = setValue x <$> getField d f) →
  emptyDefaults d → emptyDefaults d'.
Proof.
  intros Hd' Hd f. destruct (Hd f) as (input & Hget & Hdefault).
  destruct (Hd' f) as [x Hx]. rewrite Hx, Hget. simpl. by eexists.
Qed.

Lemma emptyDefaults_same (d d' : Dom.t) :
  (∀ f, getField d' f = getField d f) → emptyDefaults d → emptyDefaults d'.
Proof. intros Hd' Hd f. rewrite Hd'. apply Hd. Qed.

Lemma emptyDefaults_writeField (k : FieldId) (x : jsstring) (d : Dom.t) :
  emptyDefaults d → emptyDefaults (writeField k x d).
Proof.
  intros Hd f. destruct (Hd f) as (input & Hget & Hdefault).
  rewrite getField_writeField. case_decide; rewrite Hget; simpl; by eexists.
Qed.

Lemma editorOpen_openEditModal (index : Z) (s : State) (post : Post.t) :
  postAt (posts s) index = Some post →
  emptyDefaults (dom s) →
  editorOpen index (openEditModal index s).
Proof.
  intros Hpost Hd. rewrite (openEditModal_live index s post Hpost).
  split; [done|]. split.
  - unfold pendingDraft. simpl. by destruct (sessionStorage s).
  - simpl. apply (emptyDefaults_setValue (dom s)); [|done].
    intros f. eexists. apply getField_fillFormFromPost.
Qed.

Lemma editorOpen_step (v : Variant) (index : Z) (e : Event) (s : State) :
  whileEditing e = true → editorOpen index s → editorOpen index (step v e s).
Proof.
  intros He (Hmode & Hp & Hd). destruct e; try done; simpl.
  - split; [done|]. split; [done|]. by apply emptyDefaults_writeField.
  - destruct (autosave_in_edit_mode v now s) as [-> _]; [by rewrite Hmode|].
    done.
Qed.

Lemma editorOpen_run (v : Variant) (index : Z) (events : list Event)
    (s : State) :
  Forall (λ e, whileEditing e = true) events →
  editorOpen index s → editorOpen index (run v events s).
Proof.
  intros Hall. revert s. induction Hall as [|e events He Hall IH];
    intros s Hopen; [done|].
  simpl. apply IH. by apply editorOpen_step.
Qed.

Lemma getField_formReset (d : Dom.t) (f : FieldId) :
  getField (formReset d) f = resetInput <$> getField d f.
Proof. by destruct f. Qed.

(** X26. A new post after an edit starts from an empty form. When the
    editor is opened on a post, values are typed and autosave timers fire
    while it is open, and the modal is closed, the next [openCreateModal]
    finds no draft: the mode is create, no draft is held, no file is
    selected and every control is empty. The controls have empty default
    values. *)
Theorem X26_new_post_after_an_edit_starts_empty :
  ∀ (v : Variant) (now : Z) (s : State) (index : Z) (events : list Event),
    postAt (posts s) index ≠ None →
    emptyDefaults (dom s) →
    Forall (λ e, whileEditing e = true) events →
    let s1 := run v events (openEditModal index s) in
    let s' := openCreateModal now (closeModals s1) in
    currentEditIndex s' = None ∧
    ¬ holdsDraft s' ∧
    selectedFile (dom s') = None ∧
    ∀ f, fieldValue (dom s') f = [].
Proof.
  intros v now s index events Hpost Hd Hevents s1 s'.
  destruct (postAt (posts s) index) as [post|] eqn:Hat; [|done].
  destruct (editorOpen_run v index events (openEditModal index s) Hevents
              (editorOpen_openEditModal index s post Hat Hd))
    as (Hmode & Hp & Hd1).
  fold s1 in Hmode, Hp, Hd1.
  unfold s', openCreateModal. rewrite loadFormDraft_nothing by done.
  simpl. split; [done|]. split; [|split].
  - unfold holdsDraft, pendingDraft in *. simpl.
    destruct (sessionStorage s1 ≫= blogFormDraft); [done|].
    rewrite Hp. by intros [?|?].
  - unfold selectedFile. simpl. by destruct (Dom.postImage (dom s1)).
  - intros f. destruct (Hd1 f) as (input & Hget & Hdefault).
    unfold fieldValue.
    destruct f; simpl in *; rewrite Hget; simpl; by rewrite Hdefault.
Qed.

Lemma X26_new_post_after_an_edit_starts_empty_witness :
  let s1 := run JQuery [EvInput postTitle (str "changed"); EvAutosave 10]
              (openEditModal 0 taggedStore) in
  fieldValue (dom (openCreateModal 20 (closeModals s1))) postTitle = [].
Proof.
  intros s1.
  destruct (X26_new_post_after_an_edit_starts_empty JQuery 20 taggedStore 0
              [EvInput postTitle (str "changed"); EvAutosave 10])
    as (_ & _ & _ & Hfields).
  - discriminate.
  - intros f. destruct f; eexists; split; reflexivity.
  - repeat constructor.
  - exact (Hfields postTitle).
Defined.

(** X27. An autosave that fires after the editor was closed saves the
    values of the edited post as a draft: the timers started by typing or
    by leaving a control (and in part_000 the handler of a change of
    visibility) check the mode when they fire, and [closeModals] has set it
    back to create. The next [openCreateModal] within 7 days then shows the
    edited post in the form for a new post. The post has an author, the
    controls have empty default values and the session storage is absent or
    takes writes. *)
Theorem X27_fire_after_close_saves_the_edited_post :
  ∀ (v : Variant) (tFire now : Z) (s : State) (index : Z) (p : Post.t),
    postAt (posts s) index = Some p →
    trim (Post.author p) ≠ [] →
    emptyDefaults (dom s) →
    (∀ st, sessionStorage s = Some st → quotaExceeded st = false) →
    now - tFire <= 7 * msPerDay →
    let s1 := closeModals (openEditModal index s) in
    let s2 := autosaveFire v tFire s1 in
    let s' := openCreateModal now s2 in
    holdsDraft s2 ∧
    currentEditIndex s' = None ∧
    ∀ f, fieldValue (dom s') f = postValue p f.
Proof.
  intros v tFire now s index p Hpost Hauthor Hd Hquota Hnow s1 s2 s'.
  destruct (editorOpen_openEditModal index s p Hpost Hd) as (_ & Hp & Hd0).
  assert (Hvalues : ∀ f, fieldValue (dom s1) f = postValue p f).
  { intros f. unfold s1. rewrite (openEditModal_live index s p Hpost).
    unfold fieldValue. simpl.
    rewrite getField_set_postImage, getField_fillFormFromPost.
    destruct (Hd f) as (input & -> & _). simpl. apply or_else_nil_r. }
  assert (Hd1 : emptyDefaults (dom s1)).
  { apply (emptyDefaults_same (dom (openEditModal index s))); [|done].
    intros f. by destruct f. }
  assert (Hnone : formDraft s1 = None).
  { unfold s1. by rewrite (openEditModal_live index s p Hpost). }
  assert (Hquota1 : ∀ st, sessionStorage s1 = Some st →
                          quotaExceeded st = false).
  { unfold s1. rewrite (openEditModal_live index s p Hpost). simpl.
    intros st Hst. destruct (sessionStorage s) as [st0|] eqn:Hst0; [|done].
    injection Hst as <-. simpl. by apply Hquota. }
  assert (Hchanges : truthy (hasUnsavedChanges (dom s1)) = true).
  { unfold hasUnsavedChanges. rewrite (Hvalues authorName). simpl.
    rewrite !truthy_or_else. apply truthy_true_iff in Hauthor.
    by rewrite Hauthor. }
  destruct (autosaveFire_pending v tFire s1 eq_refl (λ _, Hchanges) Hquota1
              (mirrors_no_draft s1 Hnone))
    as (Hdom & Hmode2 & formData & Hpending & Hsaved & Hdraft).
  fold s2 in Hdom, Hmode2, Hpending.
  destruct (openCreateModal_restores_draft now s2 formData Hpending)
    as [Hmode' Hfields].
  - rewrite Hsaved. lia.
  - by rewrite Hdom.
  - split; [|split; [done|]].
    + unfold holdsDraft, pendingDraft in *.
      destruct (sessionStorage s2 ≫= blogFormDraft); [by right|].
      left. by rewrite Hpending.
    + intros f. fold s' in Hfields. by rewrite Hfields, Hdraft, Hvalues.
Qed.

Lemma X27_fire_after_close_saves_the_edited_post_witness :
  let s1 := closeModals (openEditModal 0 taggedStore) in
  let s' := openCreateModal 20 (autosaveFire JQuery 10 s1) in
  fieldValue (dom s') postTags = str "sea, food".
Proof.
  intros s1 s'.
  destruct (X27_fire_after_close_saves_the_edited_post JQuery 10 20
              taggedStore 0
              (set_image (str "data:a")
                 (createPostData (formDataOf taggedForm) None 1)))
    as (_ & _ & Hfields).
  - reflexivity.
  - discriminate.
  - intros f. destruct f; eexists; split; reflexivity.
  - intros st Hst. injection Hst as <-. reflexivity.
  - vm_compute. discriminate.
  - exact (Hfields postTags).
Defined.

(** X28. From the manager as its constructor leaves it, along every
    sequence of events in which each edit is opened on a position that holds
    a post, a draft is held only in create mode. *)
Theorem X28_draft_only_in_create_mode :
  ∀ (v : Variant) (d : Dom.t) (st : option Storage) (events : list Event),
    editsLivePosts v events (initial d st) →
    draftOnlyInCreate (run v events (initial d st)).
Proof.
  intros v d st events Hlive. by apply run_draftOnlyInCreate.
Qed.

Lemma X28_draft_only_in_create_mode_witness :
  draftOnlyInCreate
    (run JQuery
       [EvInput postTitle (str "T"); EvAutosave 10;
        EvReaderLoad (formDataOf exampleForm) (str "data:a") 20 20;
        EvOpenEditModal 0; EvAutosave 30]
       (initial blankForm (Some emptyStorage))).
Proof.
  apply X28_draft_only_in_create_mode.
  simpl. repeat split. discriminate.
Defined.


(** ** A read that completes after the editor was closed *)

(** X29. A read decides between update and publish when it completes.
    A valid edit submitted with a new image starts a read and leaves the
    posts and the mode as they are; if the modal is closed before the read
    completes, the handler publishes the form as a new post, with no views
    and no edit stamp, and the edited post stays as it was, one position
    further. *)
Theorem X29_read_after_close_publishes_a_copy :
  ∀ (tData tEdit : Z) (s : State) (index : Z) (p : Post.t) (file : File),
    currentEditIndex s = Some index →
    postAt (posts s) index = Some p →
    snd (validateForm s) = true →
    selectedFile (dom s) = Some file →
    0 < size file →
    ∃ s1 read,
      handleSubmit tData tEdit s = (s1, Some read) ∧
      posts s1 = posts s ∧
      currentEditIndex s1 = Some index ∧
      ∀ result,
        let s' := reader_onload (readFormData read) result tData tEdit
                    (closeModals s1) in
        ∃ stored,
          posts s' = stored :: posts s ∧
          Post.dateEdited stored = None ∧
          Post.views stored = 0 ∧
          postAt (posts s') (index + 1) = Some p.
Proof.
  intros tData tEdit s index p file Hmode Hpost Hvalid Hfile Hsize.
  destruct (validateForm_frame s) as (Hposts & _ & Hmode1 & _).
  eexists _, _. split; [by apply (handleSubmit_starts_read _ _ _ file)|].
  split; [done|]. split; [by rewrite Hmode1|].
  intros result s'. unfold s', reader_onload. simpl.
  destruct (createPost_posts
              (createPostData (formDataOf (dom (fst (validateForm s))))
                 (Some result) tData)
              (closeModals (fst (validateForm s))))
    as (stored & Hstored & Hviews & Hedited & _).
  simpl in Hstored. rewrite Hposts in Hstored.
  exists stored. rewrite Hstored. split; [done|]. split; [done|].
  split; [done|].
  apply postAt_Some in Hpost as [Hindex Hat].
  rewrite postAt_cons by done. by apply postAt_Some.
Qed.

Lemma X29_read_after_close_publishes_a_copy_witness :
  ∃ s1 read,
    handleSubmit 50 60 (set_currentEditIndex (Some 1) threePosts)
    = (s1, Some read) ∧
    length (posts (reader_onload (readFormData read) (str "data:new") 50 60
                     (closeModals s1)))
    = 4%nat.
Proof.
  destruct (X29_read_after_close_publishes_a_copy 50 60
              (set_currentEditIndex (Some 1) threePosts) 1
              (set_image (str "data:b")
                 (createPostData (formDataOf exampleForm) None 2))
              (pngFile 1024))
    as (s1 & read & Hsubmit & _ & _ & Hload); try reflexivity.
  exists s1, read. split; [done|].
  destruct (Hload (str "data:new")) as (stored & -> & _). reflexivity.
Defined.

(** X30. The other way round: when a valid new post is submitted with an
    image and the editor is opened on a post before the read completes, the
    handler finds the session editing and writes the new post's data over
    the post in the editor. No post is added, the other posts stay as they
    are, and the overwritten post is the merge of [updatePost]: the submitted
    text and image with the views of the post that was there. *)
Theorem X30_read_during_edit_overwrites_the_post :
  ∀ (tData tEdit : Z) (s : State) (index : Z) (p : Post.t) (file : File),
    currentEditIndex s = None →
    postAt (posts s) index = Some p →
    snd (validateForm s) = true →
    selectedFile (dom s) = Some file →
    0 < size file →
    ∃ s1 read,
      handleSubmit tData tEdit s = (s1, Some read) ∧
      posts s1 = posts s ∧
      ∀ result,
        let postData := createPostData (readFormData read) (Some result)
                          tData in
        let s' := reader_onload (readFormData read) result tData tEdit
                    (openEditModal index s1) in
        currentEditIndex s' = None ∧
        length (posts s') = length (posts s) ∧
        postAt (posts s') index = Some (mergePost p postData tEdit) ∧
        ∀ i, i ≠ index → postAt (posts s') i = postAt (posts s) i.
Proof.
  intros tData tEdit s index p file Hmode Hpost Hvalid Hfile Hsize.
  destruct (validateForm_frame s) as (Hposts & _).
  eexists _, _. split; [by apply (handleSubmit_starts_read _ _ _ file)|].
  split; [done|].
  intros result postData s'. unfold s', reader_onload.
  rewrite <- Hposts in Hpost.
  rewrite (openEditModal_live index _ p Hpost). simpl.
  unfold updatePost. simpl. rewrite Hpost. simpl. rewrite Hposts.
  rewrite Hposts in Hpost.
  split; [done|]. split; [apply length_insert|]. split.
  - by eapply postAt_insert_eq.
  - intros i Hi. apply postAt_Some in Hpost as [Hindex _].
    destruct (Z.le_gt_cases 0 i) as [Hpos|Hneg].
    + by apply postAt_insert_ne.
    + unfold postAt. destruct (Z.leb_spec 0 i); [lia|done].
Qed.

Lemma X30_read_during_edit_overwrites_the_post_witness :
  ∃ s1 read,
    handleSubmit 50 60 threePosts = (s1, Some read) ∧
    (Post.image
       <$> postAt (posts (reader_onload (readFormData read) (str "data:new")
                            50 60 (openEditModal 1 s1))) 1)
    = Some (Some (str "data:new")).
Proof.
  destruct (X30_read_during_edit_overwrites_the_post 50 60 threePosts 1
              (set_image (str "data:b")
                 (createPostData (formDataOf exampleForm) None 2))
              (pngFile 1024))
    as (s1 & read & Hsubmit & _ & Hload); try reflexivity.
  exists s1, read. split; [done|].
  destruct (Hload (str "data:new")) as (_ & _ & -> & _). reflexivity.
Defined.
